(** * Exim lookup dispatcher (src/search.c): a shallow embedding

    The development follows search.c function by function:
    [search_findtype], [search_findtype_partial], [search_tidyup],
    [search_open], [internal_search_find] and [search_find].

    Conventions.
    - A C string is modelled by the [string] of its bytes before the
      terminating NUL; [cstring s] says that no byte of [s] is NUL.
    - A C [int] is a [Z]; pointers into the cache of open files are indices
      into an arena ([search_tree]); a NULL pointer is [None].
    - Memory that search.c writes through pointers (the key buffer) is a
      [list ascii], read back as a C string with [cstr_at]. *)

From Stdlib Require Import ZArith Lia String Ascii List.
From stdpp Require Import base option list strings gmap.

Local Open Scope string_scope.
Local Open Scope Z_scope.

(** ** C strings *)

Definition NUL : ascii := "000"%char.

(** The value of a byte as an [unsigned char]. *)
Definition code (c : ascii) : Z := Z.of_N (N_of_ascii c).

Fixpoint cstring (s : string) : Prop :=
  match s with
  | EmptyString => True
  | String c r => c ≠ NUL ∧ cstring r
  end.

Definition Ustrlen (s : string) : Z := Z.of_nat (String.length s).

(** [strcmp]: only the sign of the result is specified by C; the model
    returns the difference of the first two bytes that differ. *)
Fixpoint Ustrcmp (s1 s2 : string) : Z :=
  match s1, s2 with
  | EmptyString, EmptyString => 0
  | EmptyString, String c2 _ => 0 - code c2
  | String c1 _, EmptyString => code c1
  | String c1 r1, String c2 r2 =>
      if Ascii.eqb c1 c2
      then (if Ascii.eqb c1 NUL then 0 else Ustrcmp r1 r2)
      else code c1 - code c2
  end.

(** [strncmp] on at most [n] bytes. *)
Fixpoint strncmp_nat (s1 s2 : string) (n : nat) {struct n} : Z :=
  match n with
  | O => 0
  | S n' =>
      match s1, s2 with
      | EmptyString, EmptyString => 0
      | EmptyString, String c2 _ => 0 - code c2
      | String c1 _, EmptyString => code c1
      | String c1 r1, String c2 r2 =>
          if Ascii.eqb c1 c2
          then (if Ascii.eqb c1 NUL then 0 else strncmp_nat r1 r2 n')
          else code c1 - code c2
      end
  end.

(** The length argument is converted to [size_t]: a negative [int] becomes
    a count larger than any string. *)
Definition Ustrncmp (s1 s2 : string) (n : Z) : Z :=
  if n <? 0 then Ustrcmp s1 s2 else strncmp_nat s1 s2 (Z.to_nat n).

(** The first [n] bytes of a string: the slice [(name, len)]. *)
Fixpoint string_take (n : nat) (s : string) {struct n} : string :=
  match n, s with
  | S n', String c r => String c (string_take n' r)
  | _, _ => EmptyString
  end.

Fixpoint string_drop (n : nat) (s : string) {struct n} : string :=
  match n, s with
  | S n', String _ r => string_drop n' r
  | _, _ => s
  end.

(** [*s]: the byte a pointer to the C string [s] points at. *)
Definition peek (s : string) : ascii :=
  match s with
  | EmptyString => NUL
  | String c _ => c
  end.

(** [strchr] for a byte other than NUL: the offset of its first occurrence. *)
Fixpoint Ustrchr (s : string) (c : ascii) : option nat :=
  match s with
  | EmptyString => None
  | String c' r => if Ascii.eqb c' c then Some O else S <$> Ustrchr r c
  end.

(** [isdigit] and [ispunct] of <ctype.h>, in the C locale exim runs in. *)
Definition isdigit (c : ascii) : bool := (48 <=? code c) && (code c <=? 57).

Definition ispunct (c : ascii) : bool :=
  let n := code c in
  ((33 <=? n) && (n <=? 47)) || ((58 <=? n) && (n <=? 64)) ||
  ((91 <=? n) && (n <=? 96)) || ((123 <=? n) && (n <=? 126)).

(** A 32-bit [int]: the value arithmetic produces on the two's complement
    machines exim is built for. *)
Definition INT_MAX : Z := 2147483647.
Definition wrap_int (z : Z) : Z := (z + 2147483648) mod 4294967296 - 2147483648.

Definition UINT_MAX : Z := 4294967295.

(** [strrchr] for a byte other than NUL: the offset of its last occurrence. *)
Fixpoint Ustrrchr (s : string) (c : ascii) : option nat :=
  match s with
  | EmptyString => None
  | String c' r =>
      match Ustrrchr r c with
      | Some i => Some (S i)
      | None => if Ascii.eqb c' c then Some O else None
      end
  end.

(** The number of bytes before the first ['.'] (or the end): what
    [while ( *s && *s != '.') s++] passes over. *)
Fixpoint span_to_dot (s : string) : nat :=
  match s with
  | EmptyString => O
  | String c r => if Ascii.eqb c "." then O else S (span_to_dot r)
  end.

(** [for (s = ...; *s; ) if ( *s++ == '.') dotcount++;] *)
Fixpoint count_dots (s : string) : Z :=
  match s with
  | EmptyString => 0
  | String c r => (if Ascii.eqb c "." then 1 else 0) + count_dots r
  end.

(** ** Memory written through pointers

    A block of memory is the list of its bytes, terminator included. *)

Definition buffer_of (s : string) : list ascii := list_ascii_of_string s ++ [NUL].

(** The C string that starts at the head of a list of bytes. *)
Fixpoint cstr_of_bytes (l : list ascii) : string :=
  match l with
  | [] => EmptyString
  | c :: r => if Ascii.eqb c NUL then EmptyString else String c (cstr_of_bytes r)
  end.

(** The bytes [Ustrncpy(dst, src, n)] writes: those of [src], then NULs up
    to [n] when [src] is shorter. *)
Definition strncpy_bytes (src : string) (n : Z) : list ascii :=
  take (Z.to_nat n) (list_ascii_of_string src ++ replicate (Z.to_nat n) NUL).

(** The block a pointer of search_find points into: the caller's key string
    or the block search_find gets from store_get for [keystring2]. *)
Inductive block := BlkKey | BlkKs2.

Record key_memory := {
  m_key : list ascii;
  m_ks2 : list ascii
}.

(** A pointer: a block and an offset. *)
Definition pointer : Type := block * Z.

Definition ptr_add (p : pointer) (n : Z) : pointer := (p.1, p.2 + n).

Definition block_of (m : key_memory) (b : block) : list ascii :=
  match b with
  | BlkKey => m_key m
  | BlkKs2 => m_ks2 m
  end.

Definition set_block (m : key_memory) (b : block) (v : list ascii) : key_memory :=
  match b with
  | BlkKey => {| m_key := v; m_ks2 := m_ks2 m |}
  | BlkKs2 => {| m_key := m_key m; m_ks2 := v |}
  end.

(** Reading the C string at [p], and the byte [*p]. *)
Definition mem_cstr (m : key_memory) (p : pointer) : string :=
  if p.2 <? 0 then EmptyString else cstr_of_bytes (drop (Z.to_nat p.2) (block_of m p.1)).

Definition mem_byte (m : key_memory) (p : pointer) : ascii :=
  if p.2 <? 0 then NUL else default NUL (block_of m p.1 !! Z.to_nat p.2).

(** Writing the bytes [bs] at [p]; a write outside the block is not
    modelled (it changes nothing). *)
Definition mem_write (m : key_memory) (p : pointer) (bs : list ascii) : key_memory :=
  if p.2 <? 0 then m
  else set_block m p.1 (list_inserts (Z.to_nat p.2) bs (block_of m p.1)).

(** [string_copyn(p, n)] *)
Definition mem_copyn (m : key_memory) (p : pointer) (n : Z) : string :=
  if p.2 <? 0 then EmptyString
  else cstr_of_bytes (take (Z.to_nat n) (drop (Z.to_nat p.2) (block_of m p.1))).

(** The double quote, for the messages of [string_sprintf]. *)
Definition dq : string := String (ascii_of_nat 34) EmptyString.

(** ** The driver table *)

Section Search.

(** [H] is what a driver's open hook returns (the [void *] handle); [W] is
    everything outside the dispatcher that the hooks read or change: files,
    connections, and the clock. *)
Context {H W : Type}.

(** What the find hook leaves in its by-reference arguments: result,
    errmsg and do_cache; and its return code. *)
Record find_out := {
  fo_rc : Z;
  fo_result : option string;
  fo_errmsg : string;
  fo_do_cache : Z
}.

(** [lookup_info]: a NULL function pointer is [None]. The quote function is
    only tested for presence by search.c. *)
Record lookup_info := {
  lk_name : string;
  lk_type : Z;
  lk_open : option string → string → W → option H * string * W;
  lk_check : option (H → option string → Z → option (list Z) →
                     option (list Z) → string → W → bool * string * W);
  lk_find : option (option H → option string → string → Z →
                    option string → W → find_out * W);
  lk_close : option (option H → W → W);
  lk_tidy : option (W → W);
  lk_quote : bool
}.

Variable lookup_list : list lookup_info.

(** Constants of exim's headers (macros.h, lookupapi.h, globals.c), which
    search.c only names. *)
Variables SEARCH_STAR SEARCH_STARAT : Z.
Variables lookup_querystyle lookup_absfile lookup_absfilequery : Z.
Variable DEFER : Z.
Variable lookup_open_max : Z.

(** What search.c asks of the rest of exim: the clock ([time(NULL)]), the
    taint of a string, whether a query is quoted for a lookup type, and the
    name of the ACL verb, authenticator, transport or router that is running
    (for the log line about unquoted queries). *)
Variable time : W → Z.
Variable is_tainted : string → bool.
Variable is_quoted_like : string → Z → bool.
Variable current_name : string.

(** string.c: the items string_nextinlist yields from a list separated by
    [','], and string_append_listele with separator [','] (a NULL gstring
    is [None]). *)
Variable string_nextinlist_all : string → list string.
Variable string_append_listele : option string → string → string.

Definition lookup_list_count : Z := Z.of_nat (length lookup_list).

(** ** search_findtype *)

Definition not_available_msg (name : string) (len : Z) : string :=
  "lookup type " ++ dq ++ string_take (Z.to_nat len) name ++ dq ++
  " is not available (not in the binary - check buildtime LOOKUP configuration)".

Definition unknown_type_msg (name : string) (len : Z) : string :=
  "unknown lookup type " ++ dq ++ string_take (Z.to_nat len) name ++ dq.

(** The [for] loop of search_findtype. The result is the returned [int]
    and the message stored in [search_error_message]; [None] only when the
    fuel runs out or the table is indexed outside its bounds. *)
Fixpoint search_findtype_loop (fuel : nat) (name : string) (len bot top : Z)
  : option (Z * option string) :=
  if top >? bot then
    match fuel with
    | O => None
    | S fuel' =>
        let mid := Z.quot (top + bot) 2 in
        match lookup_list !! Z.to_nat mid with
        | None => None
        | Some lk =>
            let c := Ustrncmp name (lk_name lk) len in
            if (c =? 0) && (Ustrlen (lk_name lk) =? len) then
              match lk_find lk with
              | Some _ => Some (mid, None)
              | None => Some (-1, Some (not_available_msg name len))
              end
            else if c >? 0
            then search_findtype_loop fuel' name len (mid + 1) top
            else search_findtype_loop fuel' name len bot mid
        end
    end
  else Some (-1, Some (unknown_type_msg name len)).

Definition search_findtype (name : string) (len : Z) : option (Z * option string) :=
  search_findtype_loop (length lookup_list) name len 0 lookup_list_count.

(** ** search_findtype_partial *)

(** [while (isdigit( *ss)) pv = pv*10 + *ss++ - '0';] *)
Fixpoint scan_digits (pv : Z) (ss : string) : Z * string :=
  match ss with
  | String c r =>
      if isdigit c then scan_digits (wrap_int (pv * 10 + code c - 48)) r else (pv, ss)
  | EmptyString => (pv, ss)
  end.

(** [while (ispunct( *ss) && *ss != ')') ss++;] with the number of bytes
    passed over. *)
Fixpoint scan_affix (ss : string) : nat * string :=
  match ss with
  | String c r =>
      if ispunct c && negb (Ascii.eqb c ")")
      then let '(n, ss') := scan_affix r in (S n, ss')
      else (O, ss)
  | EmptyString => (O, ss)
  end.

(** The first block of search_findtype_partial: what is left in [pv],
    [*ptypeaff], [*afflen] and [ss], or the jump to BAD_TYPE. A pointer into
    [name] is modelled by the C string it points at. *)
Inductive partial_prefix :=
| PrefixBad (ptypeaff : option string)
| PrefixOk (pv : Z) (ptypeaff : option string) (afflen : option Z) (ss : string).

Definition parse_partial_prefix (name : string) : partial_prefix :=
  if Ustrncmp name "partial" 7 =? 0 then
    let ss := string_drop 7 name in
    let '(pv, ss) := if isdigit (peek ss) then scan_digits 0 ss else (2, ss) in
    if Ascii.eqb (peek ss) "(" then
      let aff := string_drop 1 ss in
      let '(n, ss) := scan_affix aff in
      if negb (Ascii.eqb (peek ss) ")") then PrefixBad (Some aff)
      else PrefixOk pv (Some aff) (Some (Z.of_nat n)) (string_drop 1 ss)
    else if Ascii.eqb (peek ss) "-" then
      PrefixOk pv (Some "*.") (Some 2) (string_drop 1 ss)
    else PrefixBad None
  else PrefixOk (-1) None None name.

(** What search_findtype_partial returns and leaves in its result
    arguments. [fp_ptype], [fp_afflen], [fp_opts] and [fp_error] are [None]
    when the function returns without storing to [*ptypeptr], [*afflen],
    [*opts] and [search_error_message]; [fp_ptypeaff] is the pointer stored in
    [*ptypeaff], NULL being [None]. *)
Record findtype_partial_out := {
  fp_return : Z;
  fp_ptype : option Z;
  fp_ptypeaff : option string;
  fp_afflen : option Z;
  fp_starflags : Z;
  fp_opts : option (option string);
  fp_error : option string
}.

Definition format_error_msg (name : string) : string :=
  "format error in lookup type " ++ dq ++ name ++ dq.

Definition partial_not_permitted_msg (ss : string) : string :=
  dq ++ "partial" ++ dq ++ " is not permitted for lookup type " ++ dq ++ ss ++ dq.

Definition defaults_not_permitted_msg (ss : string) : string :=
  "defaults using " ++ dq ++ "*" ++ dq ++ " or " ++ dq ++ "*@" ++ dq ++
  " are not permitted for lookup type " ++ dq ++ ss ++ dq.

(** [mac_islookup(a, b)]: [lookup_list[a]->type & b]. *)
Definition mac_islookup (a : Z) (b : Z) : bool :=
  match lookup_list !! Z.to_nat a with
  | Some lk => negb (Z.land (lk_type lk) b =? 0)
  | None => false
  end.

Definition search_findtype_partial (name : string) : option findtype_partial_out :=
  match parse_partial_prefix name with
  | PrefixBad ptypeaff =>
      Some {| fp_return := -1; fp_ptype := None; fp_ptypeaff := ptypeaff;
              fp_afflen := None; fp_starflags := 0; fp_opts := None;
              fp_error := Some (format_error_msg name) |}
  | PrefixOk pv ptypeaff afflen ss =>
      let len := Ustrlen ss in
      (* t = Ustrchr(ss, '*') *)
      let '(len, starflags, t) :=
        match Ustrchr ss "*" with
        | Some i =>
            (Z.of_nat i,
             Z.lor 0 (if Ascii.eqb (peek (string_drop (S i) ss)) "@"
                      then SEARCH_STARAT else SEARCH_STAR),
             i)
        | None => (len, 0, O)
        end in
      (* t = Ustrchr(t, ',') *)
      let '(len, opts) :=
        match Ustrchr (string_drop t ss) "," with
        | Some j =>
            let l := Z.of_nat (t + j) in
            (if l <? len then l else len, Some (string_drop (S (t + j)) ss))
        | None => (len, None)
        end in
      match search_findtype ss len with
      | None => None
      | Some (stype, err) =>
          let out ret ptype error :=
            {| fp_return := ret; fp_ptype := ptype; fp_ptypeaff := ptypeaff;
               fp_afflen := afflen; fp_starflags := starflags;
               fp_opts := Some opts; fp_error := error |} in
          if (stype >=? 0) && mac_islookup stype lookup_querystyle then
            if pv >=? 0 then
              Some (out (-1) None (Some (partial_not_permitted_msg ss)))
            else if negb (Z.land starflags (Z.lor SEARCH_STAR SEARCH_STARAT) =? 0) then
              Some (out (-1) None (Some (defaults_not_permitted_msg ss)))
            else Some (out stype (Some pv) err)
          else Some (out stype (Some pv) err)
      end
  end.

(** ** The dispatcher's state *)

(** [expiring_data]: an entry of a handle's item cache. *)
Record expiring_data := {
  e_expiry : Z;
  e_opts : option string;
  e_data : option string
}.

(** [search_cache], the block a node of [search_tree] points to. [c_up] and
    [c_down] are the neighbours on the LRU chain; the item cache, a tree keyed
    by the key string, is a finite map. *)
Record search_cache := {
  c_handle : option H;
  c_search_type : Z;
  c_up : option nat;
  c_down : option nat;
  c_item_cache : gmap string expiring_data
}.

Record tree_node := {
  t_name : string;
  t_data : search_cache
}.

(** What [expand_nstring[i]] points to: the caller's key string, or a copy
    made by string_copyn_taint. *)
Inductive expand_ptr :=
| ExpKeystring
| ExpCopy (s : string).

(** The calls of driver hooks, in order (an observation of the run, not a
    variable of search.c). *)
Inductive hook_call :=
| CallOpen (search_type : Z) (filename : option string)
| CallCheck (search_type : Z) (handle : H)
| CallClose (search_type : Z) (handle : option H)
| CallFind (search_type : Z) (handle : option H) (filename : option string)
           (keystring : string) (opts : option string)
| CallTidy (i : nat).

(** The call sites of internal_search_find in search_find. *)
Inductive attempt := Verbatim | AffixWhole | AffixTrimmed | StarAt | Star.

(** The static variables of search.c and the globals it uses. The nodes of
    [search_tree] live in an arena: a pointer to a node is its index, and a
    node is found by name with [tree_search]. [world] is the state of
    everything the hooks touch; [hook_calls], [log] (log_write) and [probes]
    (the keys handed to internal_search_find by search_find) record what
    happened. *)
Record search_state := {
  search_tree : list tree_node;
  open_top : option nat;
  open_bot : option nat;
  open_filecount : Z;
  search_error_message : string;
  search_find_defer : bool;
  expand_nstring : gmap Z expand_ptr;
  expand_nlength : gmap Z Z;
  world : W;
  hook_calls : list hook_call;
  log : list string;
  probes : list (attempt * string)
}.

Definition set_search_tree (v : list tree_node) (st : search_state) :=
  {| search_tree := v; open_top := open_top st; open_bot := open_bot st;
     open_filecount := open_filecount st;
     search_error_message := search_error_message st;
     search_find_defer := search_find_defer st;
     expand_nstring := expand_nstring st; expand_nlength := expand_nlength st;
     world := world st; hook_calls := hook_calls st; log := log st;
     probes := probes st |}.

Definition set_open_top (v : option nat) (st : search_state) :=
  {| search_tree := search_tree st; open_top := v; open_bot := open_bot st;
     open_filecount := open_filecount st;
     search_error_message := search_error_message st;
     search_find_defer := search_find_defer st;
     expand_nstring := expand_nstring st; expand_nlength := expand_nlength st;
     world := world st; hook_calls := hook_calls st; log := log st;
     probes := probes st |}.

Definition set_open_bot (v : option nat) (st : search_state) :=
  {| search_tree := search_tree st; open_top := open_top st; open_bot := v;
     open_filecount := open_filecount st;
     search_error_message := search_error_message st;
     search_find_defer := search_find_defer st;
     expand_nstring := expand_nstring st; expand_nlength := expand_nlength st;
     world := world st; hook_calls := hook_calls st; log := log st;
     probes := probes st |}.

Definition set_open_filecount (v : Z) (st : search_state) :=
  {| search_tree := search_tree st; open_top := open_top st; open_bot := open_bot st;
     open_filecount := v;
     search_error_message := search_error_message st;
     search_find_defer := search_find_defer st;
     expand_nstring := expand_nstring st; expand_nlength := expand_nlength st;
     world := world st; hook_calls := hook_calls st; log := log st;
     probes := probes st |}.

Definition set_search_error_message (v : string) (st : search_state) :=
  {| search_tree := search_tree st; open_top := open_top st; open_bot := open_bot st;
     open_filecount := open_filecount st;
     search_error_message := v;
     search_find_defer := search_find_defer st;
     expand_nstring := expand_nstring st; expand_nlength := expand_nlength st;
     world := world st; hook_calls := hook_calls st; log := log st;
     probes := probes st |}.

Definition set_search_find_defer (v : bool) (st : search_state) :=
  {| search_tree := search_tree st; open_top := open_top st; open_bot := open_bot st;
     open_filecount := open_filecount st;
     search_error_message := search_error_message st;
     search_find_defer := v;
     expand_nstring := expand_nstring st; expand_nlength := expand_nlength st;
     world := world st; hook_calls := hook_calls st; log := log st;
     probes := probes st |}.

(** [expand_nstring[i] = p; expand_nlength[i] = n;] *)
Definition set_expand (i : Z) (p : expand_ptr) (n : Z) (st : search_state) :=
  {| search_tree := search_tree st; open_top := open_top st; open_bot := open_bot st;
     open_filecount := open_filecount st;
     search_error_message := search_error_message st;
     search_find_defer := search_find_defer st;
     expand_nstring := <[i := p]> (expand_nstring st);
     expand_nlength := <[i := n]> (expand_nlength st);
     world := world st; hook_calls := hook_calls st; log := log st;
     probes := probes st |}.

Definition set_world (v : W) (st : search_state) :=
  {| search_tree := search_tree st; open_top := open_top st; open_bot := open_bot st;
     open_filecount := open_filecount st;
     search_error_message := search_error_message st;
     search_find_defer := search_find_defer st;
     expand_nstring := expand_nstring st; expand_nlength := expand_nlength st;
     world := v; hook_calls := hook_calls st; log := log st;
     probes := probes st |}.

Definition record_call (e : hook_call) (st : search_state) :=
  {| search_tree := search_tree st; open_top := open_top st; open_bot := open_bot st;
     open_filecount := open_filecount st;
     search_error_message := search_error_message st;
     search_find_defer := search_find_defer st;
     expand_nstring := expand_nstring st; expand_nlength := expand_nlength st;
     world := world st; hook_calls := hook_calls st ++ [e]; log := log st;
     probes := probes st |}.

(** [log_write] *)
Definition log_write (msg : string) (st : search_state) :=
  {| search_tree := search_tree st; open_top := open_top st; open_bot := open_bot st;
     open_filecount := open_filecount st;
     search_error_message := search_error_message st;
     search_find_defer := search_find_defer st;
     expand_nstring := expand_nstring st; expand_nlength := expand_nlength st;
     world := world st; hook_calls := hook_calls st; log := log st ++ [msg];
     probes := probes st |}.

Definition record_probe (a : attempt) (key : string) (st : search_state) :=
  {| search_tree := search_tree st; open_top := open_top st; open_bot := open_bot st;
     open_filecount := open_filecount st;
     search_error_message := search_error_message st;
     search_find_defer := search_find_defer st;
     expand_nstring := expand_nstring st; expand_nlength := expand_nlength st;
     world := world st; hook_calls := hook_calls st; log := log st;
     probes := probes st ++ [(a, key)] |}.

(** The state of a process that has not searched yet. *)
Definition initial_state (w : W) : search_state :=
  {| search_tree := []; open_top := None; open_bot := None; open_filecount := 0;
     search_error_message := ""; search_find_defer := false;
     expand_nstring := ∅; expand_nlength := ∅;
     world := w; hook_calls := []; log := []; probes := [] |}.

(** [lookup_list[i]] *)
Definition lookup_list_at (i : Z) : option lookup_info :=
  if i <? 0 then None else lookup_list !! Z.to_nat i.

(** [t->data.ptr] for a node pointer [t]. *)
Definition cache_at (st : search_state) (t : nat) : option search_cache :=
  t_data <$> search_tree st !! t.

(** An assignment through [(search_cache * )(t->data.ptr)]. *)
Definition update_cache (t : nat) (f : search_cache → search_cache)
    (st : search_state) : search_state :=
  set_search_tree
    (alter (λ n, {| t_name := t_name n; t_data := f (t_data n) |}) t (search_tree st)) st.

Definition with_handle (v : option H) (c : search_cache) :=
  {| c_handle := v; c_search_type := c_search_type c; c_up := c_up c;
     c_down := c_down c; c_item_cache := c_item_cache c |}.

Definition with_search_type (v : Z) (c : search_cache) :=
  {| c_handle := c_handle c; c_search_type := v; c_up := c_up c;
     c_down := c_down c; c_item_cache := c_item_cache c |}.

Definition with_up (v : option nat) (c : search_cache) :=
  {| c_handle := c_handle c; c_search_type := c_search_type c; c_up := v;
     c_down := c_down c; c_item_cache := c_item_cache c |}.

Definition with_down (v : option nat) (c : search_cache) :=
  {| c_handle := c_handle c; c_search_type := c_search_type c; c_up := c_up c;
     c_down := v; c_item_cache := c_item_cache c |}.

Definition with_item_cache (v : gmap string expiring_data) (c : search_cache) :=
  {| c_handle := c_handle c; c_search_type := c_search_type c; c_up := c_up c;
     c_down := c_down c; c_item_cache := v |}.

(** [tree_search(search_tree, name)]: the node of that name. *)
Definition tree_search (tree : list tree_node) (name : string) : option nat :=
  fst <$> list_find (λ n, t_name n = name) tree.

(** Calling a close hook; a driver without one does not reach these calls. *)
Definition call_close (search_type : Z) (handle : option H) (st : search_state)
  : search_state :=
  match lookup_list_at search_type with
  | Some lk =>
      match lk_close lk with
      | Some close =>
          set_world (close handle (world st))
            (record_call (CallClose search_type handle) st)
      | None => st
      end
  | None => st
  end.

(** ** search_tidyup *)

(** tidyup_subtree, for one node: close the handle if it is open. The model
    visits the nodes in arena order. *)
Definition tidyup_node (st : search_state) (n : tree_node) : search_state :=
  match c_handle (t_data n) with
  | Some h => call_close (c_search_type (t_data n)) (Some h) st
  | None => st
  end.

Definition tidyup_subtree (tree : list tree_node) (st : search_state) : search_state :=
  foldl tidyup_node st tree.

Definition call_tidy (st : search_state) (il : nat * lookup_info) : search_state :=
  match lk_tidy il.2 with
  | Some tidy => set_world (tidy (world st)) (record_call (CallTidy il.1) st)
  | None => st
  end.

Definition search_tidyup (st : search_state) : search_state :=
  let st := match search_tree st with
            | [] => st
            | tree => set_search_tree [] (tidyup_subtree tree st)
            end in
  let st := set_open_filecount 0 (set_open_bot None (set_open_top None st)) in
  foldl call_tidy st (imap pair lookup_list).

(** ** search_open *)

(** [sprintf(keybuffer, "%c%.254s", search_type + '0', filename ? filename : "")] *)
Definition keybuffer_of (search_type : Z) (filename : option string) : string :=
  let c := ascii_of_N (Z.to_N ((search_type + 48) mod 256)) in
  if Ascii.eqb c NUL then ""
  else String c (string_take 254 (default "" filename)).

(** The block that runs when too many files are open: close the least
    recently used one, the bottom of the chain. *)
Definition evict_lru (st : search_state) : search_state :=
  match open_bot st with
  | None => log_write "too many lookups open, but can't find one to close" st
  | Some b =>
      match cache_at st b with
      | None => st
      | Some c =>
          let st := set_open_bot (c_up c) st in
          let st := match c_up c with
                    | Some u => update_cache u (with_down None) st
                    | None => set_open_top None st
                    end in
          let st := call_close (c_search_type c) (c_handle c) st in
          let st := update_cache b (with_handle None) st in
          set_open_filecount (open_filecount st - 1) st
      end
  end.

Definition tainted_filename_msg (filename : string) : string :=
  "Tainted filename for search: '" ++ filename ++ "'".

(** The end of search_open, once the file is open and checked: count it and
    enter it into the tree, or re-use the node [t] found there. *)
Definition enter_open (st : search_state) (lk : lookup_info) (t : option nat)
    (keybuffer : string) (search_type : Z) (handle : H) : option nat * search_state :=
  let st := if lk_type lk =? lookup_absfile
            then set_open_filecount (open_filecount st + 1) st else st in
  let '(t, st) :=
    match t with
    | None =>
        (length (search_tree st),
         set_search_tree
           (search_tree st ++
              [{| t_name := keybuffer;
                  t_data := {| c_handle := None; c_search_type := search_type;
                               c_up := None; c_down := None;
                               c_item_cache := ∅ |} |}]) st)
    | Some t => (t, st)
    end in
  let st := update_cache t (with_handle (Some handle)) st in
  let st := update_cache t (with_search_type search_type) st in
  let st := update_cache t (with_down None) st in
  let st := update_cache t (with_up None) st in
  (Some t, st).

Definition search_open (st : search_state) (filename : option string)
    (search_type : Z) (modemask : Z) (owners owngroups : option (list Z))
  : option nat * search_state :=
  match lookup_list_at search_type with
  | None => (None, st)
  | Some lk =>
      (* if (filename && is_tainted(filename)) *)
      match filename ≫= (λ f, if is_tainted f then Some f else None) with
      | Some f => (None, log_write (tainted_filename_msg f) st)
      | None =>
          let keybuffer := keybuffer_of search_type filename in
          let t := tree_search (search_tree st) keybuffer in
          match (t ≫= cache_at st) ≫= c_handle with
          | Some _ => (t, st)
          | None =>
              let st :=
                if (lk_type lk =? lookup_absfile) && (open_filecount st >=? lookup_open_max)
                then evict_lru st else st in
              let st := record_call (CallOpen search_type filename) st in
              let '(handle, msg, w) :=
                lk_open lk filename (search_error_message st) (world st) in
              let st := set_world w (set_search_error_message msg st) in
              match handle with
              | None => (None, st)
              | Some handle =>
                  match lk_check lk with
                  | Some check =>
                      let st := record_call (CallCheck search_type handle) st in
                      let '(ok, msg, w) :=
                        check handle filename modemask owners owngroups
                          (search_error_message st) (world st) in
                      let st := set_world w (set_search_error_message msg st) in
                      if ok then enter_open st lk t keybuffer search_type handle
                      else (None, call_close search_type (Some handle) st)
                  | None => enter_open st lk t keybuffer search_type handle
                  end
              end
          end
      end
  end.

(** ** internal_search_find *)

(** [!opts && !e->opts || opts && e->opts && Ustrcmp(opts, e->opts) == 0]:
    for C strings, [Ustrcmp(a, b) == 0] says that [a] and [b] hold the same
    bytes (lemma [Ustrcmp_zero_iff]). *)
Definition opts_match (opts e_opts : option string) : bool :=
  match opts, e_opts with
  | None, None => true
  | Some o, Some o' => String.eqb o o'
  | _, _ => false
  end.

Definition tainted_query_msg (keystring : string) : string :=
  "tainted search query is not properly quoted" ++ current_name ++ ": " ++ keystring.

Definition internal_search_find (st : search_state) (handle : nat)
    (filename : option string) (keystring : string) (cache_rd : bool)
    (opts : option string) : option string * search_state :=
  match search_tree st !! handle with
  | None => (None, st)
  | Some t =>
      let c := t_data t in
      let search_type := code (peek (t_name t)) - 48 in
      match lookup_list_at search_type with
      | None => (None, st)
      | Some lk =>
          let st := set_search_find_defer false (set_search_error_message "" st) in
          if Ascii.eqb (peek keystring) NUL then (None, st) else
          let e := c_item_cache c !! keystring in
          let hit :=
            match e with
            | Some e =>
                ((e_expiry e =? 0) || (e_expiry e >? time (world st)))
                && opts_match opts (e_opts e) && cache_rd
            | None => false
            end in
          if hit then (e ≫= e_data, st) else
          let st :=
            if negb (bool_decide (is_Some filename)) && lk_quote lk
               && is_tainted keystring && negb (is_quoted_like keystring search_type)
            then log_write (tainted_query_msg keystring) st else st in
          match lk_find lk with
          | None => (None, st)
          | Some find =>
              let st := record_call
                          (CallFind search_type (c_handle c) filename keystring opts) st in
              let '(out, w) :=
                find (c_handle c) filename keystring (Ustrlen keystring) opts (world st) in
              let st := set_world w (set_search_error_message (fo_errmsg out) st) in
              let data := fo_result out in
              let st :=
                if fo_rc out =? DEFER then set_search_find_defer true st
                else if negb (fo_do_cache out =? 0) then
                  let e := {| e_expiry := if fo_do_cache out =? UINT_MAX then 0
                                          else time (world st) + fo_do_cache out;
                              e_opts := opts;
                              e_data := data |} in
                  update_cache handle
                    (λ c, with_item_cache (<[keystring := e]> (c_item_cache c)) c) st
                else update_cache handle (with_item_cache ∅) st in
              (data, st)
          end
      end
  end.

(** ** search_find *)

(** Parsing the global lookup options: [(ret_key, cache_rd, opts)]. *)
Definition search_find_options (opts : option string) : bool * bool * option string :=
  match opts with
  | None => (false, true, None)
  | Some o =>
      foldl (λ '(ret_key, cache_rd, g) ele,
               if String.eqb ele "ret=key" then (true, cache_rd, g)
               else if String.eqb ele "cache=no_rd" then (ret_key, false, g)
               else (ret_key, cache_rd, Some (string_append_listele g ele)))
            (false, true, None) (string_nextinlist_all o)
  end.

(** [lookup_list[t->name[0]-'0']->type == lookup_absfile], for the name of
    a node. *)
Definition absfile_name (name : string) : bool :=
  match lookup_list_at (code (peek name) - 48) with
  | Some lk => lk_type lk =? lookup_absfile
  | None => false
  end.

(** Putting the database at the top of the LRU chain, in two steps. First
    the slot, whose neighbours are [up] and [down], is cut out of the
    chain; a newly opened file has a null [up]. *)
Definition lru_cut (st : search_state) (up down : option nat) : search_state :=
  match up with
  | Some u =>
      let st := update_cache u (with_down down) st in
      match down with
      | Some d => update_cache d (with_up up) st
      | None => set_open_bot up st
      end
  | None => st
  end.

(** Then it is put at the head of the chain. *)
Definition lru_push (st : search_state) (handle : nat) : search_state :=
  let st := update_cache handle (with_up None) st in
  let st := update_cache handle (with_down (open_top st)) st in
  let st :=
    match open_top st with
    | None => set_open_bot (Some handle) st
    | Some top => update_cache top (with_up (Some handle)) st
    end in
  set_open_top (Some handle) st.

Definition lru_promote (st : search_state) (handle : nat) : search_state :=
  match search_tree st !! handle with
  | None => st
  | Some t =>
      if negb (bool_decide (open_top st = Some handle)) && absfile_name (t_name t) then
        let c := t_data t in
        lru_push (lru_cut st (c_up c) (c_down c)) handle
      else st
  end.

(** How a block of search_find ends: with [return NULL] after a defer, or
    by falling through with [yield] and [set_null_wild]. In both cases the
    state, the memory and [*expand_setup] ([None] for a NULL [expand_setup])
    are what the block left. *)
Inductive block_end :=
| ReturnNull (st : search_state) (m : key_memory) (es : option Z)
| FallThrough (yield : option string) (st : search_state) (m : key_memory)
              (es : option Z) (set_null_wild : bool).

Definition keystring_ptr : pointer := (BlkKey, 0).

(** [expand_setup && *expand_setup >= 0] *)
Definition expanding (es : option Z) : option Z :=
  match es with
  | Some n => if n >=? 0 then Some n else None
  | None => None
  end.

(** Setting two expansion variables: [*expand_setup += 1], a store, and the
    same again. *)
Definition expand_pair (n : Z) (p1 : expand_ptr) (l1 : Z) (p2 : expand_ptr) (l2 : Z)
    (st : search_state) : search_state * option Z :=
  (set_expand (n + 2) p2 l2 (set_expand (n + 1) p1 l1 st), Some (n + 2)).

(** The setting of the expansion variables after a match on a key with
    leading components chopped off. *)
Definition expand_trimmed (st : search_state) (m : key_memory) (es : option Z)
    (keystring3 : pointer) (affixlen : Z) : search_state * option Z :=
  match expanding es with
  | Some n =>
      let fixedlength := Ustrlen (mem_cstr m keystring3) - affixlen in
      let wildlength := Ustrlen (mem_cstr m keystring_ptr) - fixedlength - 1 in
      let fixedlength := if fixedlength <? 0 then 0 else fixedlength in
      expand_pair n ExpKeystring wildlength
        (ExpCopy (mem_copyn m (ptr_add keystring_ptr (wildlength + 1)) fixedlength))
        fixedlength st
  | None => (st, es)
  end.

(** The loop [while (dotcount-- >= partial)]. [None] when the fuel runs
    out. *)
Fixpoint partial_loop (fuel : nat) (handle : nat) (filename : option string)
    (cache_rd : bool) (opts : option string) (partial : Z) (affix : string)
    (keystring2 : pointer)
    (st : search_state) (m : key_memory) (es : option Z)
    (dotcount : Z) (keystring3 : pointer) (affixlen : Z) : option block_end :=
  if dotcount >=? partial then
    match fuel with
    | O => None
    | S fuel' =>
        let dotcount := dotcount - 1 in
        let keystring3 :=
          ptr_add keystring3 (Z.of_nat (span_to_dot (mem_cstr m keystring3))) in
        let lookup m keystring3 affixlen :=
          let key := mem_cstr m keystring3 in
          let '(yield, st) :=
            internal_search_find (record_probe AffixTrimmed key st)
              handle filename key cache_rd opts in
          if search_find_defer st then Some (ReturnNull st m es)
          else
            match yield with
            | Some _ =>
                let '(st, es) := expand_trimmed st m es keystring3 affixlen in
                Some (FallThrough yield st m es false)
            | None =>
                partial_loop fuel' handle filename cache_rd opts partial affix
                  keystring2 st m es dotcount (ptr_add keystring3 affixlen) affixlen
            end in
        if Ascii.eqb (mem_byte m keystring3) NUL then
          if affixlen <? 1 then Some (FallThrough None st m es false)
          else
            let affixlen :=
              if (affixlen >? 1)
                 && Ascii.eqb (peek (string_drop (Z.to_nat (affixlen - 1)) affix)) "."
              then affixlen - 1 else affixlen in
            let m := mem_write m keystring2 (strncpy_bytes affix affixlen) in
            let m := mem_write m (ptr_add keystring2 affixlen) [NUL] in
            lookup m keystring2 affixlen
        else
          let keystring3 := ptr_add keystring3 (- (affixlen - 1)) in
          let m := if affixlen >? 0
                   then mem_write m keystring3 (strncpy_bytes affix affixlen)
                   else m in
          lookup m keystring3 affixlen
    end
  else Some (FallThrough None st m es false).

(** [keystring2 = store_get(len + affixlen + 1)], filled with the affix
    and the key. *)
Definition build_keystring2 (m : key_memory) (affix : string) (affixlen : Z)
  : key_memory :=
  let len := Ustrlen (mem_cstr m keystring_ptr) in
  let m := {| m_key := m_key m;
              m_ks2 := replicate (Z.to_nat (len + affixlen + 1)) NUL |} in
  let keystring2 : pointer := (BlkKs2, 0) in
  let m := mem_write m keystring2 (strncpy_bytes affix affixlen) in
  mem_write m (ptr_add keystring2 affixlen) (buffer_of (mem_cstr m keystring_ptr)).

(** The block [else if (partial >= 0)], entered after the verbatim lookup
    found nothing. *)
Definition search_find_partial (handle : nat) (filename : option string)
    (cache_rd : bool) (opts : option string) (partial : Z) (affix : string)
    (affixlen : Z) (st : search_state) (m : key_memory) (es : option Z)
  : option block_end :=
  let trim keystring2 st m :=
    let keystring3 := ptr_add keystring2 affixlen in
    let dotcount := count_dots (mem_cstr m keystring3) in
    partial_loop (Z.to_nat (dotcount - partial + 1)) handle filename cache_rd opts
      partial affix keystring2 st m es dotcount keystring3 affixlen in
  if affixlen =? 0 then trim keystring_ptr st m
  else
    let m := build_keystring2 m affix affixlen in
    let keystring2 : pointer := (BlkKs2, 0) in
    let key := mem_cstr m keystring2 in
    let '(yield, st) :=
      internal_search_find (record_probe AffixWhole key st)
        handle filename key cache_rd opts in
    if search_find_defer st then Some (ReturnNull st m es)
    else
      match yield with
      | None => trim keystring2 st m
      | Some _ => Some (FallThrough yield st m es true)
      end.

(** The block for [*@]: [if (!yield && starflags & SEARCH_STARAT)]. *)
Definition search_find_starat (handle : nat) (filename : option string)
    (cache_rd : bool) (opts : option string) (starflags : Z)
    (yield : option string) (st : search_state) (m : key_memory) (es : option Z)
    (set_null_wild : bool) : block_end :=
  if negb (bool_decide (is_Some yield)) && negb (Z.land starflags SEARCH_STARAT =? 0) then
    match Ustrrchr (mem_cstr m keystring_ptr) "@" with
    | Some atat =>
        if (0 <? atat)%nat then
          (* savechar = *--atat; *atat = '*'; *)
          let atat := ptr_add keystring_ptr (Z.of_nat atat - 1) in
          let savechar := mem_byte m atat in
          let m := mem_write m atat ["*"%char] in
          let key := mem_cstr m atat in
          let '(yield, st) :=
            internal_search_find (record_probe StarAt key st)
              handle filename key cache_rd opts in
          let m := mem_write m atat [savechar] in
          if search_find_defer st then ReturnNull st m es
          else
            match yield, expanding es with
            | Some _, Some n =>
                let '(st, es) :=
                  expand_pair n ExpKeystring (atat.2 - keystring_ptr.2 + 1)
                    ExpKeystring 0 st in
                FallThrough yield st m es set_null_wild
            | _, _ => FallThrough yield st m es set_null_wild
            end
        else FallThrough yield st m es set_null_wild
    | None => FallThrough yield st m es set_null_wild
    end
  else FallThrough yield st m es set_null_wild.

(** The block for [*]: [if (!yield && starflags & (SEARCH_STAR|SEARCH_STARAT))]. *)
Definition search_find_star (handle : nat) (filename : option string)
    (cache_rd : bool) (opts : option string) (starflags : Z)
    (yield : option string) (st : search_state) (m : key_memory) (es : option Z)
  : option string * search_state * option Z :=
  if negb (bool_decide (is_Some yield))
     && negb (Z.land starflags (Z.lor SEARCH_STAR SEARCH_STARAT) =? 0) then
    let '(yield, st) :=
      internal_search_find (record_probe Star "*" st)
        handle filename "*" cache_rd opts in
    match yield, expanding es with
    | Some _, Some n =>
        let '(st, es) :=
          expand_pair n ExpKeystring (Ustrlen (mem_cstr m keystring_ptr))
            ExpKeystring 0 st in
        (yield, st, es)
    | _, _ => (yield, st, es)
    end
  else (yield, st, es).

(** What search_find returns and leaves behind: the state, the bytes of the
    caller's key string, and [*expand_setup]. *)
Record find_result := {
  r_yield : option string;
  r_state : search_state;
  r_keystring : list ascii;
  r_expand_setup : option Z
}.

Definition return_null (st : search_state) (m : key_memory) (es : option Z) : find_result :=
  {| r_yield := None; r_state := st; r_keystring := m_key m; r_expand_setup := es |}.

(** The first half of search_find: the verbatim lookup, then the partial
    ones. *)
Definition search_find_first (handle : nat) (filename : option string)
    (cache_rd : bool) (opts : option string) (partial : Z) (affix : string)
    (affixlen : Z) (st : search_state) (m : key_memory) (es : option Z)
  : option block_end :=
  let key := mem_cstr m keystring_ptr in
  let '(yield, st) :=
    internal_search_find (record_probe Verbatim key st)
      handle filename key cache_rd opts in
  if search_find_defer st then Some (ReturnNull st m es)
  else
    match yield with
    | Some _ => Some (FallThrough yield st m es (partial >=? 0))
    | None =>
        if partial >=? 0
        then search_find_partial handle filename cache_rd opts partial affix
               affixlen st m es
        else Some (FallThrough yield st m es false)
    end.

(** The second half: the defaults [*@] and [*], the variables for a match
    without a wild part, and [ret=key]. *)
Definition search_find_defaults (handle : nat) (filename : option string)
    (cache_rd : bool) (opts : option string) (starflags : Z) (ret_key : bool)
    (first : block_end) : find_result :=
  match first with
  | ReturnNull st m es => return_null st m es
  | FallThrough yield st m es set_null_wild =>
      match search_find_starat handle filename cache_rd opts starflags
              yield st m es set_null_wild with
      | ReturnNull st m es => return_null st m es
      | FallThrough yield st m es set_null_wild =>
          let '(yield, st, es) :=
            search_find_star handle filename cache_rd opts starflags yield st m es in
          let '(st, es) :=
            match set_null_wild, expanding es with
            | true, Some n =>
                let fixedlength := Ustrlen (mem_cstr m keystring_ptr) in
                expand_pair n ExpKeystring 0
                  (ExpCopy (mem_copyn m keystring_ptr fixedlength)) fixedlength st
            | _, _ => (st, es)
            end in
          let yield :=
            match yield with
            | Some _ => if ret_key then Some (mem_cstr m keystring_ptr) else yield
            | None => None
            end in
          {| r_yield := yield; r_state := st; r_keystring := m_key m;
             r_expand_setup := es |}
      end
  end.

(** search_find; [None] only if the loop over the components of the key
    ran out of fuel, which it does not (theorem [search_find_returns]). *)
Definition search_find (st : search_state) (handle : nat) (filename : option string)
    (keystring : string) (partial : Z) (affix : string) (affixlen : Z)
    (starflags : Z) (expand_setup : option Z) (opts : option string)
  : option find_result :=
  let '(ret_key, cache_rd, opts) := search_find_options opts in
  let st := lru_promote st handle in
  let m := {| m_key := buffer_of keystring; m_ks2 := [] |} in
  search_find_defaults handle filename cache_rd opts starflags ret_key
    <$> search_find_first handle filename cache_rd opts partial affix affixlen
          st m expand_setup.

(** ** Runs of the dispatcher *)

(** A call of one of the three entry points, as a caller makes it. *)
Inductive op :=
| OpOpen (filename : option string) (search_type : Z) (modemask : Z)
         (owners owngroups : option (list Z))
| OpFind (handle : nat) (filename : option string) (keystring : string) (partial : Z)
         (affix : string) (affixlen : Z) (starflags : Z) (expand_setup : option Z)
         (opts : option string)
| OpTidyup.

(** The state a call leaves. *)
Definition step (st : search_state) (o : op) : search_state :=
  match o with
  | OpOpen filename search_type modemask owners owngroups =>
      (search_open st filename search_type modemask owners owngroups).2
  | OpFind handle filename keystring partial affix affixlen starflags expand_setup opts =>
      match search_find st handle filename keystring partial affix affixlen starflags
              expand_setup opts with
      | Some r => r_state r
      | None => st
      end
  | OpTidyup => search_tidyup st
  end.

Definition run (st : search_state) (ops : list op) : search_state := foldl step st ops.

(** ** What the properties below speak of *)

(** The registry holds at position [i] a driver named exactly [s] whose
    find hook is present. *)
Definition registry_match (i : nat) (s : string) : Prop :=
  ∃ lk, lookup_list !! i = Some lk ∧ lk_name lk = s ∧ is_Some (lk_find lk).

(** The registry is sorted by name in [strcmp] order, without repeats. *)
Definition registry_sorted : Prop :=
  ∀ i j a b, (i < j)%nat → lookup_list !! i = Some a → lookup_list !! j = Some b →
    Ustrcmp (lk_name a) (lk_name b) < 0.

Definition registry_cstrings : Prop :=
  ∀ i a, lookup_list !! i = Some a → cstring (lk_name a).

(** The forms of a lookup type the spec lists, for comparison with what
    search_findtype_partial does. [all_bytes P s]: every byte of [s]
    satisfies [P]. *)
Fixpoint all_bytes (P : ascii → bool) (s : string) : bool :=
  match s with
  | EmptyString => true
  | String c r => P c && all_bytes P r
  end.

(** The number a string of decimal digits denotes. *)
Fixpoint digits_value (acc : Z) (ds : string) : Z :=
  match ds with
  | EmptyString => acc
  | String c r => digits_value (acc * 10 + (code c - 48)) r
  end.

(** ["partial"] alone asks for 2 non-wild components, ["partialN"] for N. *)
Definition partial_count (ds : string) : Z :=
  match ds with
  | EmptyString => 2
  | _ => digits_value 0 ds
  end.

Definition affix_byte (c : ascii) : bool := ispunct c && negb (Ascii.eqb c ")").

(** What may follow ["partial"]: digits, then ["-"] or an affix in
    parentheses. *)
Definition partial_tail (tail : string) : Prop :=
  ∃ ds, all_bytes isdigit ds = true ∧
    ((∃ rest, tail = ds ++ "-" ++ rest) ∨
     (∃ aff rest, tail = ds ++ "(" ++ aff ++ ")" ++ rest ∧ all_bytes affix_byte aff = true)).

(** The length of the type name, and the flags stored in [*starflags], as
    the second block of search_findtype_partial computes them from [ss], what
    is left of the name after the "partial" part: the name ends at the first
    star, or at the first comma if that comes before (a comma is only looked
    for from the star on). *)
Definition type_name_len (ss : string) : Z :=
  let '(len, t) := match Ustrchr ss "*" with
                   | Some i => (Z.of_nat i, i)
                   | None => (Ustrlen ss, O)
                   end in
  match Ustrchr (string_drop t ss) "," with
  | Some j => let l := Z.of_nat (t + j) in if l <? len then l else len
  | None => len
  end.

Definition name_starflags (ss : string) : Z :=
  match Ustrchr ss "*" with
  | Some i => Z.lor 0 (if Ascii.eqb (peek (string_drop (S i) ss)) "@"
                       then SEARCH_STARAT else SEARCH_STAR)
  | None => 0
  end.

(** The partial count [pv] reaches the caller, together with the type found
    for [ss], unless that type is query-style and the name asks for partial
    matching or for a default: then, and only then, -1 is returned with the
    message for the one or the other and no count is stored. *)
Definition stores_partial (r : findtype_partial_out) (pv : Z) (ss : string) : Prop :=
  ∃ stype err,
    search_findtype ss (type_name_len ss) = Some (stype, err) ∧
    if (stype >=? 0) && mac_islookup stype lookup_querystyle
       && ((pv >=? 0)
           || negb (Z.land (name_starflags ss) (Z.lor SEARCH_STAR SEARCH_STARAT) =? 0))
    then fp_ptype r = None ∧ fp_return r = -1 ∧
         fp_error r = Some (if pv >=? 0 then partial_not_permitted_msg ss
                            else defaults_not_permitted_msg ss)
    else fp_ptype r = Some pv ∧ fp_return r = stype ∧ fp_error r = err.

(** The spec's condition for a hit of the item cache: an entry [e] for
    exactly this key, not expired, made with the same options, and the cache
    may be read. *)
Definition item_cache_hit (st : search_state) (c : search_cache) (keystring : string)
    (cache_rd : bool) (opts : option string) (e : expiring_data) : Prop :=
  c_item_cache c !! keystring = Some e ∧
  (e_expiry e = 0 ∨ e_expiry e > time (world st)) ∧
  e_opts e = opts ∧
  cache_rd = true.

(** The entry the cache write policy calls for: the payload, the options,
    and the expiry computed from the TTL at time [now]. *)
Definition cache_entry (now : Z) (ttl : Z) (opts : option string) (data : option string)
  : expiring_data :=
  {| e_expiry := if ttl =? UINT_MAX then 0 else now + ttl;
     e_opts := opts; e_data := data |}.

(** The handle [t] with another item cache. *)
Definition node_with_cache (t : tree_node) (cache : gmap string expiring_data) : tree_node :=
  {| t_name := t_name t; t_data := with_item_cache cache (t_data t) |}.

(** The memory and the state a block of search_find ends with. *)
Definition end_mem (be : block_end) : key_memory :=
  match be with
  | ReturnNull _ m _ => m
  | FallThrough _ _ m _ _ => m
  end.

Definition end_state (be : block_end) : search_state :=
  match be with
  | ReturnNull st _ _ => st
  | FallThrough _ st _ _ _ => st
  end.

(** A probe of one of the two defaults, [*@] and [*]. *)
Definition default_probe (p : attempt * string) : Prop := p.1 = StarAt ∨ p.1 = Star.

(** The LRU chain. [is_seg next s L e]: following [next] from [s] visits
    the slots [L] in order and then arrives at [e]. *)
Fixpoint is_seg (next : nat → option nat) (s : option nat) (L : list nat)
    (e : option nat) : Prop :=
  match L with
  | [] => s = e
  | i :: L' => s = Some i ∧ is_seg next (next i) L' e
  end.

Definition up_of (st : search_state) (i : nat) : option nat := cache_at st i ≫= c_up.
Definition down_of (st : search_state) (i : nat) : option nat := cache_at st i ≫= c_down.

(** The slots on the chain from [open_top] to [open_bot], most recently
    used first. *)
Definition lru_chain (st : search_state) (L : list nat) : Prop :=
  is_seg (down_of st) (open_top st) L None ∧ open_bot st = last L.

(** Slot [i] holds an open handle. *)
Definition live (st : search_state) (i : nat) : Prop :=
  ∃ c, cache_at st i = Some c ∧ is_Some (c_handle c).

(** Slot [i] holds an open handle of a driver that uses real files: the
    slots [open_filecount] counts. *)
Definition counting (st : search_state) (i : nat) : Prop :=
  ∃ n, search_tree st !! i = Some n ∧ is_Some (c_handle (t_data n)) ∧
       absfile_name (t_name n) = true.

(** A run in which search_find is only called with handles that are open. *)
Fixpoint finds_on_open (st : search_state) (ops : list op) : Prop :=
  match ops with
  | [] => True
  | o :: ops' =>
      match o with
      | OpFind handle _ _ _ _ _ _ _ _ => live st handle
      | _ => True
      end ∧ finds_on_open (step st o) ops'
  end.

(** A search_open that has to open a file of a driver that uses real files
    (the file name is not tainted and the file is not already open) and finds
    the count of open files at the maximum. *)
Definition at_cap (st : search_state) (o : op) : Prop :=
  match o with
  | OpOpen filename search_type _ _ _ =>
      ∃ lk, lookup_list_at search_type = Some lk ∧ lk_type lk = lookup_absfile ∧
            filename ≫= (λ f, if is_tainted f then Some f else None) = None ∧
            (tree_search (search_tree st) (keybuffer_of search_type filename)
               ≫= cache_at st) ≫= c_handle = None ∧
            lookup_open_max ≤ open_filecount st
  | _ => False
  end.

(** A search_open that returns NULL. *)
Definition returns_null (st : search_state) (o : op) : Prop :=
  match o with
  | OpOpen filename search_type modemask owners owngroups =>
      (search_open st filename search_type modemask owners owngroups).1 = None
  | _ => True
  end.

(** A run in which every search_open that has to open a file and finds the
    count at the maximum either finds a slot at the bottom of the chain or
    does not get the file open. *)
Fixpoint evictable (st : search_state) (ops : list op) : Prop :=
  match ops with
  | [] => True
  | o :: ops' =>
      (at_cap st o →
       (∃ b c, open_bot st = Some b ∧ cache_at st b = Some c) ∨ returns_null st o) ∧
      evictable (step st o) ops'
  end.

(** What the LRU chain and the count of open files are made of: the three
    statics and, for every slot, its name, handle and neighbours. *)
Definition link_view (n : tree_node) : string * option H * option nat * option nat :=
  (t_name n, c_handle (t_data n), c_up (t_data n), c_down (t_data n)).

Definition links (st : search_state) :=
  (open_top st, open_bot st, open_filecount st, link_view <$> search_tree st).

(** [next] with the pointer of slot [i] set to [v]. *)
Definition fn_upd (next : nat → option nat) (i : nat) (v : option nat)
  : nat → option nat :=
  λ j, if decide (j = i) then v else next j.

(** A doubly linked chain over the slots [L]: [down] leads from [top]
    through [L] to null, [up] leads from [bot] through [L] backwards to
    null, and no slot is met twice. *)
Record chain (top bot : option nat) (up down : nat → option nat) (L : list nat)
  : Prop := {
  chain_nodup : NoDup L;
  chain_down : is_seg down top L None;
  chain_up : is_seg up bot (reverse L) None
}.

(** The invariant of the dispatcher between calls. [F] is the set of slots
    that [open_filecount] counts, [L] the chain. Every slot of the chain is
    counted, and a counted slot off the chain has a null [up] pointer, as
    search_open leaves it; slot [x], if given, is exempt from the last
    condition (it is in the middle of being moved). *)
Record chain_inv_but (x : option nat) (st : search_state) (L : list nat)
    (F : gset nat) : Prop := {
  inv_counting : ∀ i, i ∈ F ↔ counting st i;
  inv_count : open_filecount st = Z.of_nat (size F);
  inv_sub : ∀ i, i ∈ L → i ∈ F;
  inv_chain : chain (open_top st) (open_bot st) (up_of st) (down_of st) L;
  inv_fresh : ∀ i, i ∈ F → i ∉ L → x ≠ Some i → up_of st i = None
}.

Definition chain_inv : search_state → list nat → gset nat → Prop :=
  chain_inv_but None.

(** What search_open knows of the slot [t] it found, or did not find, in
    the tree under the name [keybuffer] when it goes on to open the file:
    the slot holds no open handle. *)
Definition unopened (st : search_state) (t : option nat) (keybuffer : string) : Prop :=
  match t with
  | Some i => ∃ n, search_tree st !! i = Some n ∧ t_name n = keybuffer ∧
                   c_handle (t_data n) = None
  | None => True
  end.

(** ** search_args *)

(** [isspace], in the C locale: space, and tab to carriage return. *)
Definition isspace (c : ascii) : bool :=
  (code c =? 32) || ((9 <=? code c) && (code c <=? 13)).

(** [Uskip_whitespace(&s)]: [while (isspace( **sp)) ( *sp)++;] *)
Fixpoint Uskip_whitespace (s : string) : string :=
  match s with
  | String c r => if isspace c then Uskip_whitespace r else s
  | EmptyString => s
  end.

(** [while ( *query && !isspace( *query)) query++;]: the bytes passed over
    and what [query] points at afterwards. *)
Fixpoint span_nonspace (s : string) : string * string :=
  match s with
  | String c r =>
      if isspace c then (EmptyString, s)
      else let '(a, b) := span_nonspace r in (String c a, b)
  | EmptyString => (EmptyString, s)
  end.

(** search_args: the returned key or query, and what is stored in
    [*fnamep]. *)
Definition search_args (search_type : Z) (search query : string) (opts : option string)
  : string * option string :=
  let query := Uskip_whitespace query in
  if mac_islookup search_type lookup_absfilequery then
    (* query-style but with file (sqlite) *)
    match opts ≫= (λ o, list_find (λ s, Ustrncmp s "file=" 5 = 0)
                          (string_nextinlist_all o)) with
    | Some (_, s) => (query, Some (string_drop 5 s))
    | None =>
        if Ascii.eqb (peek query) "/" then
          let '(f, rest) := span_nonspace query in
          (Uskip_whitespace rest, Some f)
        else (query, None)
    end
  else if negb (mac_islookup search_type lookup_querystyle) then
    (* single-key *)
    (search, Some query)
  else (query, None).

(** No byte of [s] is white space. *)
Definition no_space (s : string) : Prop := all_bytes (λ c, negb (isspace c)) s = true.

(** The names of the slots of the tree, in arena order. *)
Definition slot_names (st : search_state) : list string := t_name <$> search_tree st.

(** Every slot of [st] is still there in [st'], under the same name and
    with the same item cache; and with the same handle, unless it is one of
    the slots [X]. *)
Definition slots_kept_but (X : list nat) (st st' : search_state) : Prop :=
  ∀ i n, search_tree st !! i = Some n →
    ∃ n', search_tree st' !! i = Some n' ∧ t_name n' = t_name n ∧
          c_item_cache (t_data n') = c_item_cache (t_data n) ∧
          (i ∉ X → c_handle (t_data n') = c_handle (t_data n)).

(** [option_list] of a pointer: the slot it points to, if any. *)
Definition slot_of (p : option nat) : list nat := option_list p.

(** The close calls that are due when the tree is given up: one for every
    slot that holds an open handle of a driver with a close function. *)
Definition close_calls (tree : list tree_node) : list hook_call :=
  flat_map (λ n, match c_handle (t_data n) with
                 | Some h =>
                     match lookup_list_at (c_search_type (t_data n)) ≫= lk_close with
                     | Some _ => [CallClose (c_search_type (t_data n)) (Some h)]
                     | None => []
                     end
                 | None => []
                 end) tree.

(** The tidy calls: one for every driver with a tidy function, in the
    order of the registry. *)
Definition tidy_calls : list hook_call :=
  flat_map (λ il : nat * lookup_info,
              match lk_tidy il.2 with Some _ => [CallTidy il.1] | None => [] end)
           (imap pair lookup_list).

(** An item of the options list that search_find keeps for itself. *)
Definition global_option (ele : string) : Prop := ele = "ret=key" ∨ ele = "cache=no_rd".

(** ** search_find: the keys of the partial lookups *)

(** The ends of a key that follow each of its dots, longest first. *)
Fixpoint after_dots (s : string) : list string :=
  match s with
  | EmptyString => []
  | String c r => if Ascii.eqb c "." then r :: after_dots r else after_dots r
  end.

(** The affix as it is looked up on its own: without its last character if
    that is a dot and the affix is longer than one character. *)
Definition chop_dot (aff : string) : string :=
  if (Ustrlen aff >? 1)
     && Ascii.eqb (peek (string_drop (Z.to_nat (Ustrlen aff - 1)) aff)) "."
  then string_take (Z.to_nat (Ustrlen aff - 1)) aff else aff.

(** The keys with leading components cut off, in the order of the
    attempts: the affix before each end of the key that follows a dot and,
    if the affix is not empty, the affix on its own; as many of them as the
    count of dots allows. *)
Definition trimmed_keys (partial : Z) (aff key : string) : list string :=
  take (Z.to_nat (count_dots key - partial + 1))
    (((λ s, aff ++ s)%string <$> after_dots key)
     ++ (if bool_decide (aff = "") then [] else [chop_dot aff])).

(** The lookups of search_find before the defaults. *)
Definition partial_keys (partial : Z) (aff key : string) : list (attempt * string) :=
  if partial <? 0 then []
  else (if bool_decide (aff = "") then [] else [(AffixWhole, (aff ++ key)%string)])
       ++ ((λ k, (AffixTrimmed, k)) <$> trimmed_keys partial aff key).

Definition first_keys (partial : Z) (aff key : string) : list (attempt * string) :=
  (Verbatim, key) :: partial_keys partial aff key.

(** The two variables set after a match of a key with leading components
    cut off, whose part after the affix is [fixed]: the wild part is the
    caller's key up to the character before [fixed], the fixed part is a copy
    of [fixed]. Nothing is set when [expand_setup] is NULL or negative. *)
Definition trimmed_vars (key fixed : string) (es : option Z) (st' : search_state)
    (es' : option Z) : Prop :=
  match expanding es with
  | Some n =>
      es' = Some (n + 2) ∧
      expand_nstring st' !! (n + 1) = Some ExpKeystring ∧
      expand_nlength st' !! (n + 1) = Some (Ustrlen key - Ustrlen fixed - 1) ∧
      expand_nstring st' !! (n + 2) = Some (ExpCopy fixed) ∧
      expand_nlength st' !! (n + 2) = Some (Ustrlen fixed)
  | None => es' = es
  end.

(** * Properties *)

(** ** Bytes and string comparison *)

Lemma code_range c : 0 ≤ code c < 256.
Proof.
  unfold code. pose proof (N_ascii_bounded c). lia.
Qed.

Lemma code_inj c1 c2 : code c1 = code c2 → c1 = c2.
Proof.
  unfold code. intros E. apply N2Z.inj in E.
  rewrite <- (ascii_N_embedding c1), <- (ascii_N_embedding c2). by rewrite E.
Qed.

Lemma code_zero c : code c = 0 → c = NUL.
Proof. intros E. apply code_inj. by rewrite E. Qed.

Lemma Ustrcmp_opp a b : Ustrcmp b a = - Ustrcmp a b.
Proof.
  revert b. induction a as [|c1 r1 IH]; intros [|c2 r2]; simpl; try lia.
  rewrite (Ascii.eqb_sym c2 c1).
  destruct (Ascii.eqb c1 c2) eqn:E; [|lia].
  apply Ascii.eqb_eq in E. subst c2.
  destruct (Ascii.eqb c1 NUL); [lia|]. apply IH.
Qed.

Lemma Ustrcmp_refl a : Ustrcmp a a = 0.
Proof. pose proof (Ustrcmp_opp a a). lia. Qed.

Lemma strncmp_nat_take a b n :
  strncmp_nat (string_take n a) b n = strncmp_nat a b n.
Proof.
  revert a b. induction n as [|n IH]; intros a b; [done|].
  destruct a as [|c1 r1], b as [|c2 r2]; simpl; try done.
  by rewrite IH.
Qed.

Lemma strncmp_nat_refl a n : strncmp_nat a a n = 0.
Proof.
  revert a. induction n as [|n IH]; intros [|c r]; simpl; try done.
  rewrite Ascii.eqb_refl. by destruct (Ascii.eqb c NUL).
Qed.

Lemma strncmp_nat_zero a b n :
  cstring b → String.length b = n → strncmp_nat a b n = 0 → string_take n a = b.
Proof.
  revert a b. induction n as [|n IH]; intros a b Hb Hl Hc.
  - destruct b; [|done]. by destruct a.
  - destruct b as [|c2 r2]; [done|]. simpl in Hb, Hl. destruct Hb as [Hc2 Hr2].
    destruct a as [|c1 r1]; simpl in Hc.
    + exfalso. apply Hc2, code_zero. lia.
    + destruct (Ascii.eqb c1 c2) eqn:E.
      * apply Ascii.eqb_eq in E. subst c2.
        destruct (Ascii.eqb c1 NUL) eqn:E0.
        { apply Ascii.eqb_eq in E0. done. }
        simpl. f_equal. apply IH; [done|lia|done].
      * apply Ascii.eqb_neq in E. exfalso. apply E, code_inj. lia.
Qed.

(** For a slice of exactly [n] bytes, [strncmp] and [strcmp] agree in sign,
    except that a slice which is a proper prefix of [b] compares equal under
    [strncmp] and smaller under [strcmp]. *)
Lemma strncmp_nat_sign s b :
  cstring s → cstring b →
  let c := strncmp_nat s b (String.length s) in
  (c > 0 → Ustrcmp s b > 0) ∧ (c < 0 → Ustrcmp s b < 0) ∧
  (c = 0 → s = b ∨ Ustrcmp s b < 0).
Proof.
  revert b. induction s as [|c1 r1 IH]; intros b Hs Hb; simpl.
  - destruct b as [|c2 r2]; simpl; repeat split; try lia; [by left|].
    intros _. right. destruct Hb as [Hc2 _].
    pose proof (code_range c2). assert (code c2 ≠ 0) by (intros E; by apply Hc2, code_zero).
    lia.
  - destruct Hs as [Hc1 Hr1]. destruct b as [|c2 r2]; simpl.
    + pose proof (code_range c1).
      assert (code c1 ≠ 0) by (intros E; by apply Hc1, code_zero).
      repeat split; lia.
    + destruct Hb as [Hc2 Hr2]. destruct (Ascii.eqb c1 c2) eqn:E.
      * apply Ascii.eqb_eq in E. subst c2.
        destruct (Ascii.eqb c1 NUL) eqn:E0.
        { apply Ascii.eqb_eq in E0. done. }
        destruct (IH r2 Hr1 Hr2) as (IH1 & IH2 & IH3).
        repeat split; try done.
        intros Hz. destruct (IH3 Hz) as [->|?]; [by left|by right].
      * apply Ascii.eqb_neq in E.
        assert (code c1 ≠ code c2) by (intros E'; by apply E, code_inj).
        repeat split; try lia.
Qed.

Lemma string_take_all s : string_take (String.length s) s = s.
Proof. induction s as [|c r IH]; simpl; [done|by rewrite IH]. Qed.

Lemma string_take_length n s :
  (n ≤ String.length s)%nat → String.length (string_take n s) = n.
Proof.
  revert s. induction n as [|n IH]; intros [|c r] Hn; simpl in *; try done; try lia.
  rewrite IH; lia.
Qed.

(** ** search_findtype: the binary chop *)

Lemma quot2_between bot top :
  0 ≤ bot → bot < top → bot ≤ Z.quot (top + bot) 2 < top.
Proof.
  intros Hb Ht. rewrite Z.quot_div_nonneg by lia.
  split; [apply Z.div_le_lower_bound | apply Z.div_lt_upper_bound]; lia.
Qed.

Lemma search_findtype_loop_total fuel name len bot top :
  0 ≤ bot → top ≤ lookup_list_count → top - bot ≤ Z.of_nat fuel →
  is_Some (search_findtype_loop fuel name len bot top).
Proof.
  revert bot top. induction fuel as [|fuel IH]; intros bot top Hb Ht Hf; simpl.
  - destruct (top >? bot) eqn:E; [lia | eauto].
  - destruct (top >? bot) eqn:E; [|eauto].
    pose proof (quot2_between bot top Hb ltac:(lia)) as Hm.
    destruct (lookup_lt_is_Some_2 lookup_list (Z.to_nat (Z.quot (top + bot) 2)))
      as [lk ->]; [unfold lookup_list_count in Ht; lia|].
    destruct (_ && _); [destruct (lk_find lk); eauto|].
    destruct (_ >? 0); apply IH; lia.
Qed.

Lemma search_findtype_loop_sound fuel name len bot top r m :
  0 ≤ bot → search_findtype_loop fuel name len bot top = Some (r, m) →
  r = -1 ∨ (0 ≤ r ∧ ∃ lk, lookup_list !! Z.to_nat r = Some lk ∧
              Ustrncmp name (lk_name lk) len = 0 ∧ Ustrlen (lk_name lk) = len ∧
              is_Some (lk_find lk)).
Proof.
  revert bot top. induction fuel as [|fuel IH]; intros bot top Hb; simpl.
  - destruct (top >? bot); [done|]. intros [= <- _]. by left.
  - destruct (top >? bot) eqn:E; [|intros [= <- _]; by left].
    pose proof (quot2_between bot top Hb ltac:(lia)) as Hm.
    destruct (lookup_list !! Z.to_nat (Z.quot (top + bot) 2)) as [lk|] eqn:Hlk; [|done].
    destruct (_ && _) eqn:Hc.
    + apply andb_true_iff in Hc as [Hc Hl].
      destruct (lk_find lk) eqn:Hf; intros [= <- <-]; [right|by left].
      split; [lia|]. exists lk. rewrite Hf. repeat split; [done|lia|lia|eauto].
    + destruct (_ >? 0); apply IH; lia.
Qed.

Lemma search_findtype_loop_complete fuel name len bot top k lk res :
  registry_sorted → registry_cstrings → 0 ≤ len ≤ Ustrlen name →
  lookup_list !! k = Some lk → lk_name lk = string_take (Z.to_nat len) name →
  0 ≤ bot ≤ Z.of_nat k → Z.of_nat k < top → top ≤ lookup_list_count →
  search_findtype_loop fuel name len bot top = Some res →
  res = match lk_find lk with
        | Some _ => (Z.of_nat k, None)
        | None => (-1, Some (not_available_msg name len))
        end.
Proof.
  intros Hsort Hcs Hlen Hk Hname. revert bot top.
  assert (cstring (lk_name lk)) as Hs by eauto.
  assert (String.length (lk_name lk) = Z.to_nat len) as Hsl.
  { rewrite Hname. apply string_take_length. unfold Ustrlen in Hlen. lia. }
  induction fuel as [|fuel IH]; intros bot top Hb Ht Htc; simpl;
    (destruct (top >? bot) eqn:E; [|lia]); [done|].
  pose proof (quot2_between bot top ltac:(lia) ltac:(lia)) as Hm.
  set (mid := Z.quot (top + bot) 2) in *.
  destruct (lookup_list !! Z.to_nat mid) as [lkm|] eqn:Hlkm; [|done].
  assert (cstring (lk_name lkm)) as Hsm by eauto.
  assert (Ustrncmp name (lk_name lkm) len
          = strncmp_nat (lk_name lk) (lk_name lkm) (String.length (lk_name lk))) as Hc.
  { unfold Ustrncmp. destruct (len <? 0) eqn:E0; [lia|].
    by rewrite Hsl, Hname, strncmp_nat_take. }
  rewrite Hc. clear Hc.
  destruct (strncmp_nat_sign (lk_name lk) (lk_name lkm) Hs Hsm) as (Hgt & Hlt & Heq).
  set (c := strncmp_nat _ _ _) in *.
  (* the three positions of [k] with respect to [mid] *)
  assert ((k < Z.to_nat mid)%nat → Ustrcmp (lk_name lk) (lk_name lkm) < 0) as Hbelow
    by (intros ?; eapply Hsort; eauto).
  assert ((Z.to_nat mid < k)%nat → Ustrcmp (lk_name lk) (lk_name lkm) > 0) as Habove.
  { intros ?. rewrite (Ustrcmp_opp (lk_name lkm)).
    assert (Ustrcmp (lk_name lkm) (lk_name lk) < 0) by (eapply Hsort; eauto). lia. }
  assert (k = Z.to_nat mid → lkm = lk) as Hsame by (intros ->; congruence).
  destruct ((c =? 0) && (Ustrlen (lk_name lkm) =? len)) eqn:Hexact.
  - apply andb_true_iff in Hexact as [Hc0 Hl0].
    assert (lk_name lk = lk_name lkm) as Hnn.
    { rewrite <- (string_take_all (lk_name lk)).
      apply strncmp_nat_zero; [done|unfold Ustrlen in Hl0; lia|fold c; lia]. }
    assert (k = Z.to_nat mid) as Hkm.
    { pose proof (Ustrcmp_refl (lk_name lkm)). rewrite <- Hnn in H0 at 1.
      destruct (lt_eq_lt_dec k (Z.to_nat mid)) as [[?|?]|?]; [|done|].
      - specialize (Hbelow ltac:(done)). lia.
      - specialize (Habove ltac:(done)). lia. }
    rewrite (Hsame Hkm). destruct (lk_find lk); intros [= <-]; [f_equal; lia|done].
  - apply andb_false_iff in Hexact.
    destruct (c >? 0) eqn:Hpos.
    + apply IH; [|lia|lia].
      destruct (lt_eq_lt_dec k (Z.to_nat mid)) as [[?|Hkm]|?]; [| |lia].
      * specialize (Hbelow ltac:(done)). specialize (Hgt ltac:(lia)). lia.
      * rewrite (Hsame Hkm), Ustrcmp_refl in Hgt. lia.
    + apply IH; [lia| |lia].
      destruct (lt_eq_lt_dec k (Z.to_nat mid)) as [[?|Hkm]|?]; [lia| |].
      * exfalso. specialize (Hsame Hkm). subst lkm.
        unfold c in Hexact. rewrite strncmp_nat_refl in Hexact.
        unfold Ustrlen in Hexact. destruct Hexact; lia.
      * specialize (Habove ltac:(done)).
        destruct (Z.lt_total c 0) as [?|[Hz|?]]; [| |lia].
        -- specialize (Hlt ltac:(done)). lia.
        -- destruct (Heq Hz) as [Hnn|?]; [|lia].
           rewrite Hnn, Ustrcmp_refl in Habove. lia.
Qed.

(** C4. For every slice [(name, len)], search_findtype returns (the loop
    ends) a non-negative index [i] if and only if the registry, sorted by
    name, holds at position [i] a driver whose name is exactly the slice, same
    bytes and same length, and whose find hook is present; otherwise it
    returns -1. A registered name that only starts with the slice, or that the
    slice only starts with, is therefore never the answer. *)
Theorem search_findtype_exact (name : string) (len : Z) :
  registry_sorted → registry_cstrings → 0 ≤ len ≤ Ustrlen name →
  ∃ r msg, search_findtype name len = Some (r, msg) ∧
    (∀ i : nat, r = Z.of_nat i ↔ registry_match i (string_take (Z.to_nat len) name)) ∧
    (0 ≤ r ∨ r = -1).
Proof.
  intros Hsort Hcs Hlen. unfold search_findtype.
  destruct (search_findtype_loop_total (length lookup_list) name len 0 lookup_list_count)
    as [[r msg] Hr]; [lia|lia|unfold lookup_list_count; lia|].
  exists r, msg. split; [done|].
  pose proof (search_findtype_loop_sound _ _ _ 0 _ _ _ ltac:(lia) Hr) as Hs.
  split; [|destruct Hs as [?|[? _]]; lia].
  intros i. split.
  - intros ->. destruct Hs as [?|[_ (lk & Hlk & Hc & Hl & Hf)]]; [lia|].
    rewrite Nat2Z.id in Hlk. exists lk. split; [done|]. split; [|done].
    symmetry. apply strncmp_nat_zero; [by eapply Hcs|unfold Ustrlen in Hl; lia|].
    unfold Ustrncmp in Hc. destruct (len <? 0) eqn:E; [lia|done].
  - intros (lk & Hlk & Hn & [f Hf]).
    pose proof (lookup_lt_Some _ _ _ Hlk) as Hi.
    assert (Z.of_nat i < lookup_list_count) as Hi' by (unfold lookup_list_count; lia).
    pose proof (search_findtype_loop_complete _ _ _ 0 _ _ _ _ Hsort Hcs Hlen Hlk Hn
                  ltac:(lia) Hi' ltac:(lia) Hr) as Hres.
    rewrite Hf in Hres. by injection Hres.
Qed.

(** ** search_findtype_partial *)

Lemma wrap_int_small z : 0 ≤ z ≤ INT_MAX → wrap_int z = z.
Proof.
  unfold wrap_int, INT_MAX. intros Hz.
  rewrite Z.mod_small; lia.
Qed.

Lemma isdigit_code c : isdigit c = true → 0 ≤ code c - 48 ≤ 9.
Proof. unfold isdigit. intros Hd. apply andb_true_iff in Hd. lia. Qed.

Lemma digits_value_ge acc ds :
  all_bytes isdigit ds = true → 0 ≤ acc → acc ≤ digits_value acc ds.
Proof.
  revert acc. induction ds as [|c r IH]; intros acc Hd Ha; simpl in *; [lia|].
  apply andb_true_iff in Hd as [Hc Hr]. apply isdigit_code in Hc.
  specialize (IH (acc * 10 + (code c - 48)) Hr ltac:(lia)). lia.
Qed.

(** The digit loop stops at the first byte that is no digit, whatever the
    number; it computes the number when that fits an [int]. *)
Lemma scan_digits_rest acc ds tail :
  all_bytes isdigit ds = true → isdigit (peek tail) = false →
  (scan_digits acc (ds ++ tail)).2 = tail.
Proof.
  revert acc. induction ds as [|c r IH]; intros acc Hd Ht; simpl in *.
  - destruct tail as [|c t]; [done|]. simpl in Ht. simpl. by rewrite Ht.
  - apply andb_true_iff in Hd as [Hc Hr]. rewrite Hc. by apply IH.
Qed.

Lemma scan_digits_value acc ds tail :
  all_bytes isdigit ds = true → isdigit (peek tail) = false → 0 ≤ acc →
  digits_value acc ds ≤ INT_MAX →
  (scan_digits acc (ds ++ tail)).1 = digits_value acc ds.
Proof.
  revert acc. induction ds as [|c r IH]; intros acc Hd Ht Ha Hle; simpl in *.
  - destruct tail as [|c t]; [done|]. simpl in Ht. simpl. by rewrite Ht.
  - apply andb_true_iff in Hd as [Hc Hr]. rewrite Hc.
    pose proof (isdigit_code c Hc) as Hcc.
    pose proof (digits_value_ge (acc * 10 + (code c - 48)) r Hr ltac:(lia)).
    replace (acc * 10 + code c - 48) with (acc * 10 + (code c - 48)) by lia.
    rewrite wrap_int_small by lia.
    apply IH; [done|done|lia|done].
Qed.

Lemma scan_digits_app acc ds tail :
  all_bytes isdigit ds = true → isdigit (peek tail) = false → 0 ≤ acc →
  ∃ pv, scan_digits acc (ds ++ tail) = (pv, tail) ∧
        (digits_value acc ds ≤ INT_MAX → pv = digits_value acc ds).
Proof.
  intros Hd Ht Ha.
  pose proof (scan_digits_rest acc ds tail Hd Ht) as Hr.
  pose proof (scan_digits_value acc ds tail Hd Ht Ha) as Hv.
  destruct (scan_digits acc (ds ++ tail)) as [pv tl]. simpl in *. subst tl.
  exists pv. split; [done|]. intros Hle. by apply Hv.
Qed.

Lemma scan_affix_app aff tail :
  all_bytes affix_byte aff = true → affix_byte (peek tail) = false →
  scan_affix (aff ++ tail) = (String.length aff, tail).
Proof.
  intros Ha Ht. induction aff as [|c r IH]; simpl in *.
  - destruct tail as [|c t]; [done|]. simpl in Ht. unfold affix_byte in Ht.
    simpl. by rewrite Ht.
  - apply andb_true_iff in Ha as [Hc Hr]. unfold affix_byte in Hc. rewrite Hc.
    by rewrite (IH Hr).
Qed.

Lemma partial_prefix_iff name :
  Ustrncmp name "partial" 7 = 0 ↔ ∃ tail, name = "partial" ++ tail.
Proof.
  split.
  - intros Hc. exists (string_drop 7 name).
    assert (string_take 7 name = "partial") as Ht.
    { apply strncmp_nat_zero; [|done|done]. simpl. repeat split; discriminate. }
    do 7 (destruct name as [|? name]; [done|]).
    simpl in Ht. by injection Ht as -> -> -> -> -> -> ->.
  - intros [tail ->]. simpl. done.
Qed.

Lemma all_bytes_peek P c r : all_bytes P (String c r) = true → P c = true.
Proof. simpl. intros Hp. by apply andb_true_iff in Hp as [? _]. Qed.

(** The first block on a name of the form ["partial" digits "-" ...]. *)
Lemma parse_partial_prefix_dash ds rest :
  all_bytes isdigit ds = true →
  ∃ pv, parse_partial_prefix ("partial" ++ ds ++ "-" ++ rest)
        = PrefixOk pv (Some "*.") (Some 2) rest ∧
        (digits_value 0 ds ≤ INT_MAX → pv = partial_count ds).
Proof.
  intros Hd. unfold parse_partial_prefix.
  replace (Ustrncmp _ "partial" 7 =? 0) with true by done.
  replace (string_drop 7 _) with (ds ++ "-" ++ rest) by done.
  destruct ds as [|c r].
  - exists 2. by simpl.
  - replace (isdigit (peek (String c r ++ "-" ++ rest))) with true
      by (symmetry; by eapply all_bytes_peek).
    destruct (scan_digits_app 0 (String c r) ("-" ++ rest) Hd) as (pv & -> & Hpv);
      [done|done|].
    exists pv. by simpl.
Qed.

(** The first block on a name of the form ["partial" digits "(" affix ")" ...]. *)
Lemma parse_partial_prefix_paren ds aff rest :
  all_bytes isdigit ds = true → all_bytes affix_byte aff = true →
  ∃ pv, parse_partial_prefix ("partial" ++ ds ++ "(" ++ aff ++ ")" ++ rest)
        = PrefixOk pv (Some (aff ++ ")" ++ rest)) (Some (Ustrlen aff)) rest ∧
        (digits_value 0 ds ≤ INT_MAX → pv = partial_count ds).
Proof.
  intros Hd Ha. unfold parse_partial_prefix.
  replace (Ustrncmp _ "partial" 7 =? 0) with true by done.
  replace (string_drop 7 _) with (ds ++ "(" ++ aff ++ ")" ++ rest) by done.
  assert (∀ pv, (let ss := "(" ++ aff ++ ")" ++ rest in
            if Ascii.eqb (peek ss) "(" then
              let aff0 := string_drop 1 ss in
              let '(n, ss0) := scan_affix aff0 in
              if negb (Ascii.eqb (peek ss0) ")") then PrefixBad (Some aff0)
              else PrefixOk pv (Some aff0) (Some (Z.of_nat n)) (string_drop 1 ss0)
            else if Ascii.eqb (peek ss) "-" then
              PrefixOk pv (Some "*.") (Some 2) (string_drop 1 ss)
            else PrefixBad None)
          = PrefixOk pv (Some (aff ++ ")" ++ rest)) (Some (Ustrlen aff)) rest) as Hparen.
  { intros pv. simpl. change ("" ++ aff ++ ")" ++ rest) with (aff ++ ")" ++ rest).
    by rewrite (scan_affix_app aff (")" ++ rest) Ha). }
  destruct ds as [|c r].
  - exists 2. split; [|done]. apply (Hparen 2).
  - replace (isdigit (peek (String c r ++ "(" ++ aff ++ ")" ++ rest))) with true
      by (symmetry; by eapply all_bytes_peek).
    destruct (scan_digits_app 0 (String c r) ("(" ++ aff ++ ")" ++ rest) Hd)
      as (pv & -> & Hpv); [done|done|].
    exists pv. split; [apply (Hparen pv)|done].
Qed.

Lemma search_findtype_total name len : is_Some (search_findtype name len).
Proof.
  unfold search_findtype.
  apply search_findtype_loop_total; unfold lookup_list_count; lia.
Qed.

(** After the first block: the affix and its length are what the block
    left, and the count is stored unless a query-style type is refused. *)
Lemma search_findtype_partial_ok name pv ptypeaff afflen ss :
  parse_partial_prefix name = PrefixOk pv ptypeaff afflen ss →
  ∃ r, search_findtype_partial name = Some r ∧
       fp_ptypeaff r = ptypeaff ∧ fp_afflen r = afflen ∧ stores_partial r pv ss.
Proof.
  intros Hp. unfold search_findtype_partial, stores_partial, type_name_len, name_starflags.
  rewrite Hp.
  destruct (Ustrchr ss "*") as [i|];
    (destruct (Ustrchr (string_drop _ ss) ",") as [j|]);
    cbv zeta beta iota;
    match goal with
    | |- context [search_findtype ss ?len] =>
        destruct (search_findtype_total ss len) as [[stype err] Hf]; rewrite Hf
    end;
    (destruct ((stype >=? 0) && mac_islookup stype lookup_querystyle) eqn:Hq;
     [destruct (pv >=? 0) eqn:Hpv; [|destruct (negb _) eqn:Hfl]|]);
    eexists; (split; [done|]); cbn [fp_ptypeaff fp_afflen fp_ptype fp_return fp_error];
    (split; [done|]); (split; [done|]); exists stype, err; (split; [done|]);
    rewrite ?Hq, ?Hpv, ?Hfl; cbn [andb orb]; done.
Qed.

Lemma append_cons c a b : String c a ++ b = String c (a ++ b).
Proof. reflexivity. Qed.

Lemma scan_digits_split acc ss :
  ∃ ds, all_bytes isdigit ds = true ∧ ss = ds ++ (scan_digits acc ss).2.
Proof.
  revert acc. induction ss as [|c r IH]; intros acc; simpl.
  - by exists "".
  - destruct (isdigit c) eqn:Hc; [|by exists ""].
    destruct (IH (wrap_int (acc * 10 + code c - 48))) as (ds & Hd & Hr).
    exists (String c ds). split; [simpl; by rewrite Hc, Hd|].
    rewrite append_cons. by f_equal.
Qed.

Lemma scan_affix_split ss :
  ∃ aff, all_bytes affix_byte aff = true ∧ ss = aff ++ (scan_affix ss).2.
Proof.
  induction ss as [|c r IH]; simpl.
  - by exists "".
  - destruct (ispunct c && negb (Ascii.eqb c ")")) eqn:Hc; [|by exists ""].
    destruct IH as (aff & Ha & Hr). destruct (scan_affix r) as [n ss'] eqn:Hs.
    exists (String c aff). simpl in *. unfold affix_byte at 1. rewrite Hc, Ha.
    split; [done|]. rewrite append_cons. by f_equal.
Qed.

Lemma peek_byte s c : Ascii.eqb (peek s) c = true → c ≠ NUL → ∃ r, s = String c r.
Proof.
  destruct s as [|c' r]; unfold peek; intros He Hc.
  - apply Ascii.eqb_eq in He. by subst c.
  - apply Ascii.eqb_eq in He. subst c'. by exists r.
Qed.

(** A name on which the first block does not jump to BAD_TYPE has one of
    the two forms. *)
Lemma parse_partial_prefix_tail tail pv ptypeaff afflen ss :
  parse_partial_prefix ("partial" ++ tail) = PrefixOk pv ptypeaff afflen ss →
  partial_tail tail.
Proof.
  unfold parse_partial_prefix.
  replace (Ustrncmp _ "partial" 7 =? 0) with true by done.
  replace (string_drop 7 _) with tail by done.
  assert (∃ ds pv' ss', all_bytes isdigit ds = true ∧ tail = ds ++ ss' ∧
            (if isdigit (peek tail) then scan_digits 0 tail else (2, tail)) = (pv', ss'))
    as (ds & pv' & ss' & Hd & Htail & ->).
  { destruct (isdigit (peek tail)).
    - destruct (scan_digits_split 0 tail) as (ds & Hd & Hr).
      destruct (scan_digits 0 tail) as [pv' ss'] eqn:Hs. by exists ds, pv', ss'.
    - by exists "", 2, tail. }
  destruct (Ascii.eqb (peek ss') "(") eqn:Hparen.
  - apply peek_byte in Hparen as [aff0 ->]; [|done].
    change (string_drop 1 (String "(" aff0)) with aff0.
    destruct (scan_affix_split aff0) as (aff & Ha & Haff).
    destruct (scan_affix aff0) as [n ss0] eqn:Hs. simpl in Haff.
    destruct (Ascii.eqb (peek ss0) ")") eqn:Hclose; [|done].
    apply peek_byte in Hclose as [rest ->]; [|done].
    intros _. exists ds. split; [done|]. right. exists aff, rest.
    split; [|done]. by rewrite Htail, Haff.
  - destruct (Ascii.eqb (peek ss') "-") eqn:Hdash; [|done].
    apply peek_byte in Hdash as [rest ->]; [|done].
    intros _. exists ds. split; [done|]. left. by exists rest.
Qed.

(** C8, as the code has it. search_findtype_partial returns (its search of
    the registry ends) and, on a name of each form:
    - ["partial"], digits, ["-"]: the affix is the literal ["*."] of length 2;
    - ["partial"], digits, ["("] affix [")"], the affix made of punctuation
      other than [")"]: the affix is the pointer to it inside the name, with
      its length;
    in both the partial count is 2 without digits and the number N the digits
    denote otherwise, for N that fits an [int];
    - a name that does not start with ["partial"]: the partial count is -1
      and no affix is set;
    - anything else after ["partial"]: -1 is returned, with the message
      "format error in lookup type".
    The partial count is stored for the caller, and the type found for the
    rest of the name is returned, unless that type is query-style and the name
    asks for partial matching or for a default with a star: exactly then -1 is
    returned with the "not permitted" message and no count is stored. *)
Theorem search_findtype_partial_forms (name : string) :
  ∃ r, search_findtype_partial name = Some r ∧
    (∀ ds rest, name = "partial" ++ ds ++ "-" ++ rest →
       all_bytes isdigit ds = true → digits_value 0 ds ≤ INT_MAX →
       fp_ptypeaff r = Some "*." ∧ fp_afflen r = Some 2 ∧
       stores_partial r (partial_count ds) rest) ∧
    (∀ ds aff rest, name = "partial" ++ ds ++ "(" ++ aff ++ ")" ++ rest →
       all_bytes isdigit ds = true → digits_value 0 ds ≤ INT_MAX →
       all_bytes affix_byte aff = true →
       fp_ptypeaff r = Some (aff ++ ")" ++ rest) ∧ fp_afflen r = Some (Ustrlen aff) ∧
       stores_partial r (partial_count ds) rest) ∧
    ((∀ tail, name ≠ "partial" ++ tail) →
       fp_ptypeaff r = None ∧ fp_afflen r = None ∧ stores_partial r (-1) name) ∧
    (∀ tail, name = "partial" ++ tail → ¬ partial_tail tail →
       fp_return r = -1 ∧ fp_error r = Some (format_error_msg name) ∧
       fp_ptype r = None).
Proof.
  destruct (parse_partial_prefix name) as [a|pv a l ss] eqn:Hp.
  - (* BAD_TYPE *)
    eexists. split; [unfold search_findtype_partial; by rewrite Hp|].
    split; [|split; [|split]].
    + intros ds rest -> Hd Hle. exfalso.
      destruct (parse_partial_prefix_dash ds rest Hd) as (? & Hp' & _). congruence.
    + intros ds aff rest -> Hd Hle Haff. exfalso.
      destruct (parse_partial_prefix_paren ds aff rest Hd Haff) as (? & Hp' & _).
      congruence.
    + intros Hno. exfalso. unfold parse_partial_prefix in Hp.
      destruct (Ustrncmp name "partial" 7 =? 0) eqn:E; [|done].
      apply Z.eqb_eq, partial_prefix_iff in E as [tail ->]. by eapply Hno.
    + intros tail -> Hno. done.
  - destruct (search_findtype_partial_ok name pv a l ss Hp) as (r & Hr & Ha & Hl & Hs).
    exists r. split; [done|]. split; [|split; [|split]].
    + intros ds rest -> Hd Hle.
      destruct (parse_partial_prefix_dash ds rest Hd) as (pv' & Hp' & Hpv).
      rewrite Hp' in Hp. injection Hp as -> <- <- <-. rewrite <- (Hpv Hle). done.
    + intros ds aff rest -> Hd Hle Haff.
      destruct (parse_partial_prefix_paren ds aff rest Hd Haff) as (pv' & Hp' & Hpv).
      rewrite Hp' in Hp. injection Hp as -> <- <- <-. rewrite <- (Hpv Hle). done.
    + intros Hno. unfold parse_partial_prefix in Hp.
      destruct (Ustrncmp name "partial" 7 =? 0) eqn:E.
      * apply Z.eqb_eq, partial_prefix_iff in E as [tail ->]. by destruct (Hno tail).
      * injection Hp as <- <- <- <-. done.
    + intros tail -> Hno. destruct Hno. by eapply parse_partial_prefix_tail.
Qed.

(** ** internal_search_find *)

Lemma opts_match_eq opts o : opts_match opts o = true ↔ o = opts.
Proof.
  destruct opts as [a|], o as [b|]; simpl; try (split; congruence).
  rewrite String.eqb_eq. split; congruence.
Qed.

(** The test of the item cache in internal_search_find is the spec's
    condition. *)
Lemma item_cache_hit_test st c keystring cache_rd opts :
  match c_item_cache c !! keystring with
  | Some e => ((e_expiry e =? 0) || (e_expiry e >? time (world st)))
              && opts_match opts (e_opts e) && cache_rd
  | None => false
  end = true ↔ ∃ e, item_cache_hit st c keystring cache_rd opts e.
Proof.
  unfold item_cache_hit. destruct (c_item_cache c !! keystring) as [e|].
  - rewrite !andb_true_iff, orb_true_iff, opts_match_eq, Z.eqb_eq. split.
    + intros [[He Ho] Hc]. exists e. repeat split; try done. lia.
    + intros (e' & [= <-] & He & Ho & Hc). repeat split; try done. lia.
  - split; [done|]. by intros (e & ? & _).
Qed.

Lemma peek_nonempty keystring :
  keystring ≠ "" → cstring keystring → Ascii.eqb (peek keystring) NUL = false.
Proof.
  destruct keystring as [|c r]; [done|]. intros _ [Hc _]. by apply Ascii.eqb_neq.
Qed.

Lemma alter_found {A} (f : A → A) (l : list A) (i : nat) (x : A) :
  l !! i = Some x → alter f i l = <[i := f x]> l.
Proof.
  intros Hx. apply list_eq. intros j. destruct (decide (j = i)) as [->|Hne].
  - rewrite list_lookup_alter_eq, Hx, list_lookup_insert_eq; [done|].
    by eapply lookup_lt_Some.
  - by rewrite list_lookup_alter_ne, list_lookup_insert_ne.
Qed.

Section InternalFind.

Variables (st : search_state) (handle : nat) (filename : option string)
  (keystring : string) (cache_rd : bool) (opts : option string).
Variables (t : tree_node) (lk : lookup_info).
Variable find : option H → option string → string → Z → option string → W → find_out * W.

Hypothesis Hnode : search_tree st !! handle = Some t.
Hypothesis Hdriver : lookup_list_at (code (peek (t_name t)) - 48) = Some lk.
Hypothesis Hfind : lk_find lk = Some find.
Hypothesis Hkey : keystring ≠ "".
Hypothesis Hcstring : cstring keystring.

(** The call of the find hook that a miss makes. *)
Definition the_find_call : hook_call :=
  CallFind (code (peek (t_name t)) - 48) (c_handle (t_data t)) filename keystring opts.

Lemma internal_search_find_on_hit e :
  item_cache_hit st (t_data t) keystring cache_rd opts e →
  internal_search_find st handle filename keystring cache_rd opts
  = (e_data e, set_search_find_defer false (set_search_error_message "" st)).
Proof.
  intros He. unfold internal_search_find.
  rewrite Hnode, Hdriver, (peek_nonempty _ Hkey Hcstring).
  pose proof (proj2 (item_cache_hit_test
    (set_search_find_defer false (set_search_error_message "" st))
    (t_data t) keystring cache_rd opts) (ex_intro _ e He)) as Ht.
  rewrite Ht. destruct He as (-> & _). done.
Qed.

(** On a miss the hook is called, once, and the result is what it left;
    the state is described field by field in the lemmas that follow. *)
Lemma internal_search_find_on_miss out w :
  (¬ ∃ e, item_cache_hit st (t_data t) keystring cache_rd opts e) →
  find (c_handle (t_data t)) filename keystring (Ustrlen keystring) opts (world st)
    = (out, w) →
  ∃ st', internal_search_find st handle filename keystring cache_rd opts
         = (fo_result out, st') ∧
    hook_calls st' = (hook_calls st ++ [the_find_call])%list ∧
    world st' = w ∧
    search_find_defer st' = bool_decide (fo_rc out = DEFER) ∧
    search_tree st' =
      (if bool_decide (fo_rc out = DEFER) then search_tree st
       else if bool_decide (fo_do_cache out = 0)
            then <[handle := node_with_cache t ∅]> (search_tree st)
            else <[handle := node_with_cache t
                     (<[keystring := cache_entry (time w) (fo_do_cache out) opts
                                       (fo_result out)]>
                        (c_item_cache (t_data t)))]> (search_tree st)).
Proof.
  intros Hmiss Hout. unfold internal_search_find.
  rewrite Hnode, Hdriver, (peek_nonempty _ Hkey Hcstring).
  pose proof (item_cache_hit_test
    (set_search_find_defer false (set_search_error_message "" st))
    (t_data t) keystring cache_rd opts) as Ht.
  destruct (match c_item_cache (t_data t) !! keystring with Some _ => _ | None => _ end)
    eqn:Hhit; [destruct Hmiss; by apply Ht|]. clear Ht Hhit.
  rewrite Hfind.
  destruct (negb (bool_decide (is_Some filename)) && lk_quote lk && is_tainted keystring
            && negb (is_quoted_like keystring (code (peek (t_name t)) - 48)));
    simpl; rewrite Hout; simpl; eexists; (split; [done|]);
    (destruct (fo_rc out =? DEFER) eqn:Hrc;
     [apply Z.eqb_eq in Hrc; rewrite (bool_decide_eq_true_2 _ Hrc)
     |apply Z.eqb_neq in Hrc; rewrite (bool_decide_eq_false_2 _ Hrc);
      destruct (fo_do_cache out =? 0) eqn:Httl;
      [apply Z.eqb_eq in Httl; rewrite (bool_decide_eq_true_2 _ Httl)
      |apply Z.eqb_neq in Httl; rewrite (bool_decide_eq_false_2 _ Httl)]]);
    simpl; repeat split; try done;
    by rewrite (alter_found _ _ _ _ Hnode).
Qed.

(** C1. A call of internal_search_find with a non-empty key, on a handle
    whose driver has a find hook, returns the cached payload without calling
    the hook if and only if the item cache holds an entry for exactly this
    key, whose expiry is 0 or later than the current time, whose options are
    the forwarded ones (both absent or both present and equal), and cache
    reading is permitted; whenever one of these fails the hook is called.
    Without the call nothing changes but the error message and the defer
    flag, which are cleared. With the call, what is returned is what the hook
    left for this handle, file name, key, length and options in the world as
    it was, and the world is the one the hook left. *)
Theorem internal_search_find_hit_iff :
  let '(data, st') := internal_search_find st handle filename keystring cache_rd opts in
  let out := find (c_handle (t_data t)) filename keystring (Ustrlen keystring) opts
               (world st) in
  ((∃ e, item_cache_hit st (t_data t) keystring cache_rd opts e)
     ↔ hook_calls st' = hook_calls st) ∧
  (∀ e, item_cache_hit st (t_data t) keystring cache_rd opts e →
     data = e_data e ∧
     st' = set_search_find_defer false (set_search_error_message "" st)) ∧
  ((¬ ∃ e, item_cache_hit st (t_data t) keystring cache_rd opts e) →
     hook_calls st' = (hook_calls st ++ [the_find_call])%list ∧
     data = fo_result out.1 ∧ world st' = out.2).
Proof.
  pose proof (item_cache_hit_test st (t_data t) keystring cache_rd opts) as Htest.
  destruct (match c_item_cache (t_data t) !! keystring with Some _ => _ | None => _ end).
  - destruct (proj1 Htest eq_refl) as [e He].
    rewrite (internal_search_find_on_hit e He). cbv zeta.
    split; [split; [done|by eauto]|]. split.
    + intros e' He'. split; [|done]. destruct He as [He _], He' as [He' _]. congruence.
    + intros Hno. destruct Hno. eauto.
  - assert (¬ ∃ e, item_cache_hit st (t_data t) keystring cache_rd opts e) as Hmiss.
    { intros He. apply Htest in He. done. }
    destruct (find (c_handle (t_data t)) filename keystring (Ustrlen keystring) opts
                (world st)) as [out w] eqn:Hout.
    destruct (internal_search_find_on_miss out w Hmiss Hout)
      as (st' & -> & Hcalls & Hw & _).
    cbv zeta. split; [split; [done|]|split; [|done]].
    + intros Heq. rewrite Hcalls in Heq. apply (f_equal length) in Heq.
      rewrite length_app in Heq. simpl in Heq. lia.
    + intros e He. destruct Hmiss. eauto.
Qed.

(** C3. When the find hook is called and returns anything but DEFER (OK or
    FAIL): if it leaves a non-zero TTL, the entry of the item cache for the
    queried key is installed or replaced, with the payload the hook left
    (possibly none), the forwarded options, and expiry 0 for the largest
    unsigned TTL and now + TTL otherwise; if it leaves TTL 0, the item cache
    of the handle is emptied, the handle staying open as it was. Nothing else
    in the cache of open files changes. *)
Theorem internal_search_find_cache_write (out : find_out) (w : W) :
  (¬ ∃ e, item_cache_hit st (t_data t) keystring cache_rd opts e) →
  find (c_handle (t_data t)) filename keystring (Ustrlen keystring) opts (world st)
    = (out, w) →
  fo_rc out ≠ DEFER →
  let st' := (internal_search_find st handle filename keystring cache_rd opts).2 in
  (fo_do_cache out ≠ 0 →
     ∃ e, search_tree st' =
            <[handle := node_with_cache t (<[keystring := e]> (c_item_cache (t_data t)))]>
              (search_tree st) ∧
          e_data e = fo_result out ∧ e_opts e = opts ∧
          (fo_do_cache out = UINT_MAX → e_expiry e = 0) ∧
          (fo_do_cache out ≠ UINT_MAX → e_expiry e = time w + fo_do_cache out)) ∧
  (fo_do_cache out = 0 →
     search_tree st' = <[handle := node_with_cache t ∅]> (search_tree st) ∧
     c_handle <$> cache_at st' handle = Some (c_handle (t_data t))).
Proof.
  intros Hmiss Hout Hrc.
  destruct (internal_search_find_on_miss out w Hmiss Hout) as (st' & -> & _ & _ & _ & Htree).
  simpl. rewrite (bool_decide_eq_false_2 _ Hrc) in Htree. split.
  - intros Httl. rewrite (bool_decide_eq_false_2 _ Httl) in Htree.
    eexists. split; [exact Htree|]. unfold cache_entry. simpl.
    repeat split.
    + intros ->. done.
    + intros Hne. apply Z.eqb_neq in Hne. by rewrite Hne.
  - intros Httl. rewrite (bool_decide_eq_true_2 _ Httl) in Htree.
    split; [done|]. unfold cache_at. rewrite Htree.
    rewrite list_lookup_insert_eq by (by eapply lookup_lt_Some). done.
Qed.


End InternalFind.

(** ** search_find: what internal_search_find leaves alone *)

Lemma internal_search_find_frame st handle filename keystring cache_rd opts :
  let st' := (internal_search_find st handle filename keystring cache_rd opts).2 in
  probes st' = probes st ∧ open_top st' = open_top st ∧ open_bot st' = open_bot st ∧
  open_filecount st' = open_filecount st ∧
  expand_nstring st' = expand_nstring st ∧ expand_nlength st' = expand_nlength st.
Proof.
  unfold internal_search_find. repeat case_match; simpl; done.
Qed.

Lemma internal_search_find_probes st handle filename keystring cache_rd opts y st' :
  internal_search_find st handle filename keystring cache_rd opts = (y, st') →
  probes st' = probes st.
Proof.
  intros Hf.
  pose proof (internal_search_find_frame st handle filename keystring cache_rd opts) as Hfr.
  rewrite Hf in Hfr. simpl in Hfr. tauto.
Qed.

(** ** search_find: the caller's key string *)

Lemma mem_write_other m p bs : p.1 = BlkKs2 → m_key (mem_write m p bs) = m_key m.
Proof.
  destruct p as [b off]. simpl. intros ->. unfold mem_write. simpl.
  by destruct (off <? 0).
Qed.

(** Writing a byte and then the byte that was there before. *)
Lemma mem_write_restore m p c :
  m_key (mem_write (mem_write m p [c]) p [mem_byte m p]) = m_key m.
Proof.
  destruct p as [[] off]; [|by rewrite !mem_write_other].
  unfold mem_write, mem_byte. simpl. destruct (off <? 0); [done|]. simpl.
  rewrite list_insert_insert_eq.
  destruct (m_key m !! Z.to_nat off) as [x|] eqn:Hx; simpl.
  - by apply list_insert_id.
  - apply list_insert_ge. by apply lookup_ge_None.
Qed.

Lemma partial_loop_key fuel handle filename cache_rd opts partial affix keystring2
    st m es dotcount keystring3 affixlen be :
  affixlen = 0 ∨ (keystring2.1 = BlkKs2 ∧ keystring3.1 = BlkKs2) →
  partial_loop fuel handle filename cache_rd opts partial affix keystring2
    st m es dotcount keystring3 affixlen = Some be →
  m_key (end_mem be) = m_key m.
Proof.
  revert st m es dotcount keystring3 affixlen.
  induction fuel as [|fuel IH]; intros st m es dotcount keystring3 affixlen Hptr; simpl.
  - destruct (dotcount >=? partial); [done|]. by intros [= <-].
  - destruct (dotcount >=? partial); [|by intros [= <-]].
    destruct (Ascii.eqb (mem_byte m _) NUL).
    + destruct (affixlen <? 1) eqn:Hlen; [by intros [= <-]|].
      destruct Hptr as [->|[Hk2 Hk3]]; [done|].
      destruct (internal_search_find _ _ _ _ _ _) as [yield st'].
      destruct (search_find_defer st').
      { intros [= <-]. simpl.
        rewrite mem_write_other by done. by rewrite mem_write_other. }
      destruct yield.
      { destruct (expand_trimmed _ _ _ _ _). intros [= <-]. simpl.
        rewrite mem_write_other by done. by rewrite mem_write_other. }
      intros Hloop. apply IH in Hloop; [|right; by destruct keystring2].
      rewrite Hloop. rewrite mem_write_other by done. by rewrite mem_write_other.
    + destruct (internal_search_find _ _ _ _ _ _) as [yield st'].
      assert (m_key (if affixlen >? 0
                     then mem_write m
                            (ptr_add (ptr_add keystring3
                               (Z.of_nat (span_to_dot (mem_cstr m keystring3))))
                               (- (affixlen - 1)))
                            (strncpy_bytes affix affixlen)
                     else m) = m_key m) as Hm.
      { destruct (affixlen >? 0) eqn:Hpos; [|done].
        destruct Hptr as [->|[_ Hk3]]; [done|]. by apply mem_write_other. }
      destruct (search_find_defer st'); [by intros [= <-]|].
      destruct yield.
      { destruct (expand_trimmed _ _ _ _ _). by intros [= <-]. }
      intros Hloop. apply IH in Hloop; [by rewrite Hloop|].
      destruct Hptr as [->|[Hk2 Hk3]]; [by left|right]. by destruct keystring3.
Qed.

Lemma build_keystring2_key m affix affixlen :
  m_key (build_keystring2 m affix affixlen) = m_key m.
Proof.
  unfold build_keystring2. rewrite mem_write_other by done. by rewrite mem_write_other.
Qed.

Lemma search_find_partial_key handle filename cache_rd opts partial affix affixlen
    st m es be :
  search_find_partial handle filename cache_rd opts partial affix affixlen st m es
    = Some be →
  m_key (end_mem be) = m_key m.
Proof.
  unfold search_find_partial. destruct (affixlen =? 0) eqn:Hz.
  - apply Z.eqb_eq in Hz. subst affixlen. apply partial_loop_key. by left.
  - destruct (internal_search_find _ _ _ _ _ _) as [yield st'].
    destruct (search_find_defer st').
    { intros [= <-]. apply build_keystring2_key. }
    destruct yield.
    { intros [= <-]. apply build_keystring2_key. }
    intros Hloop. apply partial_loop_key in Hloop; [|by right].
    rewrite Hloop. apply build_keystring2_key.
Qed.

Lemma search_find_first_key handle filename cache_rd opts partial affix affixlen
    st m es be :
  search_find_first handle filename cache_rd opts partial affix affixlen st m es
    = Some be →
  m_key (end_mem be) = m_key m.
Proof.
  unfold search_find_first.
  destruct (internal_search_find _ _ _ _ _ _) as [yield st'].
  destruct (search_find_defer st'); [by intros [= <-]|].
  destruct yield; [by intros [= <-]|].
  destruct (partial >=? 0); [|by intros [= <-]].
  apply search_find_partial_key.
Qed.

Lemma search_find_starat_key handle filename cache_rd opts starflags yield st m es snw :
  m_key (end_mem (search_find_starat handle filename cache_rd opts starflags
                    yield st m es snw)) = m_key m.
Proof.
  unfold search_find_starat. repeat case_match; simpl; try done;
    apply mem_write_restore.
Qed.

Lemma search_find_defaults_key handle filename cache_rd opts starflags ret_key be :
  r_keystring (search_find_defaults handle filename cache_rd opts starflags ret_key be)
  = m_key (end_mem be).
Proof.
  unfold search_find_defaults. destruct be as [st m es|yield st m es snw]; [done|].
  pose proof (search_find_starat_key handle filename cache_rd opts starflags
                yield st m es snw) as Hk.
  destruct (search_find_starat _ _ _ _ _ _ _ _ _ _); [done|].
  repeat case_match; done.
Qed.

(** ** search_find returns *)

Lemma partial_loop_total fuel handle filename cache_rd opts partial affix keystring2
    st m es dotcount keystring3 affixlen :
  dotcount - partial + 1 ≤ Z.of_nat fuel →
  is_Some (partial_loop fuel handle filename cache_rd opts partial affix keystring2
             st m es dotcount keystring3 affixlen).
Proof.
  revert st m es dotcount keystring3 affixlen.
  induction fuel as [|fuel IH]; intros st m es dotcount keystring3 affixlen Hfuel; simpl.
  - destruct (dotcount >=? partial) eqn:E; [lia|eauto].
  - destruct (dotcount >=? partial) eqn:E; [|eauto].
    destruct (Ascii.eqb (mem_byte m _) NUL).
    + destruct (affixlen <? 1); [eauto|].
      destruct (internal_search_find _ _ _ _ _ _) as [yield st'].
      destruct (search_find_defer st'); [eauto|].
      destruct yield; [destruct (expand_trimmed _ _ _ _ _); eauto|].
      apply IH. lia.
    + destruct (internal_search_find _ _ _ _ _ _) as [yield st'].
      destruct (search_find_defer st'); [eauto|].
      destruct yield; [destruct (expand_trimmed _ _ _ _ _); eauto|].
      apply IH. lia.
Qed.

Lemma search_find_partial_total handle filename cache_rd opts partial affix affixlen
    st m es :
  is_Some (search_find_partial handle filename cache_rd opts partial affix affixlen
             st m es).
Proof.
  unfold search_find_partial. destruct (affixlen =? 0).
  - apply partial_loop_total. lia.
  - destruct (internal_search_find _ _ _ _ _ _) as [yield st'].
    destruct (search_find_defer st'); [eauto|].
    destruct yield; [eauto|]. apply partial_loop_total. lia.
Qed.

Lemma search_find_first_total handle filename cache_rd opts partial affix affixlen
    st m es :
  is_Some (search_find_first handle filename cache_rd opts partial affix affixlen
             st m es).
Proof.
  unfold search_find_first.
  destruct (internal_search_find _ _ _ _ _ _) as [yield st'].
  destruct (search_find_defer st'); [eauto|].
  destruct yield; [eauto|].
  destruct (partial >=? 0); [|eauto]. apply search_find_partial_total.
Qed.

(** search_find returns on every input: the loop over the components of
    the key ends. *)
Theorem search_find_returns st handle filename keystring partial affix affixlen
    starflags expand_setup opts :
  is_Some (search_find st handle filename keystring partial affix affixlen
             starflags expand_setup opts).
Proof.
  unfold search_find. destruct (search_find_options opts) as [[ret_key cache_rd] opts'].
  destruct (search_find_first_total handle filename cache_rd opts' partial affix affixlen
              (lru_promote st handle) {| m_key := buffer_of keystring; m_ks2 := [] |}
              expand_setup) as [be ->].
  simpl. eauto.
Qed.

(** C10. Every call of search_find returns, and returns with the caller's
    key string as it was, byte for byte: the [*@] attempt overwrites the byte
    before the rightmost @ and puts it back before any return, the partial
    attempts with an affix write only into the block got for [keystring2], and
    with an affix of length 0 the loop writes nothing. *)
Theorem search_find_keystring_unchanged st handle filename (keystring : string)
    partial affix affixlen starflags expand_setup opts :
  ∃ r, search_find st handle filename keystring partial affix affixlen
         starflags expand_setup opts = Some r ∧
       r_keystring r = buffer_of keystring.
Proof.
  unfold search_find. destruct (search_find_options opts) as [[ret_key cache_rd] opts'].
  destruct (search_find_first_total handle filename cache_rd opts' partial affix affixlen
              (lru_promote st handle) {| m_key := buffer_of keystring; m_ks2 := [] |}
              expand_setup) as [be Hbe].
  rewrite Hbe. simpl. eexists. split; [done|].
  rewrite search_find_defaults_key.
  by rewrite (search_find_first_key _ _ _ _ _ _ _ _ _ _ _ Hbe).
Qed.

(** ** search_find: the keys it looks up *)

Lemma list_ascii_of_string_app a b :
  list_ascii_of_string (a ++ b) = (list_ascii_of_string a ++ list_ascii_of_string b)%list.
Proof. induction a as [|c r IH]; simpl; [done|]. by rewrite <- IH. Qed.

Lemma length_list_ascii_of_string a : length (list_ascii_of_string a) = String.length a.
Proof. induction a as [|c r IH]; simpl; [done|]. by rewrite IH. Qed.

Lemma cstr_of_bytes_app s l :
  cstring s → cstr_of_bytes (list_ascii_of_string s ++ l) = s ++ cstr_of_bytes l.
Proof.
  induction s as [|c r IH]; intros Hs; [done|]. destruct Hs as [Hc Hr].
  cbn [list_ascii_of_string app cstr_of_bytes].
  apply Ascii.eqb_neq in Hc. rewrite Hc, append_cons. f_equal. by apply IH.
Qed.

Lemma append_empty_r s : s ++ "" = s.
Proof. induction s as [|c r IH]; [done|]. by rewrite append_cons, IH. Qed.

Lemma cstr_of_buffer s : cstring s → cstr_of_bytes (buffer_of s) = s.
Proof.
  intros Hs. unfold buffer_of. rewrite cstr_of_bytes_app by done.
  apply append_empty_r.
Qed.

Lemma mem_cstr_keystring (keystring : string) ks2 :
  cstring keystring →
  mem_cstr {| m_key := buffer_of keystring; m_ks2 := ks2 |} keystring_ptr = keystring.
Proof. intros Hs. unfold mem_cstr. simpl. by apply cstr_of_buffer. Qed.

Lemma strncpy_bytes_prefix aff rest :
  strncpy_bytes (aff ++ rest) (Ustrlen aff) = list_ascii_of_string aff.
Proof.
  unfold strncpy_bytes, Ustrlen. rewrite Nat2Z.id, list_ascii_of_string_app.
  rewrite <- app_assoc, take_app_length'; [done|]. by rewrite length_list_ascii_of_string.
Qed.

(** The block of [keystring2] once the affix and the key are copied in. *)
Lemma keystring2_block (aff keystring : string) :
  list_inserts (Z.to_nat (Ustrlen aff)) (buffer_of keystring)
    (list_inserts 0 (list_ascii_of_string aff)
       (replicate (Z.to_nat (Ustrlen keystring + Ustrlen aff + 1)) NUL))
  = (list_ascii_of_string aff ++ buffer_of keystring)%list.
Proof.
  unfold Ustrlen. rewrite Nat2Z.id.
  replace (Z.to_nat (Z.of_nat (String.length keystring) + Z.of_nat (String.length aff) + 1))
    with (String.length aff + S (String.length keystring))%nat by lia.
  rewrite replicate_add.
  rewrite list_inserts_0_r
    by (by rewrite length_list_ascii_of_string, length_replicate).
  rewrite <- (length_list_ascii_of_string aff) at 1.
  rewrite <- (Nat.add_0_r (length (list_ascii_of_string aff))).
  rewrite list_inserts_app_r. f_equal.
  rewrite <- (app_nil_r (replicate _ _)). rewrite list_inserts_0_r; [by rewrite app_nil_r|].
  unfold buffer_of. rewrite length_app, length_list_ascii_of_string, length_replicate.
  simpl. lia.
Qed.

Lemma lru_promote_probes st handle : probes (lru_promote st handle) = probes st.
Proof. unfold lru_promote, lru_push, lru_cut. repeat case_match; done. Qed.

Lemma partial_loop_exit fuel handle filename cache_rd opts partial affix keystring2
    st m es dotcount keystring3 affixlen :
  dotcount < partial →
  partial_loop fuel handle filename cache_rd opts partial affix keystring2
    st m es dotcount keystring3 affixlen = Some (FallThrough None st m es false).
Proof.
  intros Hlt. destruct fuel; simpl; destruct (dotcount >=? partial) eqn:E; done || lia.
Qed.

(** The second half of search_find only adds probes of the defaults. *)
Lemma search_find_defaults_probes handle filename cache_rd opts starflags ret_key be :
  ∃ rest, probes (r_state (search_find_defaults handle filename cache_rd opts starflags
                             ret_key be))
          = (probes (end_state be) ++ rest)%list ∧ Forall default_probe rest.
Proof.
  unfold search_find_defaults. destruct be as [st m es|yield st m es snw]; simpl.
  { exists []. by rewrite app_nil_r. }
  assert (∃ rest1, probes (end_state (search_find_starat handle filename cache_rd opts
                                        starflags yield st m es snw))
                   = (probes st ++ rest1)%list ∧ Forall default_probe rest1)
    as (rest1 & Hp1 & Hd1).
  { unfold search_find_starat, expand_pair.
    destruct (_ && _); [|exists []; by rewrite app_nil_r].
    destruct (Ustrrchr _ _) as [atat|]; [|exists []; by rewrite app_nil_r].
    destruct (0 <? atat)%nat; [|exists []; by rewrite app_nil_r].
    destruct (internal_search_find _ _ _ _ _ _) as [y st'] eqn:Hf.
    apply internal_search_find_probes in Hf. simpl in Hf.
    eexists [_]. split; [repeat case_match; simplify_eq; simpl; exact Hf|].
    apply Forall_singleton. by left. }
  destruct (search_find_starat _ _ _ _ _ _ _ _ _ _) as [st1 m1 es1|y1 st1 m1 es1 snw1];
    simpl in *.
  { by exists rest1. }
  assert (∃ rest2, probes (search_find_star handle filename cache_rd opts starflags
                             y1 st1 m1 es1).1.2
                   = (probes st1 ++ rest2)%list ∧ Forall default_probe rest2)
    as (rest2 & Hp2 & Hd2).
  { unfold search_find_star, expand_pair.
    destruct (_ && _); [|exists []; by rewrite app_nil_r].
    destruct (internal_search_find _ _ _ _ _ _) as [y st'] eqn:Hf.
    apply internal_search_find_probes in Hf. simpl in Hf.
    eexists [_]. split; [repeat case_match; simplify_eq; simpl; exact Hf|].
    apply Forall_singleton. by right. }
  destruct (search_find_star _ _ _ _ _ _ _ _ _) as [[y2 st2] es2]. simpl in *.
  exists (rest1 ++ rest2)%list. split; [|by apply Forall_app].
  rewrite app_assoc, <- Hp1, <- Hp2. unfold expand_pair.
  repeat case_match; simplify_eq; done.
Qed.

Lemma build_keystring2_spec (aff rest keystring : string) ks2 :
  cstring keystring →
  build_keystring2 {| m_key := buffer_of keystring; m_ks2 := ks2 |}
    (aff ++ rest) (Ustrlen aff)
  = {| m_key := buffer_of keystring;
       m_ks2 := (list_ascii_of_string aff ++ buffer_of keystring)%list |}.
Proof.
  intros Hk. unfold build_keystring2, mem_write, ptr_add.
  cbn [fst snd]. replace (0 <? 0) with false by done.
  assert ((0 + Ustrlen aff <? 0) = false) as -> by (apply Z.ltb_ge; unfold Ustrlen; lia).
  cbn [block_of set_block m_key m_ks2].
  rewrite !mem_cstr_keystring by done.
  rewrite Z.add_0_l, strncpy_bytes_prefix. f_equal.
  apply keystring2_block.
Qed.


(** ** search_find: the [*@] default *)

Lemma Ustrrchr_lt s c i : Ustrrchr s c = Some i → (i < String.length s)%nat.
Proof.
  revert i. induction s as [|c' r IH]; intros i; simpl; [done|].
  destruct (Ustrrchr r c) as [j|].
  - intros [= <-]. specialize (IH j eq_refl). lia.
  - destruct (Ascii.eqb c' c); [|done]. intros [= <-]. lia.
Qed.

Lemma cstring_drop n s : cstring s → cstring (string_drop n s).
Proof.
  revert s. induction n as [|n IH]; intros [|c r] Hs; simpl; try done.
  apply IH. by destruct Hs.
Qed.

Lemma drop_buffer_of n s :
  (n ≤ String.length s)%nat → drop n (buffer_of s) = buffer_of (string_drop n s).
Proof.
  revert s. induction n as [|n IH]; intros [|c r] Hn; simpl in *; try done; try lia.
  apply IH. lia.
Qed.

Lemma drop_poke (l : list ascii) n c :
  (n < length l)%nat → drop n (<[n := c]> l) = c :: drop (S n) l.
Proof.
  revert n. induction l as [|x l IH]; intros [|n] Hn; simpl in *; try lia; [done|].
  apply IH. lia.
Qed.

Lemma partial_loop_none fuel handle filename cache_rd opts partial affix keystring2
    st m es dotcount keystring3 affixlen y st1 m1 es1 snw :
  partial_loop fuel handle filename cache_rd opts partial affix keystring2
    st m es dotcount keystring3 affixlen = Some (FallThrough y st1 m1 es1 snw) →
  snw = false.
Proof.
  revert st m es dotcount keystring3 affixlen.
  induction fuel as [|fuel IH]; intros st m es dotcount keystring3 affixlen; simpl.
  - destruct (dotcount >=? partial); [done|]. by intros [= _ _ _ _ <-].
  - destruct (dotcount >=? partial); [|by intros [= _ _ _ _ <-]].
    destruct (Ascii.eqb (mem_byte m _) NUL).
    + destruct (affixlen <? 1); [by intros [= _ _ _ _ <-]|].
      destruct (internal_search_find _ _ _ _ _ _) as [yield st'].
      destruct (search_find_defer st'); [done|].
      destruct yield; [destruct (expand_trimmed _ _ _ _ _); by intros [= _ _ _ _ <-]|].
      apply IH.
    + destruct (internal_search_find _ _ _ _ _ _) as [yield st'].
      destruct (search_find_defer st'); [done|].
      destruct yield; [destruct (expand_trimmed _ _ _ _ _); by intros [= _ _ _ _ <-]|].
      apply IH.
Qed.

(** When the first half of search_find ends without a match, no variable
    is to be set for a match without a wild part. *)
Lemma search_find_first_none handle filename cache_rd opts partial affix affixlen
    st m es st1 m1 es1 snw :
  search_find_first handle filename cache_rd opts partial affix affixlen st m es
    = Some (FallThrough None st1 m1 es1 snw) →
  snw = false.
Proof.
  unfold search_find_first.
  destruct (internal_search_find _ _ _ _ _ _) as [yield st'].
  destruct (search_find_defer st'); [done|].
  destruct yield; [done|].
  destruct (partial >=? 0); [|by intros [= _ _ _ <-]].
  unfold search_find_partial. destruct (affixlen =? 0).
  - apply partial_loop_none.
  - destruct (internal_search_find _ _ _ _ _ _) as [yield st''].
    destruct (search_find_defer st''); [done|].
    destruct yield; [done|]. apply partial_loop_none.
Qed.

(** The key the [*@] attempt looks up: the key string from the byte before
    the rightmost @, with that byte replaced by ['*']. *)
Lemma starat_key (keystring : string) ks2 i :
  cstring keystring → Ustrrchr keystring "@" = Some i → (0 < i)%nat →
  let m := {| m_key := buffer_of keystring; m_ks2 := ks2 |} in
  let atat := ptr_add keystring_ptr (Z.of_nat i - 1) in
  mem_cstr (mem_write m atat ["*"%char]) atat = "*" ++ string_drop i keystring.
Proof.
  intros Hk Hat Hi. pose proof (Ustrrchr_lt _ _ _ Hat) as Hlt.
  unfold mem_cstr, mem_write, ptr_add, keystring_ptr. cbn [fst snd].
  assert ((0 + (Z.of_nat i - 1) <? 0) = false) as -> by (apply Z.ltb_ge; lia).
  cbn [block_of set_block m_key m_ks2 list_inserts].
  replace (Z.to_nat (0 + (Z.of_nat i - 1))) with (i - 1)%nat by lia.
  rewrite drop_poke by (unfold buffer_of; rewrite length_app, length_list_ascii_of_string; lia).
  replace (S (i - 1)) with i by lia.
  rewrite drop_buffer_of by lia.
  cbn [cstr_of_bytes]. replace (Ascii.eqb "*" NUL) with false by done.
  rewrite cstr_of_buffer by (by apply cstring_drop). done.
Qed.

Lemma mem_cstr_key_only m (keystring : string) :
  m_key m = buffer_of keystring → cstring keystring →
  mem_cstr m keystring_ptr = keystring.
Proof.
  intros Hm Hk. unfold mem_cstr. simpl. rewrite Hm. by apply cstr_of_buffer.
Qed.

(** C6, as the code has it. In search_find, when the earlier attempts end
    without a match (and without a defer), the STARAT flag is set, and the key
    has an @ with at least one byte before the rightmost one, at offset [i],
    the key looked up is ['*'] followed by the key from that @ on: the byte
    before the @ is replaced by ['*'] and the lookup starts there, not at the
    start of the key. On a hit, with expansion enabled, the first variable
    set is the original key with length [i], the bytes before the @, and the
    second is the original key with length 0. *)
Theorem search_find_starat_lookup st handle filename (keystring : string) partial
    affix affixlen starflags expand_setup opts ret_key cache_rd opts'
    st1 m1 es1 snw (i : nat) y st2 :
  cstring keystring →
  search_find_options opts = (ret_key, cache_rd, opts') →
  search_find_first handle filename cache_rd opts' partial affix affixlen
    (lru_promote st handle) {| m_key := buffer_of keystring; m_ks2 := [] |}
    expand_setup = Some (FallThrough None st1 m1 es1 snw) →
  Z.land starflags SEARCH_STARAT ≠ 0 →
  Ustrrchr keystring "@" = Some i → (0 < i)%nat →
  internal_search_find (record_probe StarAt ("*" ++ string_drop i keystring) st1)
    handle filename ("*" ++ string_drop i keystring) cache_rd opts' = (y, st2) →
  ∃ r rest,
    search_find st handle filename keystring partial affix affixlen starflags
      expand_setup opts = Some r ∧
    probes (r_state r)
    = (probes st1 ++ (StarAt, ("*" ++ string_drop i keystring)%string) :: rest)%list ∧
    (∀ v n, y = Some v → search_find_defer st2 = false → expanding es1 = Some n →
       r_yield r = (if ret_key then Some keystring else Some v) ∧
       r_expand_setup r = Some (n + 2) ∧
       expand_nstring (r_state r) !! (n + 1) = Some ExpKeystring ∧
       expand_nlength (r_state r) !! (n + 1) = Some (Z.of_nat i) ∧
       expand_nstring (r_state r) !! (n + 2) = Some ExpKeystring ∧
       expand_nlength (r_state r) !! (n + 2) = Some 0).
Proof.
  intros Hk Hopts Hfirst Hflag Hat Hi Hfind.
  pose proof (search_find_first_none _ _ _ _ _ _ _ _ _ _ _ _ _ _ Hfirst) as ->.
  pose proof (search_find_first_key _ _ _ _ _ _ _ _ _ _ _ Hfirst) as Hm1.
  simpl in Hm1. destruct m1 as [k1 ks2]. simpl in Hm1. subst k1.
  pose proof (internal_search_find_probes _ _ _ _ _ _ _ _ Hfind) as Hp2. simpl in Hp2.
  unfold search_find. rewrite Hopts, Hfirst.
  change (?f <$> Some ?x) with (Some (f x)).
  unfold search_find_defaults, search_find_starat.
  rewrite mem_cstr_keystring by done. rewrite Hat.
  replace (negb (bool_decide (is_Some (@None string)))) with true
    by (symmetry; apply negb_true_iff, bool_decide_eq_false_2; by intros [? ?]).
  apply Z.eqb_neq in Hflag. rewrite Hflag.
  replace (0 <? i)%nat with true by (symmetry; by apply Nat.ltb_lt).
  cbn [negb andb].
  rewrite (starat_key keystring ks2 i Hk Hat Hi). rewrite Hfind.
  set (m' := mem_write (mem_write _ _ _) _ _).
  assert (mem_cstr m' keystring_ptr = keystring) as Hkey'
    by (apply mem_cstr_key_only; [apply mem_write_restore|done]).
  destruct (search_find_defer st2) eqn:Hdefer.
  { eexists _, []. split; [done|]. split; [done|]. by intros v n _ [=]. }
  destruct y as [v|].
  - (* a match *)
    assert (search_find_star handle filename cache_rd opts' starflags (Some v)
            = λ st m es, (Some v, st, es)) as Hstar.
    { unfold search_find_star.
      replace (negb (bool_decide (is_Some (Some v)))) with false; [done|].
      symmetry. apply negb_false_iff, bool_decide_eq_true_2. eauto. }
    destruct (expanding es1) as [n|] eqn:Hes.
    + unfold expand_pair. rewrite Hstar. cbn beta iota. rewrite Hkey'.
      eexists _, []. split; [done|]. split; [done|].
      intros v' n' [= <-] _ [= <-]. cbn [r_yield r_expand_setup r_state].
      split; [done|]. split; [done|]. unfold set_expand. simpl.
      split; [rewrite lookup_insert_ne by lia; apply lookup_insert_eq|].
      split; [rewrite lookup_insert_ne by lia; rewrite lookup_insert_eq; f_equal; lia|].
      split; apply lookup_insert_eq.
    + rewrite Hstar. cbn beta iota. rewrite Hkey'.
      eexists _, []. split; [done|]. split; [done|]. by intros v' n' _ _ [=].
  - (* no match: the [*] default follows *)
    unfold search_find_star.
    destruct (_ && _).
    + destruct (internal_search_find (record_probe Star _ _) _ _ _ _ _)
        as [y3 st3] eqn:Hfind3.
      apply internal_search_find_probes in Hfind3. simpl in Hfind3.
      eexists _, [(Star, "*")]. split; [reflexivity|]. split; [|done].
      unfold expand_pair. repeat case_match; simplify_eq; simpl;
        by rewrite Hfind3, Hp2, <- app_assoc.
    + eexists _, []. split; [done|]. split; [done|]. done.
Qed.

(** ** The count of open files *)

Lemma fmap_alter_same {A B} (v : A → B) (g : A → A) (i : nat) (l : list A) :
  (∀ x, v (g x) = v x) → v <$> alter g i l = v <$> l.
Proof.
  intros Hg. apply list_eq. intros j. rewrite !list_lookup_fmap.
  destruct (decide (i = j)) as [->|Hne].
  - rewrite list_lookup_alter_eq. destruct (l !! j); simpl; [by rewrite Hg|done].
  - by rewrite list_lookup_alter_ne.
Qed.

Lemma internal_search_find_links st handle filename keystring cache_rd opts :
  links (internal_search_find st handle filename keystring cache_rd opts).2 = links st.
Proof.
  unfold internal_search_find, links.
  repeat case_match; simpl; try done; f_equal; by apply fmap_alter_same.
Qed.

Lemma internal_search_find_links' st handle filename keystring cache_rd opts y st' :
  internal_search_find st handle filename keystring cache_rd opts = (y, st') →
  links st' = links st.
Proof.
  intros Hf.
  pose proof (internal_search_find_links st handle filename keystring cache_rd opts) as Hl.
  by rewrite Hf in Hl.
Qed.

Lemma expand_trimmed_links st m es keystring3 affixlen :
  links (expand_trimmed st m es keystring3 affixlen).1 = links st.
Proof. unfold expand_trimmed, expand_pair. by repeat case_match. Qed.

Lemma links_record_probe a k st : links (record_probe a k st) = links st.
Proof. reflexivity. Qed.

Lemma partial_loop_links fuel handle filename cache_rd opts partial affix keystring2
    st m es dotcount keystring3 affixlen be :
  partial_loop fuel handle filename cache_rd opts partial affix keystring2
    st m es dotcount keystring3 affixlen = Some be →
  links (end_state be) = links st.
Proof.
  revert st m es dotcount keystring3 affixlen.
  induction fuel as [|fuel IH]; intros st m es dotcount keystring3 affixlen; simpl.
  - destruct (dotcount >=? partial); [done|]. by intros [= <-].
  - destruct (dotcount >=? partial); [|by intros [= <-]].
    destruct (Ascii.eqb (mem_byte m _) NUL).
    + destruct (affixlen <? 1); [by intros [= <-]|].
      destruct (internal_search_find _ _ _ _ _ _) as [yield st'] eqn:Hf.
      apply internal_search_find_links' in Hf. rewrite links_record_probe in Hf.
      destruct (search_find_defer st'); [by intros [= <-]|].
      destruct yield.
      { match goal with |- context [expand_trimmed ?a ?b ?c ?d ?e] =>
          pose proof (expand_trimmed_links a b c d e) as He;
          destruct (expand_trimmed a b c d e) end.
        intros [= <-]. simpl in *. congruence. }
      intros Hloop. apply IH in Hloop. congruence.
    + destruct (internal_search_find _ _ _ _ _ _) as [yield st'] eqn:Hf.
      apply internal_search_find_links' in Hf. rewrite links_record_probe in Hf.
      destruct (search_find_defer st'); [by intros [= <-]|].
      destruct yield.
      { match goal with |- context [expand_trimmed ?a ?b ?c ?d ?e] =>
          pose proof (expand_trimmed_links a b c d e) as He;
          destruct (expand_trimmed a b c d e) end.
        intros [= <-]. simpl in *. congruence. }
      intros Hloop. apply IH in Hloop. congruence.
Qed.

Lemma search_find_first_links handle filename cache_rd opts partial affix affixlen
    st m es be :
  search_find_first handle filename cache_rd opts partial affix affixlen st m es
    = Some be →
  links (end_state be) = links st.
Proof.
  unfold search_find_first.
  destruct (internal_search_find _ _ _ _ _ _) as [yield st'] eqn:Hf.
  apply internal_search_find_links' in Hf. rewrite links_record_probe in Hf.
  destruct (search_find_defer st'); [by intros [= <-]|].
  destruct yield; [by intros [= <-]|].
  destruct (partial >=? 0); [|by intros [= <-]].
  unfold search_find_partial. destruct (affixlen =? 0).
  - intros Hloop. apply partial_loop_links in Hloop. congruence.
  - destruct (internal_search_find (record_probe AffixWhole _ _) _ _ _ _ _)
      as [yield st''] eqn:Hf2.
    apply internal_search_find_links' in Hf2. rewrite links_record_probe in Hf2.
    destruct (search_find_defer st''); [intros [= <-]; simpl; congruence|].
    destruct yield; [intros [= <-]; simpl; congruence|].
    intros Hloop. apply partial_loop_links in Hloop. congruence.
Qed.

Lemma search_find_defaults_links handle filename cache_rd opts starflags ret_key be :
  links (r_state (search_find_defaults handle filename cache_rd opts starflags ret_key be))
  = links (end_state be).
Proof.
  unfold search_find_defaults, search_find_starat, search_find_star, expand_pair.
  repeat case_match; simplify_eq; simpl; try done;
    repeat match goal with
           | Hf : internal_search_find _ _ _ _ _ _ = _ |- _ =>
               apply internal_search_find_links' in Hf
           end; unfold links in *; simpl in *; congruence.
Qed.

(** search_find changes the chain and the count only by putting the handle
    at the top of the chain. *)
Lemma search_find_links st handle filename keystring partial affix affixlen starflags
    expand_setup opts r :
  search_find st handle filename keystring partial affix affixlen starflags
    expand_setup opts = Some r →
  links (r_state r) = links (lru_promote st handle).
Proof.
  unfold search_find. destruct (search_find_options opts) as [[ret_key cache_rd] opts'].
  destruct (search_find_first _ _ _ _ _ _ _ _ _ _) as [be|] eqn:Hbe; [|done].
  intros [= <-]. rewrite search_find_defaults_links.
  by apply search_find_first_links in Hbe.
Qed.

Lemma lru_promote_filecount st handle :
  open_filecount (lru_promote st handle) = open_filecount st.
Proof. unfold lru_promote, lru_push, lru_cut. by repeat case_match. Qed.

Lemma links_filecount st st' : links st = links st' → open_filecount st = open_filecount st'.
Proof. unfold links. by intros [= _ _ ? _]. Qed.

Lemma step_find_filecount st handle filename keystring partial affix affixlen starflags
    expand_setup opts :
  open_filecount (step st (OpFind handle filename keystring partial affix affixlen
                             starflags expand_setup opts)) = open_filecount st.
Proof.
  simpl. destruct (search_find _ _ _ _ _ _ _ _ _ _) as [r|] eqn:Hr; [|done].
  apply search_find_links, links_filecount in Hr. by rewrite Hr, lru_promote_filecount.
Qed.

Lemma tidy_hooks_filecount l st :
  open_filecount (foldl call_tidy st l) = open_filecount st.
Proof.
  revert st. induction l as [|x l IH]; intros st; simpl; [done|].
  rewrite IH. unfold call_tidy. by destruct (lk_tidy x.2).
Qed.

Lemma search_tidyup_filecount st : open_filecount (search_tidyup st) = 0.
Proof. unfold search_tidyup. by rewrite tidy_hooks_filecount. Qed.

Lemma call_close_filecount search_type handle st :
  open_filecount (call_close search_type handle st) = open_filecount st.
Proof. unfold call_close. by repeat case_match. Qed.

Lemma evict_lru_filecount st b c :
  open_bot st = Some b → cache_at st b = Some c →
  open_filecount (evict_lru st) = open_filecount st - 1.
Proof.
  intros Hb Hc. unfold evict_lru. rewrite Hb, Hc. simpl.
  rewrite call_close_filecount. by destruct (c_up c).
Qed.

Lemma enter_open_filecount st lk t keybuffer search_type handle :
  open_filecount (enter_open st lk t keybuffer search_type handle).2
  = open_filecount st + (if lk_type lk =? lookup_absfile then 1 else 0).
Proof.
  unfold enter_open. destruct (lk_type lk =? lookup_absfile), t; simpl; lia.
Qed.

Lemma evict_lru_filecount_le st : open_filecount (evict_lru st) ≤ open_filecount st.
Proof.
  unfold evict_lru. destruct (open_bot st) as [b|]; [|done].
  destruct (cache_at st b) as [c|]; [|done]. simpl.
  rewrite call_close_filecount. destruct (c_up c); simpl; lia.
Qed.

Lemma enter_open_result st lk t keybuffer search_type handle :
  is_Some (enter_open st lk t keybuffer search_type handle).1.
Proof. unfold enter_open. destruct t; simpl; eauto. Qed.

(** What a search_open that gets as far as the open hook does to the count:
    one less if it made room, one more if the file is one of a file-backed
    driver and was entered into the tree. *)
Lemma search_open_count st filename search_type modemask owners owngroups lk :
  lookup_list_at search_type = Some lk →
  filename ≫= (λ f, if is_tainted f then Some f else None) = None →
  (tree_search (search_tree st) (keybuffer_of search_type filename) ≫= cache_at st)
    ≫= c_handle = None →
  open_filecount (search_open st filename search_type modemask owners owngroups).2
  = open_filecount (if (lk_type lk =? lookup_absfile)
                       && (open_filecount st >=? lookup_open_max)
                    then evict_lru st else st)
    + match (search_open st filename search_type modemask owners owngroups).1 with
      | Some _ => if lk_type lk =? lookup_absfile then 1 else 0
      | None => 0
      end.
Proof.
  intros Hlk Htaint Hcached. unfold search_open. rewrite Hlk, Htaint, Hcached.
  set (st1 := if (lk_type lk =? lookup_absfile) && (open_filecount st >=? lookup_open_max)
              then evict_lru st else st).
  clearbody st1.
  destruct (lk_open lk filename _ _) as [[handle msg] w].
  destruct handle as [handle|]; [|simpl; lia].
  destruct (lk_check lk) as [check|].
  - destruct (check _ _ _ _ _ _ _) as [[ok msg'] w'].
    destruct ok.
    + match goal with
      | |- context [enter_open ?a ?b ?c ?d ?e ?f] =>
          destruct (enter_open_result a b c d e f) as [t' Ht'];
          rewrite Ht', enter_open_filecount
      end. done.
    + cbn [fst snd]. rewrite call_close_filecount. simpl. lia.
  - match goal with
    | |- context [enter_open ?a ?b ?c ?d ?e ?f] =>
        destruct (enter_open_result a b c d e f) as [t' Ht'];
        rewrite Ht', enter_open_filecount
    end. done.
Qed.

(** One search_open keeps the count within the maximum, if it finds a slot
    at the bottom of the chain, or returns NULL, whenever it has to open a
    file with the count at the maximum. *)
Lemma search_open_filecount st filename search_type modemask owners owngroups :
  open_filecount st ≤ lookup_open_max →
  (at_cap st (OpOpen filename search_type modemask owners owngroups) →
   (∃ b c, open_bot st = Some b ∧ cache_at st b = Some c) ∨
   (search_open st filename search_type modemask owners owngroups).1 = None) →
  open_filecount (search_open st filename search_type modemask owners owngroups).2
  ≤ lookup_open_max.
Proof.
  intros Hle Hbot.
  destruct (lookup_list_at search_type) as [lk|] eqn:Hlk;
    [|unfold search_open; by rewrite Hlk].
  destruct (filename ≫= (λ f, if is_tainted f then Some f else None)) eqn:Htaint;
    [unfold search_open; by rewrite Hlk, Htaint|].
  destruct ((tree_search (search_tree st) (keybuffer_of search_type filename)
               ≫= cache_at st) ≫= c_handle) eqn:Hcached;
    [unfold search_open; by rewrite Hlk, Htaint, Hcached|].
  rewrite (search_open_count st filename search_type modemask owners owngroups lk
             Hlk Htaint Hcached).
  destruct (lk_type lk =? lookup_absfile) eqn:Hty; cbn [andb];
    [|destruct (search_open _ _ _ _ _ _).1; lia].
  destruct (open_filecount st >=? lookup_open_max) eqn:Hcap;
    [|destruct (search_open _ _ _ _ _ _).1; lia].
  destruct Hbot as [(b & c & Hb & Hc)|Hnone].
  { exists lk. apply Z.eqb_eq in Hty. repeat split; try done. lia. }
  - rewrite (evict_lru_filecount st b c Hb Hc).
    destruct (search_open _ _ _ _ _ _).1; lia.
  - rewrite Hnone. pose proof (evict_lru_filecount_le st). lia.
Qed.

(** When search_open has to make room it calls the close hook for the slot
    at the bottom of the chain, and only then the open hook. *)
Lemma search_open_closes_first st filename search_type modemask owners owngroups
    lk b c lkb close :
  lookup_list_at search_type = Some lk → lk_type lk = lookup_absfile →
  filename ≫= (λ f, if is_tainted f then Some f else None) = None →
  (tree_search (search_tree st) (keybuffer_of search_type filename) ≫= cache_at st)
    ≫= c_handle = None →
  lookup_open_max ≤ open_filecount st →
  open_bot st = Some b → cache_at st b = Some c →
  lookup_list_at (c_search_type c) = Some lkb → lk_close lkb = Some close →
  ∃ rest,
    hook_calls (search_open st filename search_type modemask owners owngroups).2
    = (hook_calls st ++ [CallClose (c_search_type c) (c_handle c);
                         CallOpen search_type filename] ++ rest)%list.
Proof.
  intros Hlk Htype Htaint Hcached Hcap Hb Hc Hlkb Hclose.
  unfold search_open. rewrite Hlk, Htaint, Hcached, Htype, Z.eqb_refl.
  replace (open_filecount st >=? lookup_open_max) with true by (symmetry; lia).
  cbn [andb]. unfold evict_lru. rewrite Hb, Hc. unfold call_close. rewrite Hlkb, Hclose.
  unfold enter_open, call_close. rewrite Hlk.
  repeat case_match; simplify_eq; simpl; rewrite <- ?app_assoc; simpl;
    eexists; f_equal; f_equal; f_equal; try reflexivity.
Qed.

(** Without a slot at the bottom of the chain search_open says so in the
    log and calls the open hook all the same; the file is counted if it opens
    and passes its check. *)
Lemma search_open_no_room st filename search_type modemask owners owngroups lk :
  lookup_list_at search_type = Some lk → lk_type lk = lookup_absfile →
  filename ≫= (λ f, if is_tainted f then Some f else None) = None →
  (tree_search (search_tree st) (keybuffer_of search_type filename) ≫= cache_at st)
    ≫= c_handle = None →
  lookup_open_max ≤ open_filecount st →
  open_bot st = None →
  log (search_open st filename search_type modemask owners owngroups).2
  = (log st ++ ["too many lookups open, but can't find one to close"])%list ∧
  (∃ rest,
     hook_calls (search_open st filename search_type modemask owners owngroups).2
     = (hook_calls st ++ [CallOpen search_type filename] ++ rest)%list) ∧
  open_filecount (search_open st filename search_type modemask owners owngroups).2
  = open_filecount st
    + match (search_open st filename search_type modemask owners owngroups).1 with
      | Some _ => 1
      | None => 0
      end.
Proof.
  intros Hlk Htype Htaint Hcached Hcap Hb.
  unfold search_open. rewrite Hlk, Htaint, Hcached, Htype, Z.eqb_refl.
  replace (open_filecount st >=? lookup_open_max) with true by (symmetry; lia).
  cbn [andb]. unfold evict_lru. rewrite Hb.
  unfold enter_open, call_close. rewrite Hlk, Htype, Z.eqb_refl.
  repeat case_match; simplify_eq; simpl; rewrite <- ?app_assoc; simpl;
    (split; [done|]); (split; [eexists; f_equal; f_equal; reflexivity|lia]).
Qed.

(** The count along a run that can always make room. *)
Lemma run_filecount st ops :
  0 ≤ lookup_open_max → open_filecount st ≤ lookup_open_max → evictable st ops →
  open_filecount (run st ops) ≤ lookup_open_max.
Proof.
  intros Hmax. revert st. induction ops as [|o ops IH]; intros st Hle Hev; [done|].
  destruct Hev as [Hcap Hev]. apply IH; [|done].
  destruct o; simpl in *.
  - by apply search_open_filecount.
  - pose proof (step_find_filecount st handle filename keystring partial affix affixlen
                  starflags expand_setup opts) as Hf.
    simpl in Hf. by rewrite Hf.
  - by rewrite search_tidyup_filecount.
Qed.

Lemma evictable_take st ops k : evictable st ops → evictable st (take k ops).
Proof.
  revert st k. induction ops as [|o ops IH]; intros st [|k]; simpl; try done.
  intros [Hcap Hev]. split; [done|]. by apply IH.
Qed.


(** ** The LRU chain *)

Local Open Scope list_scope.

Lemma fn_upd_eq next i v : fn_upd next i v i = v.
Proof. unfold fn_upd. by rewrite decide_True. Qed.

Lemma fn_upd_ne next i v j : j ≠ i → fn_upd next i v j = next j.
Proof. intros Hne. unfold fn_upd. by rewrite decide_False. Qed.

Lemma is_seg_ext next next' s L e :
  (∀ i, i ∈ L → next' i = next i) → is_seg next s L e → is_seg next' s L e.
Proof.
  revert s. induction L as [|i L IH]; intros s Hext; simpl; [done|].
  intros [-> Hseg]. split; [done|].
  rewrite Hext by apply list_elem_of_here.
  apply IH; [|done]. intros j Hj. apply Hext. by apply list_elem_of_further.
Qed.

Lemma is_seg_app next s L1 L2 e :
  is_seg next s (L1 ++ L2) e ↔ ∃ m, is_seg next s L1 m ∧ is_seg next m L2 e.
Proof.
  revert s. induction L1 as [|i L1 IH]; intros s; simpl.
  - split; [intros; by exists s|by intros (m & -> & ?)].
  - rewrite IH. split.
    + intros (-> & m & ? & ?). by exists m.
    + intros (m & (-> & ?) & ?). split; [done|by exists m].
Qed.

Lemma is_seg_snoc next s L u e :
  is_seg next s (L ++ [u]) e ↔ is_seg next s L (Some u) ∧ next u = e.
Proof.
  rewrite is_seg_app. simpl. split.
  - by intros (m & ? & -> & ?).
  - intros [? ?]. by exists (Some u).
Qed.

Lemma is_seg_head next s L : is_seg next s L None → s = head L.
Proof. destruct L; simpl; [done|by intros [-> _]]. Qed.

Lemma chain_ext top bot up down up' down' L :
  (∀ i, i ∈ L → up' i = up i) → (∀ i, i ∈ L → down' i = down i) →
  chain top bot up down L → chain top bot up' down' L.
Proof.
  intros Hup Hdown [Hnd Hd Hu]. split; [done| |].
  - by apply (is_seg_ext down).
  - apply (is_seg_ext up); [|done]. intros i Hi. apply Hup. by rewrite <- elem_of_reverse.
Qed.

Lemma chain_bot top bot up down L : chain top bot up down L → bot = last L.
Proof. intros [_ _ Hu]. apply is_seg_head in Hu. by rewrite head_reverse in Hu. Qed.

Lemma chain_top top bot up down L : chain top bot up down L → top = head L.
Proof. intros [_ Hd _]. by apply is_seg_head in Hd. Qed.

(** Putting a slot that is not on the chain at its head. *)
Lemma chain_push top bot up down L t :
  chain top bot up down L → t ∉ L →
  chain (Some t)
        (match top with Some _ => bot | None => Some t end)
        (match top with
         | Some a => fn_upd (fn_upd up t None) a (Some t)
         | None => fn_upd up t None
         end)
        (fn_upd down t top) (t :: L).
Proof.
  intros [Hnd Hd Hu] Ht. destruct L as [|a L].
  - simpl in Hd. subst top. split.
    + apply NoDup_singleton.
    + simpl. by rewrite fn_upd_eq.
    + simpl. by rewrite fn_upd_eq.
  - destruct Hd as [-> Hd]. apply NoDup_cons in Hnd as [Ha Hnd].
    apply not_elem_of_cons in Ht as [Hta Ht].
    split.
    + apply NoDup_cons. split; [|by apply NoDup_cons].
      apply not_elem_of_cons. done.
    + simpl. split; [done|]. rewrite fn_upd_eq. split; [done|].
      rewrite fn_upd_ne by congruence.
      apply (is_seg_ext down); [|done]. intros i Hi. apply fn_upd_ne. by intros ->.
    + rewrite !reverse_cons in *. apply is_seg_snoc in Hu as [Hu Hua].
      apply is_seg_snoc. split.
      * apply is_seg_snoc. split; [|by rewrite fn_upd_eq].
        apply (is_seg_ext up); [|done]. intros i Hi. rewrite elem_of_reverse in Hi.
        by rewrite !fn_upd_ne by (intros ->; done).
      * rewrite fn_upd_ne by done. by rewrite fn_upd_eq.
Qed.

(** Cutting slot [t], which follows slot [u], out of the chain. *)
Lemma chain_cut top bot up down A u t B :
  chain top bot up down (A ++ u :: t :: B) →
  up t = Some u ∧
  chain top
        (match down t with Some _ => bot | None => Some u end)
        (match down t with Some d => fn_upd up d (Some u) | None => up end)
        (fn_upd down u (down t)) (A ++ u :: B).
Proof.
  intros [Hnd Hd Hu].
  apply NoDup_app in Hnd as (HndA & HAB & Hnd).
  apply NoDup_cons in Hnd as [Hu' Hnd]. apply NoDup_cons in Hnd as [Ht' HndB].
  apply not_elem_of_cons in Hu' as [Hut HuB'].
  apply is_seg_app in Hd as (m & HdA & Hd). simpl in Hd.
  destruct Hd as (-> & Hdu & HdB).
  rewrite reverse_app, !reverse_cons, <- !app_assoc in Hu. simpl in Hu.
  apply is_seg_app in Hu as (m & HuB & Hu). simpl in Hu.
  destruct Hu as (-> & Hut' & HuA).
  assert (u ∉ A) as HuA'.
  { intros Hin. apply (HAB u Hin). apply list_elem_of_here. }
  assert (∀ i, i ∈ B → i ∉ A) as HBA.
  { intros i HiB HiA. apply (HAB i HiA). by do 2 apply list_elem_of_further. }
  split; [done|].
  assert (NoDup (A ++ u :: B)) as Hnd'.
  { apply NoDup_app. split; [done|]. split; [|by apply NoDup_cons].
    intros i HiA HiB. apply elem_of_cons in HiB as [->|HiB]; [done|].
    by apply (HBA i). }
  split; [done| |].
  - apply is_seg_app. exists (Some u). split.
    + apply (is_seg_ext down); [|done]. intros i Hi. apply fn_upd_ne. by intros ->.
    + simpl. split; [done|]. rewrite fn_upd_eq.
      apply (is_seg_ext down); [|done]. intros i Hi. apply fn_upd_ne. by intros ->.
  - rewrite reverse_app, reverse_cons, <- app_assoc. simpl.
    destruct B as [|d B].
    + simpl in HdB. rewrite HdB. simpl. done.
    + destruct HdB as [HdB _]. rewrite HdB.
      rewrite reverse_cons in *. apply is_seg_snoc in HuB as [HuB Hud].
      apply NoDup_cons in HndB as [HdB' HndB].
      rewrite <- app_assoc. simpl.
      apply is_seg_app. exists (Some d). split.
      * apply (is_seg_ext up); [|done]. intros i Hi. rewrite elem_of_reverse in Hi.
        apply fn_upd_ne. by intros ->.
      * simpl. split; [done|]. rewrite fn_upd_eq. split; [done|].
        rewrite fn_upd_ne by (intros ->; apply HuB'; apply list_elem_of_here).
        apply (is_seg_ext up); [|done]. intros i Hi. rewrite elem_of_reverse in Hi.
        apply fn_upd_ne. intros ->. apply (HBA d); [apply list_elem_of_here|done].
Qed.

(** Taking the last slot off the chain. *)
Lemma chain_drop_last top bot up down A b :
  chain top bot up down (A ++ [b]) →
  bot = Some b ∧
  chain (match up b with Some _ => top | None => None end) (up b) up
        (match up b with Some u => fn_upd down u None | None => down end) A.
Proof.
  intros [Hnd Hd Hu].
  rewrite reverse_app in Hu. simpl in Hu. destruct Hu as [-> Hu].
  split; [done|].
  apply NoDup_app in Hnd as (HndA & HAb & _).
  apply is_seg_snoc in Hd as [Hd Hdb].
  destruct A as [|a A _] using rev_ind.
  - simpl in Hu. rewrite Hu. split; [done|done|done].
  - rewrite reverse_app in Hu. simpl in Hu. destruct Hu as [Hub Hu].
    rewrite Hub. apply is_seg_snoc in Hd as [Hd Hda].
    apply NoDup_app in HndA as (HndA' & HAa & _).
    split.
    + apply NoDup_app. split; [done|]. split; [done|apply NoDup_singleton].
    + apply is_seg_snoc. split; [|by rewrite fn_upd_eq].
      apply (is_seg_ext down); [|done]. intros i Hi. apply fn_upd_ne.
      intros ->. apply (HAa a Hi). apply list_elem_of_here.
    + rewrite reverse_app. simpl. by split.
Qed.

(** The slots after an assignment through one of them. *)
Lemma node_update t f st i :
  search_tree (update_cache t f st) !! i
  = if decide (i = t)
    then (λ n, {| t_name := t_name n; t_data := f (t_data n) |}) <$> search_tree st !! i
    else search_tree st !! i.
Proof.
  unfold update_cache. simpl. destruct (decide (i = t)) as [->|Hne].
  - by rewrite list_lookup_alter_eq.
  - rewrite list_lookup_alter_ne; [done|congruence].
Qed.

Lemma node_update_is_Some t f st i :
  is_Some (search_tree (update_cache t f st) !! i) ↔ is_Some (search_tree st !! i).
Proof.
  rewrite node_update. destruct (decide (i = t)); [|done].
  by rewrite fmap_is_Some.
Qed.

Lemma up_of_update t f st i :
  up_of (update_cache t f st) i
  = if decide (i = t) then cache_at st i ≫= (λ c, c_up (f c)) else up_of st i.
Proof.
  unfold up_of, cache_at. rewrite node_update. destruct (decide (i = t)); [|done].
  by destruct (search_tree st !! i).
Qed.

Lemma down_of_update t f st i :
  down_of (update_cache t f st) i
  = if decide (i = t) then cache_at st i ≫= (λ c, c_down (f c)) else down_of st i.
Proof.
  unfold down_of, cache_at. rewrite node_update. destruct (decide (i = t)); [|done].
  by destruct (search_tree st !! i).
Qed.

Lemma up_of_with_up t v st i :
  is_Some (search_tree st !! t) →
  up_of (update_cache t (with_up v) st) i = fn_upd (up_of st) t v i.
Proof.
  intros [n Hn]. rewrite up_of_update. unfold fn_upd, cache_at.
  destruct (decide (i = t)) as [->|]; [|done]. by rewrite Hn.
Qed.

Lemma down_of_with_down t v st i :
  is_Some (search_tree st !! t) →
  down_of (update_cache t (with_down v) st) i = fn_upd (down_of st) t v i.
Proof.
  intros [n Hn]. rewrite down_of_update. unfold fn_upd, cache_at.
  destruct (decide (i = t)) as [->|]; [|done]. by rewrite Hn.
Qed.

Lemma up_of_keep t f st i :
  (∀ c, c_up (f c) = c_up c) → up_of (update_cache t f st) i = up_of st i.
Proof.
  intros Hf. rewrite up_of_update. destruct (decide (i = t)); [|done].
  unfold up_of. destruct (cache_at st i); simpl; [apply Hf|done].
Qed.

Lemma down_of_keep t f st i :
  (∀ c, c_down (f c) = c_down c) → down_of (update_cache t f st) i = down_of st i.
Proof.
  intros Hf. rewrite down_of_update. destruct (decide (i = t)); [|done].
  unfold down_of. destruct (cache_at st i); simpl; [apply Hf|done].
Qed.

Lemma counting_update t f st i :
  counting (update_cache t f st) i ↔
  ∃ n, search_tree st !! i = Some n ∧
       is_Some (c_handle (if decide (i = t) then f (t_data n) else t_data n)) ∧
       absfile_name (t_name n) = true.
Proof.
  unfold counting. rewrite node_update. destruct (decide (i = t)) as [->|]; [|done].
  destruct (search_tree st !! t) as [n|]; simpl.
  - split.
    + intros (n' & [= <-] & Hh & Ha). by exists n.
    + intros (n' & [= <-] & Hh & Ha). by eexists.
  - split; by intros (n' & ? & _).
Qed.

Lemma counting_keep t f st i :
  (∀ c, c_handle (f c) = c_handle c) → counting (update_cache t f st) i ↔ counting st i.
Proof.
  intros Hf. rewrite counting_update. unfold counting.
  split; intros (n & Hn & Hh & Ha); exists n; (split; [done|]); (split; [|done]).
  - destruct (decide (i = t)); [by rewrite Hf in Hh|done].
  - destruct (decide (i = t)); [by rewrite Hf|done].
Qed.

Lemma live_update t f st i :
  live (update_cache t f st) i ↔
  ∃ c, cache_at st i = Some c ∧ is_Some (c_handle (if decide (i = t) then f c else c)).
Proof.
  unfold live, cache_at. rewrite node_update. destruct (decide (i = t)) as [->|]; [|done].
  destruct (search_tree st !! t) as [n|]; simpl.
  - split.
    + intros (c & [= <-] & Hh). by eexists.
    + intros (c & [= <-] & Hh). by eexists.
  - split; by intros (c & ? & _).
Qed.

(** The chain and the count are functions of [links]. *)
Lemma links_views st st' :
  links st = links st' →
  open_top st = open_top st' ∧ open_bot st = open_bot st' ∧
  open_filecount st = open_filecount st' ∧
  (∀ i, up_of st i = up_of st' i) ∧ (∀ i, down_of st i = down_of st' i) ∧
  (∀ i, counting st i ↔ counting st' i) ∧ (∀ i, live st i ↔ live st' i) ∧
  (∀ i, link_view <$> search_tree st !! i = link_view <$> search_tree st' !! i).
Proof.
  unfold links. intros [= Ht Hb Hc Hv].
  assert (∀ i, link_view <$> search_tree st !! i = link_view <$> search_tree st' !! i)
    as Hi.
  { intros i. by rewrite <- !list_lookup_fmap, Hv. }
  split; [done|]. split; [done|]. split; [done|].
  unfold up_of, down_of, counting, live, cache_at.
  split; [|split; [|split; [|split; [|done]]]]; intros i; specialize (Hi i);
    destruct (search_tree st !! i) as [n|], (search_tree st' !! i) as [n'|];
    try done; unfold link_view in Hi; simpl in *; simplify_eq; try done.
  - split; intros (m & [= <-] & Hh & Ha); eexists; (split; [done|]); split; congruence.
  - split; intros (m & [= <-] & Hh); eexists; (split; [done|]); congruence.
Qed.

Lemma chain_inv_links x st st' L F :
  links st = links st' → chain_inv_but x st L F → chain_inv_but x st' L F.
Proof.
  intros Hl [Hc Hn Hs Hch Hf].
  destruct (links_views _ _ Hl) as (Ht & Hb & Hcnt & Hup & Hdn & Hcg & _).
  split.
  - intros i. rewrite Hc. apply Hcg.
  - by rewrite <- Hcnt.
  - done.
  - rewrite <- Ht, <- Hb.
    apply (chain_ext _ _ (up_of st) (down_of st)); [by intros|by intros|done].
  - intros i HiF HiL Hx. rewrite <- Hup. by apply Hf.
Qed.

Lemma chain_inv_node x st L F i :
  chain_inv_but x st L F → i ∈ F → is_Some (search_tree st !! i).
Proof. intros [Hc _ _ _ _] Hi. apply Hc in Hi as (n & Hn & _). by exists n. Qed.

(** *** Putting a slot at the head *)

Lemma lru_push_fields st t :
  is_Some (search_tree st !! t) →
  (∀ a, open_top st = Some a → is_Some (search_tree st !! a)) →
  open_top (lru_push st t) = Some t ∧
  open_bot (lru_push st t) = match open_top st with Some _ => open_bot st | None => Some t end ∧
  open_filecount (lru_push st t) = open_filecount st ∧
  (∀ i, up_of (lru_push st t) i
        = match open_top st with
          | Some a => fn_upd (fn_upd (up_of st) t None) a (Some t)
          | None => fn_upd (up_of st) t None
          end i) ∧
  (∀ i, down_of (lru_push st t) i = fn_upd (down_of st) t (open_top st) i) ∧
  (∀ i, counting (lru_push st t) i ↔ counting st i).
Proof.
  intros Ht Ha. unfold lru_push. cbn [open_top update_cache set_search_tree].
  destruct (open_top st) as [a|] eqn:Htop.
  - specialize (Ha a eq_refl).
    split; [done|]. split; [done|]. split; [done|].
    split; [|split]; intros i.
    + change (up_of (set_open_top ?v ?s) i) with (up_of s i).
      rewrite up_of_with_up by (by rewrite !node_update_is_Some).
      unfold fn_upd. destruct (decide (i = a)); [done|].
      rewrite up_of_keep by done. by rewrite up_of_with_up.
    + change (down_of (set_open_top ?v ?s) i) with (down_of s i).
      rewrite down_of_keep by done.
      rewrite down_of_with_down by (by rewrite !node_update_is_Some).
      unfold fn_upd. destruct (decide (i = t)); [done|]. by rewrite down_of_keep.
    + change (counting (set_open_top ?v ?s) i) with (counting s i).
      by rewrite !counting_keep.
  - split; [done|]. split; [done|]. split; [done|].
    split; [|split]; intros i.
    + change (up_of (set_open_top ?v (set_open_bot ?v' ?s)) i) with (up_of s i).
      rewrite up_of_keep by done. by apply up_of_with_up.
    + change (down_of (set_open_top ?v (set_open_bot ?v' ?s)) i) with (down_of s i).
      rewrite down_of_with_down by (by rewrite !node_update_is_Some).
      unfold fn_upd. destruct (decide (i = t)); [done|]. by rewrite down_of_keep.
    + change (counting (set_open_top ?v (set_open_bot ?v' ?s)) i) with (counting s i).
      by rewrite !counting_keep.
Qed.

Lemma lru_push_inv st L F t :
  chain_inv_but (Some t) st L F → t ∈ F → t ∉ L →
  chain_inv (lru_push st t) (t :: L) F ∧ open_top (lru_push st t) = Some t.
Proof.
  intros Hinv HtF HtL.
  assert (is_Some (search_tree st !! t)) as Ht by (by eapply chain_inv_node).
  destruct Hinv as [Hc Hn Hs Hch Hf].
  pose proof (chain_top _ _ _ _ _ Hch) as Hhead.
  assert (∀ a, open_top st = Some a → a ∈ L) as HaL.
  { intros a Ha. rewrite Ha in Hhead. symmetry in Hhead.
    apply head_Some in Hhead as [L' ->]. apply list_elem_of_here. }
  assert (∀ a, open_top st = Some a → is_Some (search_tree st !! a)) as Ha.
  { intros a Hta. apply HaL, Hs, Hc in Hta as (n & Hn' & _). by exists n. }
  destruct (lru_push_fields st t Ht Ha) as (Htop & Hbot & Hcnt & Hup & Hdn & Hcg).
  split; [|done]. split.
  - intros i. rewrite Hc. symmetry. apply Hcg.
  - by rewrite Hcnt.
  - intros i [->|Hi]%elem_of_cons; [done|by apply Hs].
  - rewrite Htop, Hbot.
    eapply chain_ext; [intros i _; apply Hup|intros i _; apply Hdn|].
    by apply chain_push.
  - intros i HiF HiL _. apply not_elem_of_cons in HiL as [Hit HiL].
    rewrite Hup. destruct (open_top st) as [a|] eqn:Htop0.
    + rewrite !fn_upd_ne; [apply Hf; [done|done|congruence]|done|].
      intros ->. apply HiL. by apply HaL.
    + rewrite fn_upd_ne by done. apply Hf; [done|done|congruence].
Qed.

(** *** Cutting a slot out *)

Lemma lru_cut_fields st u dn :
  is_Some (search_tree st !! u) →
  (∀ d, dn = Some d → is_Some (search_tree st !! d)) →
  open_top (lru_cut st (Some u) dn) = open_top st ∧
  open_bot (lru_cut st (Some u) dn)
  = match dn with Some _ => open_bot st | None => Some u end ∧
  open_filecount (lru_cut st (Some u) dn) = open_filecount st ∧
  (∀ i, up_of (lru_cut st (Some u) dn) i
        = match dn with Some d => fn_upd (up_of st) d (Some u) | None => up_of st end i) ∧
  (∀ i, down_of (lru_cut st (Some u) dn) i = fn_upd (down_of st) u dn i) ∧
  (∀ i, counting (lru_cut st (Some u) dn) i ↔ counting st i).
Proof.
  intros Hu Hd. unfold lru_cut. destruct dn as [d|].
  - specialize (Hd d eq_refl).
    split; [done|]. split; [done|]. split; [done|].
    split; [|split]; intros i.
    + rewrite up_of_with_up by (by rewrite !node_update_is_Some).
      unfold fn_upd. destruct (decide (i = d)); [done|]. by rewrite up_of_keep.
    + rewrite down_of_keep by done. by apply down_of_with_down.
    + by rewrite !counting_keep.
  - split; [done|]. split; [done|]. split; [done|].
    split; [|split]; intros i.
    + change (up_of (set_open_bot ?v ?s) i) with (up_of s i). by rewrite up_of_keep.
    + change (down_of (set_open_bot ?v ?s) i) with (down_of s i).
      by apply down_of_with_down.
    + change (counting (set_open_bot ?v ?s) i) with (counting s i).
      by rewrite !counting_keep.
Qed.

Lemma lru_cut_inv st A u t B F :
  chain_inv st (A ++ u :: t :: B) F →
  up_of st t = Some u ∧
  chain_inv_but (Some t) (lru_cut st (Some u) (down_of st t)) (A ++ u :: B) F.
Proof.
  intros Hinv.
  assert (∀ i, i ∈ A ++ u :: t :: B → is_Some (search_tree st !! i)) as Hnode.
  { intros i Hi. eapply chain_inv_node; [done|]. destruct Hinv as [_ _ Hs _ _]. by apply Hs. }
  destruct Hinv as [Hc Hn Hs Hch Hf].
  pose proof Hch as [Hnd Hd _].
  destruct (chain_cut _ _ _ _ _ _ _ _ Hch) as [Hut Hch'].
  split; [done|].
  apply is_seg_app in Hd as (m & _ & Hd). simpl in Hd. destruct Hd as (_ & _ & HdB).
  apply is_seg_head in HdB.
  assert (∀ d, down_of st t = Some d → d ∈ B) as HdinB.
  { intros d Hd. rewrite Hd in HdB. symmetry in HdB.
    apply head_Some in HdB as [B' ->]. apply list_elem_of_here. }
  assert (is_Some (search_tree st !! u)) as Hu.
  { apply Hnode. apply elem_of_app. right. apply list_elem_of_here. }
  assert (∀ d, down_of st t = Some d → is_Some (search_tree st !! d)) as Hdn.
  { intros d Hd. apply Hnode. apply elem_of_app. right.
    do 2 apply list_elem_of_further. by apply HdinB. }
  destruct (lru_cut_fields st u (down_of st t) Hu Hdn)
    as (Htop & Hbot & Hcnt & Hup & Hdown & Hcg).
  assert (∀ i, i ∈ A ++ u :: B → i ∈ A ++ u :: t :: B) as Hsub.
  { intros i. rewrite !elem_of_app, !elem_of_cons. tauto. }
  split.
  - intros i. rewrite Hc. symmetry. apply Hcg.
  - by rewrite Hcnt.
  - intros i Hi. by apply Hs, Hsub.
  - rewrite Htop, Hbot.
    eapply chain_ext; [intros i _; apply Hup|intros i _; apply Hdown|done].
  - intros i HiF HiL Hit. rewrite Hup.
    assert (i ∉ A ++ u :: t :: B) as HiL'.
    { intros Hi. apply HiL. revert Hi. rewrite !elem_of_app, !elem_of_cons.
      intros [?|[?|[->|?]]]; tauto. }
    destruct (down_of st t) as [d|] eqn:Hd; [|by apply Hf].
    rewrite fn_upd_ne; [by apply Hf|].
    intros ->. apply HiL. apply elem_of_app. right. apply list_elem_of_further.
    by apply HdinB.
Qed.

(** search_find's block keeps the invariant and leaves the slot at the top,
    if the slot is open. *)
Lemma lru_promote_inv st L F t :
  chain_inv st L F → live st t →
  ∃ L', chain_inv (lru_promote st t) L' F ∧
        (counting st t → open_top (lru_promote st t) = Some t).
Proof.
  intros Hinv (c & Hc & Hh). unfold lru_promote, cache_at in *.
  destruct (search_tree st !! t) as [n|] eqn:Hn; [|done].
  simpl in Hc. injection Hc as <-.
  destruct (bool_decide (open_top st = Some t)) eqn:Htop; simpl.
  { exists L. split; [done|]. intros _. by apply bool_decide_eq_true in Htop. }
  apply bool_decide_eq_false in Htop.
  destruct (absfile_name (t_name n)) eqn:Habs; simpl.
  2:{ exists L. split; [done|]. intros (n' & Hn' & _ & Ha). congruence. }
  assert (t ∈ F) as HtF.
  { destruct Hinv as [Hcg _ _ _ _]. apply Hcg. by exists n. }
  assert (up_of st t = c_up (t_data n)) as Hupt.
  { unfold up_of, cache_at. by rewrite Hn. }
  assert (down_of st t = c_down (t_data n)) as Hdnt.
  { unfold down_of, cache_at. by rewrite Hn. }
  rewrite <- Hupt, <- Hdnt.
  destruct (decide (t ∈ L)) as [HtL|HtL].
  - apply list_elem_of_split in HtL as (A0 & B & ->).
    destruct A0 as [|u A _] using rev_ind.
    { destruct Hinv as [_ _ _ Hch _]. apply chain_top in Hch. simpl in Hch. done. }
    rewrite <- app_assoc in Hinv. simpl in Hinv.
    assert (NoDup (A ++ u :: t :: B)) as Hnd.
    { by destruct Hinv as [_ _ _ [Hnd _ _] _]. }
    destruct (lru_cut_inv _ _ _ _ _ _ Hinv) as [-> Hinv'].
    destruct (lru_push_inv _ _ _ t Hinv' HtF) as [Hinv'' Htop''].
    { apply NoDup_app in Hnd as (_ & HAB & Hnd').
      apply NoDup_cons in Hnd' as [Hu Hnd']. apply NoDup_cons in Hnd' as [Ht _].
      apply not_elem_of_cons in Hu as [Hut _].
      rewrite elem_of_app, elem_of_cons. intros [HA|[->|HB]]; [|done|done].
      apply (HAB t HA). apply list_elem_of_further, list_elem_of_here. }
    eexists. split; [exact Hinv''|done].
  - assert (up_of st t = None) as ->.
    { destruct Hinv as [_ _ _ _ Hf]. by apply Hf. }
    simpl. destruct (lru_push_inv st L F t) as [Hinv'' Htop'']; [|done|done|].
    { destruct Hinv as [? ? ? ? Hf]. split; try done.
      intros i ? ? _. by apply Hf. }
    eexists. split; [exact Hinv''|done].
Qed.

(** *** Closing the least recently used file *)

Lemma counting_live st i : counting st i → live st i.
Proof.
  intros (n & Hn & Hh & _). exists (t_data n). split; [|done].
  unfold cache_at. by rewrite Hn.
Qed.

Lemma call_close_links search_type handle st :
  links (call_close search_type handle st) = links st.
Proof. unfold call_close. by repeat case_match. Qed.

Lemma unopened_links st st' t keybuffer :
  links st = links st' → unopened st t keybuffer → unopened st' t keybuffer.
Proof.
  intros Hl. destruct (links_views _ _ Hl) as (_ & _ & _ & _ & _ & _ & _ & Hv).
  destruct t as [i|]; [|done]. unfold unopened. intros (n & Hn & Hname & Hh).
  specialize (Hv i). rewrite Hn in Hv.
  destruct (search_tree st' !! i) as [n'|]; [|done].
  unfold link_view in Hv. simpl in Hv. simplify_eq.
  exists n'. split; [done|]. split; congruence.
Qed.

Lemma unopened_update b f st t keybuffer :
  (∀ c, c_handle c = None → c_handle (f c) = None) →
  unopened st t keybuffer → unopened (update_cache b f st) t keybuffer.
Proof.
  intros Hf. destruct t as [i|]; [|done]. unfold unopened. intros (n & Hn & Hname & Hh).
  rewrite node_update, Hn. destruct (decide (i = b)); simpl.
  - eexists. split; [done|]. simpl. split; [done|by apply Hf].
  - by exists n.
Qed.

Lemma evict_lru_fields st b c :
  open_bot st = Some b → cache_at st b = Some c →
  (∀ u, c_up c = Some u → is_Some (search_tree st !! u)) →
  open_top (evict_lru st) = match c_up c with Some _ => open_top st | None => None end ∧
  open_bot (evict_lru st) = c_up c ∧
  open_filecount (evict_lru st) = open_filecount st - 1 ∧
  (∀ i, up_of (evict_lru st) i = up_of st i) ∧
  (∀ i, down_of (evict_lru st) i
        = match c_up c with Some u => fn_upd (down_of st) u None | None => down_of st end i) ∧
  (∀ i, counting (evict_lru st) i ↔ counting st i ∧ i ≠ b) ∧
  (∀ t keybuffer, unopened st t keybuffer → unopened (evict_lru st) t keybuffer).
Proof.
  intros Hb Hc Hu. unfold evict_lru. rewrite Hb, Hc. cbn zeta.
  set (st2 := match c_up c with
              | Some u => update_cache u (with_down None) (set_open_bot (c_up c) st)
              | None => set_open_top None (set_open_bot (c_up c) st)
              end).
  pose proof (call_close_links (c_search_type c) (c_handle c) st2) as Hl.
  destruct (links_views _ _ Hl) as (Httop & Hbot & Hcnt & Hup & Hdn & Hcg & _ & _).
  set (st3 := call_close (c_search_type c) (c_handle c) st2) in *.
  cbn [open_top open_bot open_filecount update_cache set_search_tree set_open_filecount].
  assert (open_top st2 = match c_up c with Some _ => open_top st | None => None end) as Ht2.
  { unfold st2. by destruct (c_up c). }
  assert (open_bot st2 = c_up c) as Hb2.
  { unfold st2. by destruct (c_up c). }
  assert (open_filecount st2 = open_filecount st) as Hc2.
  { unfold st2. by destruct (c_up c). }
  assert (∀ i, up_of st2 i = up_of st i) as Hup2.
  { intros i. unfold st2. destruct (c_up c); [|done].
    by rewrite up_of_keep. }
  assert (∀ i, down_of st2 i
               = match c_up c with Some u => fn_upd (down_of st) u None | None => down_of st end i)
    as Hdn2.
  { intros i. unfold st2. destruct (c_up c) as [u|]; [|done].
    rewrite down_of_with_down; [done|]. by apply Hu. }
  assert (∀ i, counting st2 i ↔ counting st i) as Hcg2.
  { intros i. unfold st2. destruct (c_up c); [|done]. by rewrite counting_keep. }
  split; [congruence|]. split; [congruence|]. split; [congruence|].
  split; [|split; [|split]].
  - intros i.
    change (up_of (set_open_filecount ?v ?s) i) with (up_of s i).
    rewrite up_of_keep by done. by rewrite Hup.
  - intros i.
    change (down_of (set_open_filecount ?v ?s) i) with (down_of s i).
    rewrite down_of_keep by done. by rewrite Hdn.
  - intros i.
    change (counting (set_open_filecount ?v ?s) i) with (counting s i).
    rewrite counting_update. rewrite <- Hcg2, <- Hcg. unfold counting. split.
    + intros (n & Hn & Hh & Ha). destruct (decide (i = b)).
      { simpl in Hh. by destruct Hh. }
      split; [by exists n|done].
    + intros [(n & Hn & Hh & Ha) Hne]. exists n. by rewrite decide_False.
  - intros t keybuffer Hun.
    change (unopened (set_open_filecount ?v ?s) t keybuffer) with (unopened s t keybuffer).
    apply unopened_update; [done|].
    apply (unopened_links st2); [done|].
    unfold st2. destruct (c_up c); [by apply unopened_update|done].
Qed.

Lemma evict_lru_inv st L F :
  chain_inv st L F →
  ∃ L' F', chain_inv (evict_lru st) L' F' ∧
           (∀ t keybuffer, unopened st t keybuffer → unopened (evict_lru st) t keybuffer).
Proof.
  intros Hinv. destruct (open_bot st) as [b|] eqn:Hb.
  2:{ exists L, F. unfold evict_lru. rewrite Hb. split; [|done].
      by apply (chain_inv_links _ st). }
  pose proof Hinv as [Hc Hn Hs Hch Hf].
  pose proof (chain_bot _ _ _ _ _ Hch) as Hlast. rewrite Hb in Hlast. symmetry in Hlast.
  apply last_Some in Hlast as [A ->].
  assert (b ∈ F) as HbF.
  { apply Hs. apply elem_of_app. right. apply list_elem_of_here. }
  destruct (proj1 (Hc b) HbF) as (n & Hnb & Hh & Ha).
  assert (cache_at st b = Some (t_data n)) as Hcb.
  { unfold cache_at. by rewrite Hnb. }
  destruct (chain_drop_last _ _ _ _ _ _ Hch) as [_ Hch'].
  assert (up_of st b = c_up (t_data n)) as Hupb.
  { unfold up_of. by rewrite Hcb. }
  assert (∀ u, c_up (t_data n) = Some u → u ∈ A) as HuA.
  { intros u Hu. rewrite Hupb, Hu in Hch'. destruct Hch' as [_ _ Hup'].
    apply is_seg_head in Hup'. rewrite head_reverse in Hup'. symmetry in Hup'.
    apply last_Some in Hup' as [A' ->]. apply elem_of_app. right. apply list_elem_of_here. }
  destruct (evict_lru_fields st b (t_data n) Hb Hcb)
    as (Htop & Hbot & Hcnt & Hup & Hdn & Hcg & Hun).
  { intros u Hu. eapply chain_inv_node; [done|]. apply Hs, elem_of_app. left. by apply HuA. }
  exists A, (F ∖ {[b]}). split; [|done].
  assert (b ∉ A) as HbA.
  { destruct Hch as [Hnd _ _]. apply NoDup_app in Hnd as (_ & Hnd & _).
    intros Hin. apply (Hnd b Hin). apply list_elem_of_here. }
  split.
  - intros i. by rewrite Hcg, <- Hc, elem_of_difference, not_elem_of_singleton.
  - rewrite Hcnt, Hn. rewrite size_difference by (by apply singleton_subseteq_l).
    rewrite size_singleton.
    assert (1 ≤ size F)%nat; [|lia].
    rewrite <- (size_singleton (C:=gset nat) b). apply subseteq_size.
    by apply singleton_subseteq_l.
  - intros i Hi. apply elem_of_difference. split.
    + apply Hs, elem_of_app. by left.
    + apply not_elem_of_singleton. by intros ->.
  - rewrite Htop, Hbot, <- Hupb.
    eapply chain_ext; [intros i _; apply Hup| |exact Hch'].
    intros i _. rewrite Hdn. by rewrite Hupb.
  - intros i HiF HiA _. rewrite Hup. apply elem_of_difference in HiF as [HiF Hib].
    apply not_elem_of_singleton in Hib.
    apply Hf; [done| |done]. rewrite elem_of_app, list_elem_of_singleton. tauto.
Qed.

(** *** Entering an opened file *)

Lemma enter_open_fields st lk t keybuffer search_type handle :
  unopened st t keybuffer →
  ∃ t', (enter_open st lk t keybuffer search_type handle).1 = Some t' ∧
    open_top (enter_open st lk t keybuffer search_type handle).2 = open_top st ∧
    open_bot (enter_open st lk t keybuffer search_type handle).2 = open_bot st ∧
    open_filecount (enter_open st lk t keybuffer search_type handle).2
    = open_filecount st + (if lk_type lk =? lookup_absfile then 1 else 0) ∧
    (∀ i, i ≠ t' →
       search_tree (enter_open st lk t keybuffer search_type handle).2 !! i
       = search_tree st !! i) ∧
    (∃ n, search_tree (enter_open st lk t keybuffer search_type handle).2 !! t' = Some n ∧
          t_name n = keybuffer ∧ c_handle (t_data n) = Some handle ∧
          c_up (t_data n) = None ∧ c_down (t_data n) = None) ∧
    ¬ live st t'.
Proof.
  intros Hun. unfold enter_open.
  set (st0 := if lk_type lk =? lookup_absfile
              then set_open_filecount (open_filecount st + 1) st else st).
  assert (search_tree st0 = search_tree st) as Htree.
  { unfold st0. by destruct (lk_type lk =? lookup_absfile). }
  assert (open_top st0 = open_top st) as Htop.
  { unfold st0. by destruct (lk_type lk =? lookup_absfile). }
  assert (open_bot st0 = open_bot st) as Hbot.
  { unfold st0. by destruct (lk_type lk =? lookup_absfile). }
  assert (open_filecount st0
          = open_filecount st + (if lk_type lk =? lookup_absfile then 1 else 0)) as Hcnt.
  { unfold st0. destruct (lk_type lk =? lookup_absfile); simpl; lia. }
  clearbody st0. destruct t as [t|].
  - destruct Hun as (n & Hn & Hname & Hh). exists t. cbn [fst snd].
    split; [done|]. split; [done|]. split; [done|]. split; [done|].
    split; [|split].
    + intros i Hi. rewrite !node_update, !decide_False by done. by rewrite Htree.
    + rewrite !node_update, !decide_True by done. rewrite Htree, Hn. simpl.
      eexists. split; [done|]. done.
    + intros (c & Hc & Hl). unfold cache_at in Hc. rewrite Hn in Hc.
      simpl in Hc. injection Hc as <-. rewrite Hh in Hl. by destruct Hl.
  - exists (length (search_tree st0)). cbn [fst snd].
    split; [done|]. split; [done|]. split; [done|]. split; [done|].
    split; [|split].
    + intros i Hi. rewrite !node_update, !decide_False by done. simpl.
      rewrite Htree in *. destruct (decide (i < length (search_tree st))%nat).
      * by rewrite lookup_app_l.
      * rewrite !lookup_ge_None_2; [done|lia|]. rewrite length_app. simpl. lia.
    + rewrite !node_update, !decide_True by done. simpl.
      rewrite list_lookup_middle by done. simpl.
      eexists. split; [done|]. done.
    + intros (c & Hc & _). unfold cache_at in Hc. rewrite <- Htree in Hc.
      rewrite lookup_ge_None_2 in Hc; [done|lia].
Qed.

Lemma enter_open_inv st L F lk t keybuffer search_type handle :
  chain_inv st L F → unopened st t keybuffer →
  absfile_name keybuffer = (lk_type lk =? lookup_absfile) →
  ∃ t' F',
    (enter_open st lk t keybuffer search_type handle).1 = Some t' ∧
    chain_inv (enter_open st lk t keybuffer search_type handle).2 L F' ∧
    (t' ∉ L) ∧ (lk_type lk = lookup_absfile → t' ∈ F').
Proof.
  intros Hinv Hun Habs.
  destruct (enter_open_fields st lk t keybuffer search_type handle Hun)
    as (t' & Hres & Htop & Hbot & Hcnt & Hother & (n & Hn & Hname & Hh & Hup & Hdn) & Hnl).
  destruct Hinv as [Hc Hsz Hs Hch Hf].
  assert (t' ∉ F) as HtF.
  { intros Hin. apply Hnl, counting_live. by apply Hc. }
  assert (t' ∉ L) as HtL by (intros Hin; by apply HtF, Hs).
  set (st' := (enter_open st lk t keybuffer search_type handle).2) in *.
  assert (∀ i, i ≠ t' → up_of st' i = up_of st i) as Hup'.
  { intros i Hi. unfold up_of, cache_at. by rewrite Hother. }
  assert (∀ i, i ≠ t' → down_of st' i = down_of st i) as Hdn'.
  { intros i Hi. unfold down_of, cache_at. by rewrite Hother. }
  assert (∀ i, i ≠ t' → (counting st' i ↔ counting st i)) as Hcg'.
  { intros i Hi. unfold counting. by rewrite Hother. }
  assert (counting st' t' ↔ lk_type lk = lookup_absfile) as Hcgt.
  { unfold counting. rewrite Hn. split.
    - intros (n' & [= <-] & _ & Ha). rewrite Hname, Habs in Ha. lia.
    - intros Hty. exists n. split; [done|]. split; [by rewrite Hh|].
      rewrite Hname, Habs. lia. }
  exists t', (if lk_type lk =? lookup_absfile then F ∪ {[t']} else F).
  split; [done|]. split; [|split; [done|]].
  2:{ intros ->. rewrite Z.eqb_refl. apply elem_of_union. right. by apply elem_of_singleton. }
  split.
  - intros i. destruct (decide (i = t')) as [->|Hi].
    + rewrite Hcgt. destruct (lk_type lk =? lookup_absfile) eqn:Hty.
      * split; [lia|]. intros _. apply elem_of_union. right. by apply elem_of_singleton.
      * split; [done|lia].
    + rewrite Hcg' by done. rewrite <- Hc.
      destruct (lk_type lk =? lookup_absfile); [|done].
      rewrite elem_of_union, elem_of_singleton. split; [by intros [?|?]|by left].
  - rewrite Hcnt, Hsz. destruct (lk_type lk =? lookup_absfile); [|lia].
    rewrite size_union by (by apply disjoint_singleton_r). rewrite size_singleton. lia.
  - intros i Hi. apply Hs in Hi. destruct (lk_type lk =? lookup_absfile); [|done].
    apply elem_of_union. by left.
  - rewrite Htop, Hbot. eapply chain_ext; [| |exact Hch].
    + intros i Hi. apply Hup'. by intros ->.
    + intros i Hi. apply Hdn'. by intros ->.
  - intros i HiF HiL _. destruct (decide (i = t')) as [->|Hi].
    + unfold up_of, cache_at. by rewrite Hn.
    + rewrite Hup' by done. apply Hf; [|done|done].
      destruct (lk_type lk =? lookup_absfile); [|done].
      apply elem_of_union in HiF as [?|?%elem_of_singleton]; done.
Qed.

(** *** search_open *)

(** The first byte of the name of a slot tells the type of its driver, in
    a registry of at most 208 drivers (the byte is the type plus '0'). *)
Lemma absfile_keybuffer search_type filename lk :
  lookup_list_count ≤ 208 → lookup_list_at search_type = Some lk →
  absfile_name (keybuffer_of search_type filename) = (lk_type lk =? lookup_absfile).
Proof.
  intros Hcount Hlk. pose proof Hlk as Hlk'. unfold lookup_list_at in Hlk'.
  destruct (search_type <? 0) eqn:Hneg; [done|]. apply lookup_lt_Some in Hlk'.
  unfold lookup_list_count in Hcount.
  assert (0 ≤ search_type < 208) as Hrange by lia.
  unfold keybuffer_of. rewrite Z.mod_small by lia.
  assert (code (ascii_of_N (Z.to_N (search_type + 48))) = search_type + 48) as Hcode.
  { unfold code. rewrite N_ascii_embedding by lia. lia. }
  destruct (Ascii.eqb _ NUL) eqn:He.
  { apply Ascii.eqb_eq in He. rewrite He in Hcode. unfold code in Hcode.
    simpl in Hcode. lia. }
  unfold absfile_name, peek. rewrite Hcode.
  replace (search_type + 48 - 48) with search_type by lia. by rewrite Hlk.
Qed.

Lemma tree_search_Some tree name i :
  tree_search tree name = Some i → ∃ n, tree !! i = Some n ∧ t_name n = name.
Proof.
  unfold tree_search. intros Hf. apply fmap_Some in Hf as ([j n] & Hfind & ->).
  apply list_find_Some in Hfind as (Hn & Hname & _). by exists n.
Qed.

Lemma search_open_inv st L F filename search_type modemask owners owngroups :
  lookup_list_count ≤ 208 → chain_inv st L F →
  ∃ L' F',
    chain_inv (search_open st filename search_type modemask owners owngroups).2 L' F' ∧
    ∀ t lk,
      (search_open st filename search_type modemask owners owngroups).1 = Some t →
      ¬ live st t → lookup_list_at search_type = Some lk → lk_type lk = lookup_absfile →
      t ∈ F' ∧ (t ∉ L') ∧
      (open_filecount st < lookup_open_max →
       L' = L ∧
       open_filecount (search_open st filename search_type modemask owners owngroups).2
       = open_filecount st + 1).
Proof.
  intros Hcount Hinv. unfold search_open.
  destruct (lookup_list_at search_type) as [lk|] eqn:Hlk.
  2:{ exists L, F. split; [done|]. by intros. }
  destruct (filename ≫= _) as [f|].
  { exists L, F. split; [by apply (chain_inv_links _ st)|]. by intros. }
  pose proof (absfile_keybuffer search_type filename lk Hcount Hlk) as Habs.
  remember (keybuffer_of search_type filename) as kb eqn:Hkb.
  remember (tree_search (search_tree st) kb) as t eqn:Ht.
  destruct ((t ≫= cache_at st) ≫= c_handle) as [h|] eqn:Hcached.
  { exists L, F. split; [done|]. intros t' lk' Hres Hnl. exfalso. apply Hnl.
    simpl in Hres. rewrite Hres in Hcached. simpl in Hcached.
    destruct (cache_at st t') as [c|] eqn:Hct; [|done]. exists c. split; [done|].
    simpl in Hcached. by rewrite Hcached. }
  assert (unopened st t kb) as Hun.
  { destruct t as [i|]; [|done]. symmetry in Ht.
    apply tree_search_Some in Ht as (n & Hn & Hname). exists n.
    split; [done|]. split; [done|]. simpl in Hcached. unfold cache_at in Hcached.
    by rewrite Hn in Hcached. }
  clear Ht Hcached.
  set (st1 := if (lk_type lk =? lookup_absfile) && (open_filecount st >=? lookup_open_max)
              then evict_lru st else st).
  assert (∃ L1 F1, chain_inv st1 L1 F1 ∧ unopened st1 t kb ∧
            (open_filecount st < lookup_open_max →
             L1 = L ∧ open_filecount st1 = open_filecount st))
    as (L1 & F1 & Hinv1 & Hun1 & Hsame).
  { unfold st1. destruct (lk_type lk =? lookup_absfile); simpl.
    - destruct (open_filecount st >=? lookup_open_max) eqn:Hcap.
      + destruct (evict_lru_inv st L F Hinv) as (L1 & F1 & Hinv1 & Hun1).
        exists L1, F1. split; [done|]. split; [by apply Hun1|]. lia.
      + by exists L, F.
    - by exists L, F. }
  clearbody st1.
  assert (∀ st3 handle, links st1 = links st3 →
            ∃ L' F',
              chain_inv (enter_open st3 lk t kb search_type handle).2 L' F' ∧
              ∀ t' lk',
                (enter_open st3 lk t kb search_type handle).1 = Some t' →
                ¬ live st t' → Some lk = Some lk' → lk_type lk' = lookup_absfile →
                t' ∈ F' ∧ (t' ∉ L') ∧
                (open_filecount st < lookup_open_max →
                 L' = L ∧
                 open_filecount (enter_open st3 lk t kb search_type handle).2
                 = open_filecount st + 1)) as Henter.
  { intros st3 handle Hl.
    destruct (enter_open_inv st3 L1 F1 lk t kb search_type handle)
      as (t' & F' & Hres & Hinv' & HtL & HtF);
      [by apply (chain_inv_links _ st1)|by apply (unopened_links st1)|done|].
    exists L1, F'. split; [done|]. intros t'' lk' Hr _ [= <-] Hty.
    rewrite Hres in Hr. injection Hr as <-.
    split; [by apply HtF|]. split; [done|]. intros Hlt.
    destruct (Hsame Hlt) as [-> Hcnt1]. split; [done|].
    rewrite enter_open_filecount, Hty, Z.eqb_refl.
    apply links_filecount in Hl. lia. }
  assert (∀ st3, links st1 = links st3 →
            ∃ L' F',
              chain_inv st3 L' F' ∧
              ∀ (t' : nat) (lk' : lookup_info),
                @None nat = Some t' →
                ¬ live st t' → Some lk = Some lk' → lk_type lk' = lookup_absfile →
                t' ∈ F' ∧ (t' ∉ L') ∧
                (open_filecount st < lookup_open_max →
                 L' = L ∧ open_filecount st3 = open_filecount st + 1)) as Hfail.
  { intros st3 Hl. exists L1, F1. split; [by apply (chain_inv_links _ st1)|]. by intros. }
  destruct (lk_open lk filename _ _) as [[handle msg] w].
  destruct handle as [handle|]; [|by apply Hfail].
  destruct (lk_check lk) as [check|]; [|by apply Henter].
  destruct (check _ _ _ _ _ _ _) as [[ok msg'] w'].
  destruct ok; [by apply Henter|].
  cbn [fst snd]. apply Hfail. by rewrite call_close_links.
Qed.

(** *** search_tidyup *)

Lemma tidy_hooks_links l st : links (foldl call_tidy st l) = links st.
Proof.
  revert st. induction l as [|x l IH]; intros st; simpl; [done|].
  rewrite IH. unfold call_tidy. by destruct (lk_tidy x.2).
Qed.

Lemma search_tidyup_links st : links (search_tidyup st) = (None, None, 0, []).
Proof.
  unfold search_tidyup. rewrite tidy_hooks_links. unfold links. simpl.
  destruct (search_tree st) eqn:Ht; simpl; by rewrite ?Ht.
Qed.

Lemma chain_inv_empty st : links st = (None, None, 0, []) → chain_inv st [] ∅.
Proof.
  unfold links. intros [= Ht Hb Hc Hv]. apply fmap_nil_inv in Hv.
  split.
  - intros i. split; [by intros ?%elem_of_empty|].
    intros (n & Hn & _). by rewrite Hv in Hn.
  - by rewrite Hc, size_empty.
  - by intros i ?%elem_of_nil.
  - rewrite Ht, Hb. split; [apply NoDup_nil_2|done|done].
  - by intros i ?%elem_of_empty.
Qed.

(** *** Runs *)

Lemma step_inv st L F o :
  lookup_list_count ≤ 208 → chain_inv st L F →
  match o with
  | OpFind handle _ _ _ _ _ _ _ _ => live st handle
  | _ => True
  end →
  ∃ L' F', chain_inv (step st o) L' F'.
Proof.
  intros Hcount Hinv Hlive. destruct o; simpl.
  - destruct (search_open_inv st L F filename search_type modemask owners owngroups
                Hcount Hinv) as (L' & F' & Hinv' & _).
    by exists L', F'.
  - destruct (search_find _ _ _ _ _ _ _ _ _ _) as [r|] eqn:Hr; [|by exists L, F].
    apply search_find_links in Hr.
    destruct (lru_promote_inv st L F handle Hinv Hlive) as (L' & Hinv' & _).
    exists L', F. by apply (chain_inv_links _ (lru_promote st handle)).
  - exists [], ∅. apply chain_inv_empty, search_tidyup_links.
Qed.

Lemma run_inv st L F ops :
  lookup_list_count ≤ 208 → chain_inv st L F → finds_on_open st ops →
  ∃ L' F', chain_inv (run st ops) L' F'.
Proof.
  intros Hcount. revert st L F. induction ops as [|o ops IH]; intros st L F Hinv Hops.
  - by exists L, F.
  - destruct Hops as [Hlive Hops].
    destruct (step_inv st L F o Hcount Hinv Hlive) as (L' & F' & Hinv').
    by apply (IH _ L' F').
Qed.

(** What the invariant says of the chain and the count. *)
Lemma chain_inv_facts st L F :
  chain_inv st L F →
  lru_chain st L ∧ NoDup L ∧ (∀ i, i ∈ L → counting st i) ∧
  Z.of_nat (length L) ≤ open_filecount st ∧
  (Z.of_nat (length L) = open_filecount st ↔ ∀ i, counting st i → i ∈ L) ∧
  (∀ t, t ∈ F → t ∉ L → Z.of_nat (length L) < open_filecount st).
Proof.
  intros [Hc Hn Hs Hch Hf]. pose proof Hch as [Hnd Hd Hu].
  assert (list_to_set L ⊆ F) as Hsub.
  { intros i Hi. apply elem_of_list_to_set in Hi. by apply Hs. }
  pose proof (size_list_to_set (C:=gset nat) L Hnd) as Hlen.
  split; [|split; [done|split; [|split; [|split]]]].
  - split; [done|]. by eapply chain_bot.
  - intros i Hi. by apply Hc, Hs.
  - apply subseteq_size in Hsub. lia.
  - split.
    + intros Heq i Hi. apply Hc in Hi.
      assert (list_to_set L = F) as HLF.
      { apply set_subseteq_size_eq; [done|lia]. }
      rewrite <- HLF in Hi. by apply elem_of_list_to_set in Hi.
    + intros Hall. assert (list_to_set L = F) as HLF.
      { apply set_eq. intros i. split; [apply Hsub|].
        intros Hi. apply elem_of_list_to_set, Hall. by apply Hc. }
      rewrite <- HLF in Hn. lia.
  - intros t HtF HtL. assert (list_to_set L ⊂ F) as Hss.
    { split; [done|]. intros Hsup. apply HtL.
      by apply (elem_of_list_to_set (C:=gset nat)), Hsup. }
    apply subset_size in Hss. lia.
Qed.

Lemma initial_inv w : chain_inv (initial_state w) [] ∅.
Proof. by apply chain_inv_empty. Qed.

Lemma is_seg_unique next s L1 L2 :
  is_seg next s L1 None → is_seg next s L2 None → L1 = L2.
Proof.
  revert s L2. induction L1 as [|i L1 IH]; intros s [|j L2]; simpl; try done.
  - by intros -> [? _].
  - by intros [-> _] ?.
  - intros [-> Hs1] [[= <-] Hs2]. f_equal. by apply (IH (next i)).
Qed.

(** C7, as the code has it. In every run of search_open, search_find and
    search_tidyup calls from the initial state in which search_find is only
    called with open handles (over a registry of at most 208 drivers, so that
    the first byte of a slot's name tells its type), the LRU chain from
    open_top to open_bot is a list L of distinct slots, each an open slot of
    a driver that uses real files; it is the only such list; its length is at
    most open_filecount, and equal to it exactly when every open file-backed
    slot is on the chain. The two differ after a search_open: a successful
    search_open of a file-backed driver counts the slot but leaves it off the
    chain, which is then strictly shorter than the count (and unchanged, with
    the count one higher, if the count was below the maximum). It is
    search_find that puts an open file-backed slot at the top of the chain. *)
Theorem lru_chain_within_count (w : W) (ops : list op) :
  lookup_list_count ≤ 208 → finds_on_open (initial_state w) ops →
  let st := run (initial_state w) ops in
  ∃ L, lru_chain st L ∧ (∀ L2, lru_chain st L2 → L2 = L) ∧ NoDup L ∧
       (∀ i, i ∈ L → counting st i) ∧
       Z.of_nat (length L) ≤ open_filecount st ∧
       (Z.of_nat (length L) = open_filecount st ↔ ∀ i, counting st i → i ∈ L) ∧
       (∀ filename search_type modemask owners owngroups t lk,
          (search_open st filename search_type modemask owners owngroups).1 = Some t →
          ¬ live st t → lookup_list_at search_type = Some lk →
          lk_type lk = lookup_absfile →
          ∃ L',
            lru_chain (search_open st filename search_type modemask owners owngroups).2 L' ∧
            (t ∉ L') ∧
            counting (search_open st filename search_type modemask owners owngroups).2 t ∧
            Z.of_nat (length L')
            < open_filecount (search_open st filename search_type modemask owners owngroups).2 ∧
            (open_filecount st < lookup_open_max →
             L' = L ∧
             open_filecount (search_open st filename search_type modemask owners owngroups).2
             = open_filecount st + 1)) ∧
       (∀ handle filename keystring partial affix affixlen starflags expand_setup opts,
          counting st handle →
          open_top (step st (OpFind handle filename keystring partial affix affixlen
                               starflags expand_setup opts)) = Some handle).
Proof.
  intros Hcount Hops st.
  destruct (run_inv _ [] ∅ ops Hcount (initial_inv w) Hops) as (L & F & Hinv).
  fold st in Hinv.
  destruct (chain_inv_facts st L F Hinv) as (Hch & Hnd & Hcg & Hle & Heq & _).
  exists L. split; [done|]. split; [|split; [done|split; [done|split; [done|split; [done|]]]]].
  { intros L2 [Hseg _]. destruct Hch as [Hseg' _]. by apply (is_seg_unique _ _ _ _ Hseg Hseg'). }
  split.
  - intros filename search_type modemask owners owngroups t lk Hres Hnl Hlk Hty.
    destruct (search_open_inv st L F filename search_type modemask owners owngroups
                Hcount Hinv) as (L' & F' & Hinv' & Hpost).
    destruct (Hpost t lk Hres Hnl Hlk Hty) as (HtF & HtL & Hsame).
    destruct (chain_inv_facts _ L' F' Hinv') as (Hch' & _ & _ & _ & _ & Hlt).
    exists L'. split; [done|]. split; [done|]. split.
    { destruct Hinv' as [Hc' _ _ _ _]. by apply Hc'. }
    split; [by apply (Hlt t)|done].
  - intros handle filename keystring partial affix affixlen starflags expand_setup opts
      Hcounting.
    simpl.
    destruct (search_find_returns st handle filename keystring partial affix affixlen
                starflags expand_setup opts) as [r Hr].
    rewrite Hr. apply search_find_links in Hr.
    destruct (links_views _ _ Hr) as (Htop & _). rewrite Htop.
    destruct (lru_promote_inv st L F handle Hinv (counting_live _ _ Hcounting))
      as (L' & _ & Htop').
    by apply Htop'.
Qed.


(** * Further properties of search.c *)

(** ** search_args *)

Lemma Uskip_whitespace_split s :
  ∃ ws, s = (ws ++ Uskip_whitespace s)%string ∧ all_bytes isspace ws = true ∧
        isspace (peek (Uskip_whitespace s)) = false.
Proof.
  induction s as [|c r IH]; simpl.
  - by exists EmptyString.
  - destruct (isspace c) eqn:Hc.
    + destruct IH as (ws & Heq & Hws & Hpeek). exists (String c ws).
      rewrite append_cons, <- Heq. simpl. by rewrite Hc, Hws.
    + exists EmptyString. simpl. by rewrite Hc.
Qed.

Lemma span_nonspace_split s f rest :
  span_nonspace s = (f, rest) →
  s = (f ++ rest)%string ∧ no_space f ∧ (rest = EmptyString ∨ isspace (peek rest) = true).
Proof.
  revert f rest. induction s as [|c r IH]; intros f rest; simpl.
  - intros [= <- <-]. split; [done|]. split; [done|by left].
  - destruct (isspace c) eqn:Hc.
    + intros [= <- <-]. split; [done|]. split; [done|]. right. simpl. done.
    + destruct (span_nonspace r) as [a b]. intros [= <- <-].
      destruct (IH a b eq_refl) as (Heq & Hns & Hrest).
      split; [by rewrite append_cons, <- Heq|]. split; [|done].
      unfold no_space. simpl. by rewrite Hc.
Qed.

Lemma append_assoc_s (a b c : string) : ((a ++ b) ++ c)%string = (a ++ b ++ c)%string.
Proof. induction a as [|x a IH]; [done|]. by rewrite !append_cons, IH. Qed.

Lemma string_take_drop n s : (string_take n s ++ string_drop n s)%string = s.
Proof.
  revert s. induction n as [|n IH]; intros [|c r]; simpl; try done.
  by rewrite append_cons, IH.
Qed.

Lemma string_take_app p r : string_take (String.length p) (p ++ r) = p.
Proof.
  induction p as [|c p IH]; [by destruct r|]. rewrite append_cons. simpl. by rewrite IH.
Qed.

Lemma string_drop_app p r : string_drop (String.length p) (p ++ r) = r.
Proof.
  induction p as [|c p IH]; [by destruct r|]. rewrite append_cons. simpl. by rewrite IH.
Qed.

(** [Ustrncmp(s, p, strlen(p)) == 0] says that [s] starts with [p]. *)
Lemma Ustrncmp_prefix s p :
  cstring p → Ustrncmp s p (Ustrlen p) = 0 ↔ ∃ r, s = (p ++ r)%string.
Proof.
  intros Hp. unfold Ustrncmp, Ustrlen.
  destruct (Z.ltb_spec (Z.of_nat (String.length p)) 0) as [Hneg|_]; [lia|].
  rewrite Nat2Z.id. split.
  - intros Hc. exists (string_drop (String.length p) s).
    rewrite <- (strncmp_nat_zero s p (String.length p)) at 1 by done.
    by rewrite string_take_drop.
  - intros [r ->]. rewrite <- strncmp_nat_take, string_take_app. apply strncmp_nat_refl.
Qed.

Lemma starts_with_file s : Ustrncmp s "file=" 5 = 0 ↔ ∃ f, s = ("file=" ++ f)%string.
Proof.
  apply (Ustrncmp_prefix s "file="). simpl. repeat split; discriminate.
Qed.

(** X1: the old-style file prefix of a query. For a lookup type that is
    query-style with a file (sqlite), when no option starts with "file=" and
    the query, after leading white space, starts with a slash, search_args
    splits the query at the first white space: the file name is what comes
    before it, the whole run of bytes that are not white space; the returned
    query is what comes after it without its leading white space. Nothing is
    lost: the query is file name, white space, returned query, and the white
    space is empty only when the query ends with the file name. *)
Theorem search_args_file_prefix (search_type : Z) (search query : string)
    (opts : option string) :
  mac_islookup search_type lookup_absfilequery = true →
  (∀ o, opts = Some o →
     Forall (λ s, ∀ f, s ≠ ("file=" ++ f)%string) (string_nextinlist_all o)) →
  peek (Uskip_whitespace query) = "/"%char →
  ∃ f ws k,
    search_args search_type search query opts = (k, Some f) ∧
    Uskip_whitespace query = (f ++ ws ++ k)%string ∧
    peek f = "/"%char ∧ no_space f ∧
    all_bytes isspace ws = true ∧ isspace (peek k) = false ∧
    (ws = "" → k = "").
Proof.
  intros Hty Hopts Hslash. unfold search_args. rewrite Hty.
  assert (opts ≫= (λ o, list_find (λ s, Ustrncmp s "file=" 5 = 0)
                          (string_nextinlist_all o)) = None) as ->.
  { destruct opts as [o|]; [|done]. simpl. apply list_find_None.
    eapply Forall_impl; [by apply Hopts|]. intros s Hs Hc.
    apply starts_with_file in Hc as [f ->]. by apply (Hs f). }
  rewrite Hslash. simpl.
  destruct (span_nonspace (Uskip_whitespace query)) as [f rest] eqn:Hspan.
  destruct (span_nonspace_split _ _ _ Hspan) as (Heq & Hns & Hrest).
  destruct (Uskip_whitespace_split rest) as (ws & Hws & Hall & Hpeek).
  exists f, ws, (Uskip_whitespace rest).
  split; [done|]. split; [by rewrite <- Hws|]. split; [|repeat split; try done].
  - destruct (Uskip_whitespace query) as [|c r]; [done|]. simpl in Hslash. subst c.
    simpl in Hspan. destruct (span_nonspace r). by injection Hspan as <- <-.
  - intros Hempty. rewrite Hempty in Hws. change (("" ++ ?x)%string) with x in Hws.
    destruct Hrest as [Hr|Hr]; [by rewrite Hr|].
    rewrite Hws in Hr. congruence.
Qed.

(** X2: a "file=" option. For a lookup type that is query-style with a file,
    the first option that starts with "file=" names the file, whatever the
    query looks like (a leading slash in the query is then left in it); the
    returned query is the query without its leading white space. *)
Theorem search_args_file_option (search_type : Z) (search query o : string)
    (pre post : list string) (f : string) :
  mac_islookup search_type lookup_absfilequery = true →
  string_nextinlist_all o = (pre ++ ("file=" ++ f)%string :: post)%list →
  Forall (λ s, ∀ g, s ≠ ("file=" ++ g)%string) pre →
  search_args search_type search query (Some o) = (Uskip_whitespace query, Some f).
Proof.
  intros Hty Hitems Hpre. unfold search_args. rewrite Hty. simpl. rewrite Hitems.
  assert (list_find (λ s, Ustrncmp s "file=" 5 = 0) (pre ++ ("file=" ++ f)%string :: post)
          = Some (length pre, ("file=" ++ f)%string)) as ->.
  { apply list_find_Some. split; [by apply list_lookup_middle|].
    split; [apply starts_with_file; by exists f|].
    intros j y Hj Hlt Hc. rewrite lookup_app_l in Hj by done.
    apply starts_with_file in Hc as [g ->].
    rewrite Forall_lookup in Hpre. by apply (Hpre j _ Hj g). }
  pose proof (string_drop_app "file=" f) as Hd.
  apply (f_equal (λ x, (Uskip_whitespace query, Some x))). exact Hd.
Qed.

(** X3: what search_args hands back, by kind of lookup. For a single-key
    type the key is the search-type string and the file name is the query
    without its leading white space. For the other types the returned query
    is an end piece of the query that does not start with white space, and a
    plain query-style type has no file name. *)
Theorem search_args_kinds (search_type : Z) (search query : string)
    (opts : option string) :
  (mac_islookup search_type lookup_absfilequery = false →
   mac_islookup search_type lookup_querystyle = false →
   search_args search_type search query opts = (search, Some (Uskip_whitespace query))) ∧
  (mac_islookup search_type lookup_absfilequery = false →
   mac_islookup search_type lookup_querystyle = true →
   search_args search_type search query opts = (Uskip_whitespace query, None)) ∧
  (mac_islookup search_type lookup_absfilequery = true ∨
   mac_islookup search_type lookup_querystyle = true →
   ∃ pre, query = (pre ++ (search_args search_type search query opts).1)%string ∧
          isspace (peek (search_args search_type search query opts).1) = false).
Proof.
  unfold search_args.
  destruct (Uskip_whitespace_split query) as (ws & Hws & _ & Hpeek).
  split; [by intros -> ->|]. split; [by intros -> ->|].
  intros Hkind.
  destruct (mac_islookup search_type lookup_absfilequery).
  - destruct (opts ≫= _) as [[i s]|]; [by exists ws|].
    destruct (Ascii.eqb _ _); [|by exists ws].
    destruct (span_nonspace (Uskip_whitespace query)) as [f rest] eqn:Hspan.
    destruct (span_nonspace_split _ _ _ Hspan) as (Heq & _ & _).
    destruct (Uskip_whitespace_split rest) as (ws' & Hws' & _ & Hpeek').
    exists (ws ++ f ++ ws')%string. simpl. split; [|done].
    rewrite Hws at 1. rewrite Heq, Hws' at 1.
    by rewrite !append_assoc_s.
  - destruct Hkind as [?|Hq]; [done|]. rewrite Hq. simpl. by exists ws.
Qed.

(** ** search_findtype: the error message *)

Lemma type_messages_differ name len : unknown_type_msg name len ≠ not_available_msg name len.
Proof. unfold unknown_type_msg, not_available_msg. rewrite !append_cons. discriminate. Qed.

Lemma search_findtype_loop_message fuel name len bot top r m :
  0 ≤ bot → search_findtype_loop fuel name len bot top = Some (r, m) →
  (0 ≤ r ∧ m = None) ∨
  (r = -1 ∧ m = Some (unknown_type_msg name len)) ∨
  (r = -1 ∧ m = Some (not_available_msg name len) ∧
   ∃ k lk, lookup_list !! k = Some lk ∧ Ustrncmp name (lk_name lk) len = 0 ∧
           Ustrlen (lk_name lk) = len ∧ lk_find lk = None).
Proof.
  revert bot top. induction fuel as [|fuel IH]; intros bot top Hb; simpl.
  - destruct (top >? bot); [done|]. intros [= <- <-]. right. by left.
  - destruct (top >? bot) eqn:Htb; [|intros [= <- <-]; right; by left].
    pose proof (quot2_between bot top Hb ltac:(lia)) as Hm.
    destruct (lookup_list !! Z.to_nat (Z.quot (top + bot) 2)) as [lk|] eqn:Hlk; [|done].
    destruct (_ && _) eqn:Hc.
    + apply andb_true_iff in Hc as [Hc Hl].
      destruct (lk_find lk) eqn:Hf; intros [= <- <-]; [left; split; [lia|done]|].
      right. right. split; [done|]. split; [done|].
      eexists _, lk. split; [done|]. split; [lia|]. split; [lia|done].
    + destruct (_ >? 0); apply IH; lia.
Qed.

(** X4: the message search_findtype leaves. Over a registry sorted by name,
    search_findtype leaves search_error_message alone exactly when it finds
    the type; it reports the type as not available exactly when a driver of
    that name is registered without a find function (not in the binary),
    and as unknown exactly when no driver has that name. *)
Theorem search_findtype_messages (name : string) (len : Z) :
  registry_sorted → registry_cstrings → 0 ≤ len ≤ Ustrlen name →
  ∃ r msg, search_findtype name len = Some (r, msg) ∧
    (msg = None ↔ ∃ i, registry_match i (string_take (Z.to_nat len) name)) ∧
    (msg = Some (not_available_msg name len) ↔
       ∃ k lk, lookup_list !! k = Some lk ∧
               lk_name lk = string_take (Z.to_nat len) name ∧ lk_find lk = None) ∧
    (msg = Some (unknown_type_msg name len) ↔
       ∀ k lk, lookup_list !! k = Some lk →
               lk_name lk ≠ string_take (Z.to_nat len) name).
Proof.
  intros Hsort Hcs Hlen. unfold search_findtype.
  destruct (search_findtype_loop_total (length lookup_list) name len 0 lookup_list_count)
    as [[r msg] Hr]; [lia|lia|unfold lookup_list_count; lia|].
  exists r, msg. split; [done|].
  (* a driver of that name decides the result *)
  assert (∀ k lk, lookup_list !! k = Some lk →
            lk_name lk = string_take (Z.to_nat len) name →
            (r, msg) = match lk_find lk with
                       | Some _ => (Z.of_nat k, None)
                       | None => (-1, Some (not_available_msg name len))
                       end) as Hdec.
  { intros k lk Hlk Hn. pose proof (lookup_lt_Some _ _ _ Hlk) as Hk.
    assert (Z.of_nat k < lookup_list_count) as Hk' by (unfold lookup_list_count; lia).
    exact (search_findtype_loop_complete _ _ _ 0 _ _ _ _ Hsort Hcs Hlen Hlk Hn
             ltac:(lia) Hk' ltac:(lia) Hr). }
  assert (∀ lk, Ustrncmp name (lk_name lk) len = 0 → Ustrlen (lk_name lk) = len →
            cstring (lk_name lk) → lk_name lk = string_take (Z.to_nat len) name) as Hslice.
  { intros lk Hc Hl Hcstr. symmetry.
    apply strncmp_nat_zero; [done|unfold Ustrlen in Hl; lia|].
    unfold Ustrncmp in Hc. destruct (len <? 0) eqn:E; [lia|done]. }
  pose proof (type_messages_differ name len) as Hdiff.
  destruct (search_findtype_loop_message _ _ _ 0 _ _ _ ltac:(lia) Hr)
    as [[Hr0 ->]|[[-> ->]|(-> & -> & k & lk & Hlk & Hc & Hl & Hf)]].
  - pose proof (search_findtype_loop_sound _ _ _ 0 _ _ _ ltac:(lia) Hr)
      as [?|[_ (lk & Hlk & Hc & Hl & Hf)]]; [lia|].
    pose proof (Hslice lk Hc Hl (Hcs _ _ Hlk)) as Hn.
    split; [|split].
    + split; [|done]. intros _. exists (Z.to_nat r), lk. done.
    + split; [done|]. intros (k & lk' & Hlk' & Hn' & Hf').
      specialize (Hdec k lk' Hlk' Hn'). rewrite Hf' in Hdec. by injection Hdec.
    + split; [done|]. intros Hnone. by destruct (Hnone _ _ Hlk).
  - split; [|split].
    + split; [done|]. intros (i & lk & Hlk & Hn & [f Hf]).
      specialize (Hdec i lk Hlk Hn). rewrite Hf in Hdec. by injection Hdec.
    + split; [by intros [= ?]|]. intros (k & lk & Hlk & Hn & Hf).
      specialize (Hdec k lk Hlk Hn). rewrite Hf in Hdec. by injection Hdec.
    + split; [|done]. intros _ k lk Hlk Hn.
      specialize (Hdec k lk Hlk Hn). destruct (lk_find lk); by injection Hdec.
  - pose proof (Hslice lk Hc Hl (Hcs _ _ Hlk)) as Hn.
    split; [|split].
    + split; [done|]. intros (i & lk' & Hlk' & Hn' & [f Hf']).
      specialize (Hdec i lk' Hlk' Hn'). rewrite Hf' in Hdec. by injection Hdec.
    + split; [|done]. intros _. by exists k, lk.
    + split; [intros [= ?]; by destruct Hdiff|]. intros Hnone. by destruct (Hnone _ _ Hlk).
Qed.

(** ** search_findtype_partial: what follows the type name *)

(** search_findtype reads the first [len] bytes of the name only: the name
    need not end there (as in ["dbm*"]). *)
Lemma search_findtype_loop_slice fuel a b len bot top :
  0 ≤ len → string_take (Z.to_nat len) a = string_take (Z.to_nat len) b →
  search_findtype_loop fuel a len bot top = search_findtype_loop fuel b len bot top.
Proof.
  intros Hlen Htake. revert bot top. induction fuel as [|fuel IH]; intros bot top; simpl.
  - unfold unknown_type_msg. by rewrite Htake.
  - assert (∀ x, Ustrncmp a x len = Ustrncmp b x len) as Hcmp.
    { intros x. unfold Ustrncmp. destruct (len <? 0) eqn:E; [lia|].
      by rewrite <- (strncmp_nat_take a), <- (strncmp_nat_take b), Htake. }
    destruct (top >? bot); [|unfold unknown_type_msg; by rewrite Htake].
    destruct (lookup_list !! _); [|done]. rewrite Hcmp.
    destruct (_ && _); [unfold not_available_msg; by rewrite Htake|].
    destruct (_ >? 0); apply IH.
Qed.

Lemma search_findtype_slice ty rest :
  search_findtype (ty ++ rest) (Ustrlen ty) = search_findtype ty (Ustrlen ty).
Proof.
  unfold search_findtype, Ustrlen. apply search_findtype_loop_slice; [lia|].
  by rewrite Nat2Z.id, string_take_app, string_take_all.
Qed.

Lemma Ustrchr_app a b c :
  Ustrchr (a ++ b) c
  = match Ustrchr a c with
    | Some i => Some i
    | None => (λ j, (String.length a + j)%nat) <$> Ustrchr b c
    end.
Proof.
  induction a as [|x a IH].
  - change (("" ++ b)%string) with b. simpl. by destruct (Ustrchr b c).
  - rewrite append_cons. simpl. destruct (Ascii.eqb x c); [done|].
    rewrite IH. destruct (Ustrchr a c); [done|]. by destruct (Ustrchr b c).
Qed.

Lemma string_drop_add a k b :
  string_drop (String.length a + k) (a ++ b) = string_drop k b.
Proof.
  induction a as [|x a IH]; [done|]. rewrite append_cons. simpl. apply IH.
Qed.

(** X5: a type followed by a star. When what is left of the name after the
    "partial" part is a type [ty] (without a star) followed by a star, the
    type looked up is [ty]; the flag is SEARCH_STARAT if an at sign follows
    the star and SEARCH_STAR otherwise; the options are what follows the
    first comma after the star, if there is one. If [ty] turns out to be a
    query-style type, the name is refused (no partial count is stored): for
    the "partial" if there is one, else for the star. *)
Theorem search_findtype_partial_star (name : string) (pv : Z)
    (ptypeaff : option string) (afflen : option Z) (ss ty r : string) :
  parse_partial_prefix name = PrefixOk pv ptypeaff afflen ss →
  Ustrchr ty "*" = None → ss = (ty ++ "*" ++ r)%string →
  SEARCH_STAR ≠ 0 → SEARCH_STARAT ≠ 0 →
  ∃ out stype err,
    search_findtype_partial name = Some out ∧
    search_findtype ty (Ustrlen ty) = Some (stype, err) ∧
    fp_starflags out = (if Ascii.eqb (peek r) "@" then SEARCH_STARAT else SEARCH_STAR) ∧
    fp_opts out = Some ((λ j, string_drop (S j) r) <$> Ustrchr r ",") ∧
    (if (stype >=? 0) && mac_islookup stype lookup_querystyle
     then fp_return out = -1 ∧ fp_ptype out = None ∧
          fp_error out = Some (if pv >=? 0 then partial_not_permitted_msg ss
                               else defaults_not_permitted_msg ss)
     else fp_return out = stype ∧ fp_ptype out = Some pv ∧ fp_error out = err).
Proof.
  intros Hp Hty -> Hstar Hstarat. unfold search_findtype_partial. rewrite Hp.
  rewrite Ustrchr_app, Hty.
  change (Ustrchr ("*" ++ r) "*") with (Some 0%nat). cbn [fmap option_fmap option_map].
  rewrite Nat.add_0_r.
  replace (string_drop (S (String.length ty)) (ty ++ "*" ++ r)) with r
    by (by rewrite <- Nat.add_1_r, string_drop_add).
  rewrite string_drop_app.
  change (Ustrchr ("*" ++ r) ",") with (S <$> Ustrchr r ",").
  rewrite Z.lor_0_l.
  set (flags := if Ascii.eqb (peek r) "@" then SEARCH_STARAT else SEARCH_STAR).
  assert (negb (Z.land flags (Z.lor SEARCH_STAR SEARCH_STARAT) =? 0) = true) as Hflags.
  { apply negb_true_iff, Z.eqb_neq. unfold flags. destruct (Ascii.eqb _ _).
    - rewrite Z.lor_comm, Z.land_lor_distr_r, Z.land_diag.
      intros Hz. apply Z.lor_eq_0_iff in Hz. lia.
    - rewrite Z.land_lor_distr_r, Z.land_diag.
      intros Hz. apply Z.lor_eq_0_iff in Hz. lia. }
  destruct (search_findtype_total ty (Ustrlen ty)) as [[stype err] Hfind].
  exists (if (stype >=? 0) && mac_islookup stype lookup_querystyle
          then {| fp_return := -1; fp_ptype := None; fp_ptypeaff := ptypeaff;
                  fp_afflen := afflen; fp_starflags := flags;
                  fp_opts := Some ((λ j, string_drop (S j) r) <$> Ustrchr r ",");
                  fp_error := Some (if pv >=? 0
                                    then partial_not_permitted_msg (ty ++ "*" ++ r)
                                    else defaults_not_permitted_msg (ty ++ "*" ++ r)) |}
          else {| fp_return := stype; fp_ptype := Some pv; fp_ptypeaff := ptypeaff;
                  fp_afflen := afflen; fp_starflags := flags;
                  fp_opts := Some ((λ j, string_drop (S j) r) <$> Ustrchr r ",");
                  fp_error := err |}), stype, err.
  split.
  - destruct (Ustrchr r ",") as [j|] eqn:Hcomma; cbn [fmap option_fmap option_map].
    + replace (Z.of_nat (String.length ty + S j) <? Z.of_nat (String.length ty)) with false
        by (symmetry; apply Z.ltb_ge; lia).
      replace (string_drop (S (String.length ty + S j)) (ty ++ "*" ++ r))
        with (string_drop (S j) r)
        by (by rewrite <- Nat.add_succ_r, string_drop_add).
      cbn beta iota zeta. fold (Ustrlen ty). rewrite search_findtype_slice, Hfind, Hflags.
      destruct (_ && _); [|done]. by destruct (pv >=? 0).
    + cbn beta iota zeta. fold (Ustrlen ty). rewrite search_findtype_slice, Hfind, Hflags.
      destruct (_ && _); [|done]. by destruct (pv >=? 0).
  - split; [done|]. by destruct (_ && _).
Qed.

Lemma string_length_app a b :
  String.length (a ++ b) = (String.length a + String.length b)%nat.
Proof. induction a as [|x a IH]; [done|]. rewrite append_cons. simpl. by rewrite IH. Qed.

(** X6: a type followed by options. When what is left of the name after the
    "partial" part has no star and is a type [ty] (without a comma), alone
    or followed by a comma and options, the type looked up is [ty], no
    default flag is set, and the options are what follows the comma (NULL
    without a comma). A query-style type is refused only if the name asked
    for partial matching. *)
Theorem search_findtype_partial_options (name : string) (pv : Z)
    (ptypeaff : option string) (afflen : option Z) (ss ty : string) (o : option string) :
  parse_partial_prefix name = PrefixOk pv ptypeaff afflen ss →
  Ustrchr ss "*" = None → Ustrchr ty "," = None →
  ss = (ty ++ match o with Some o' => "," ++ o' | None => "" end)%string →
  ∃ out stype err,
    search_findtype_partial name = Some out ∧
    search_findtype ty (Ustrlen ty) = Some (stype, err) ∧
    fp_starflags out = 0 ∧ fp_opts out = Some o ∧
    (if (stype >=? 0) && mac_islookup stype lookup_querystyle && (pv >=? 0)
     then fp_return out = -1 ∧ fp_ptype out = None ∧
          fp_error out = Some (partial_not_permitted_msg ss)
     else fp_return out = stype ∧ fp_ptype out = Some pv ∧ fp_error out = err).
Proof.
  intros Hp Hstar Hty Hss. unfold search_findtype_partial. rewrite Hp, Hstar.
  change (string_drop 0 ss) with ss.
  destruct (search_findtype_total ty (Ustrlen ty)) as [[stype err] Hfind].
  exists (if (stype >=? 0) && mac_islookup stype lookup_querystyle && (pv >=? 0)
          then {| fp_return := -1; fp_ptype := None; fp_ptypeaff := ptypeaff;
                  fp_afflen := afflen; fp_starflags := 0; fp_opts := Some o;
                  fp_error := Some (partial_not_permitted_msg ss) |}
          else {| fp_return := stype; fp_ptype := Some pv; fp_ptypeaff := ptypeaff;
                  fp_afflen := afflen; fp_starflags := 0; fp_opts := Some o;
                  fp_error := err |}), stype, err.
  split.
  - destruct o as [o'|].
    + rewrite Hss at 1. rewrite Ustrchr_app, Hty.
      change (Ustrchr ("," ++ o') ",") with (Some 0%nat).
      cbn [fmap option_fmap option_map]. rewrite Nat.add_0_r, Nat.add_0_l.
      replace (Z.of_nat (String.length ty) <? Ustrlen ss) with true.
      2:{ symmetry. apply Z.ltb_lt. unfold Ustrlen.
          rewrite Hss, string_length_app, string_length_app. simpl. lia. }
      replace (string_drop (S (String.length ty)) ss) with o'.
      2:{ rewrite Hss, <- Nat.add_1_r, string_drop_add. done. }
      cbn beta iota zeta. rewrite Hss at 1. fold (Ustrlen ty).
      rewrite search_findtype_slice, Hfind.
      destruct (_ && _); [|done]. by destruct (pv >=? 0).
    + assert (ss = ty) as Hsame.
      { rewrite Hss. clear. induction ty as [|x ty IH]; [done|].
        by rewrite append_cons, IH. }
      rewrite Hsame at 1. rewrite Hty. cbn beta iota zeta.
      rewrite Hsame at 1 2. rewrite Hfind.
      destruct (_ && _); [|done]. by destruct (pv >=? 0).
  - split; [done|]. by destruct (_ && _ && _).
Qed.

(** ** search_open: what a handle stands for *)

Lemma tree_search_names tree tree' name :
  t_name <$> tree = t_name <$> tree' → tree_search tree name = tree_search tree' name.
Proof.
  revert tree'. induction tree as [|n tree IH]; intros [|n' tree'] Hn; try done.
  injection Hn as Hname Htl. specialize (IH tree' Htl).
  unfold tree_search in *. cbn [list_find]. rewrite Hname.
  destruct (decide (t_name n' = name)); [done|].
  destruct (list_find _ tree) as [[i m]|], (list_find _ tree') as [[i' m']|];
    simpl in *; congruence.
Qed.

Lemma tree_names_update t f st :
  t_name <$> search_tree (update_cache t f st) = t_name <$> search_tree st.
Proof. unfold update_cache. simpl. by apply fmap_alter_same. Qed.

Lemma slot_names_update t f st : slot_names (update_cache t f st) = slot_names st.
Proof. apply tree_names_update. Qed.

Lemma slot_names_links st st' : links st = links st' → slot_names st = slot_names st'.
Proof.
  unfold links, slot_names. intros [= _ _ _ Hv].
  assert (∀ tr : list tree_node,
            t_name <$> tr
            = (λ v : string * option H * option nat * option nat, v.1.1.1)
                <$> (link_view <$> tr)) as Hc.
  { intros tr. by rewrite <- list_fmap_compose. }
  by rewrite !Hc, Hv.
Qed.

Lemma evict_lru_names st : slot_names (evict_lru st) = slot_names st.
Proof.
  unfold evict_lru. destruct (open_bot st) as [b|]; [|done].
  destruct (cache_at st b) as [c|]; [|done]. cbn zeta.
  change (slot_names (set_open_filecount ?v ?s)) with (slot_names s).
  rewrite slot_names_update.
  rewrite (slot_names_links _ _ (call_close_links _ _ _)).
  destruct (c_up c); [by rewrite slot_names_update|done].
Qed.

Lemma enter_open_search st lk t keybuffer search_type handle :
  unopened st t keybuffer → tree_search (search_tree st) keybuffer = t →
  ∃ t' c,
    (enter_open st lk t keybuffer search_type handle).1 = Some t' ∧
    tree_search (search_tree (enter_open st lk t keybuffer search_type handle).2) keybuffer
    = Some t' ∧
    cache_at (enter_open st lk t keybuffer search_type handle).2 t' = Some c ∧
    c_handle c = Some handle ∧ c_search_type c = search_type.
Proof.
  intros Hun Ht. unfold enter_open.
  set (st0 := if lk_type lk =? lookup_absfile
              then set_open_filecount (open_filecount st + 1) st else st).
  assert (search_tree st0 = search_tree st) as Htree.
  { unfold st0. by destruct (lk_type lk =? lookup_absfile). }
  clearbody st0. destruct t as [i|]; cbn [fst snd].
  - destruct Hun as (n & Hn & Hname & Hh).
    eexists i, _. split; [done|]. split; [|split].
    + rewrite <- Ht. apply tree_search_names.
      rewrite !tree_names_update. by rewrite Htree.
    + unfold cache_at. rewrite !node_update, !decide_True by done.
      rewrite Htree, Hn. simpl. done.
    + done.
  - eexists (length (search_tree st0)), _. split; [done|]. split; [|split].
    + rewrite (tree_search_names _
                 (search_tree st0 ++
                    [{| t_name := keybuffer;
                        t_data := {| c_handle := None; c_search_type := search_type;
                                     c_up := None; c_down := None;
                                     c_item_cache := ∅ |} |}]) keybuffer)
        by (by rewrite !tree_names_update).
      unfold tree_search in *. rewrite Htree.
      destruct (list_find (λ n, t_name n = keybuffer) (search_tree st)) as [[j m]|] eqn:Hf;
        [done|].
      erewrite (proj2 (list_find_app_Some _ _ _ _ _)); [done|].
      right. split; [done|]. split; [done|]. rewrite Nat.sub_diag. simpl.
      by rewrite decide_True.
    + unfold cache_at. rewrite !node_update, !decide_True by done. simpl.
      rewrite list_lookup_middle by done. simpl. done.
    + done.
Qed.

Lemma search_open_found st filename search_type modemask owners owngroups t st' :
  search_open st filename search_type modemask owners owngroups = (Some t, st') →
  tree_search (search_tree st') (keybuffer_of search_type filename) = Some t ∧ live st' t.
Proof.
  unfold search_open.
  destruct (lookup_list_at search_type) as [lk|]; [|done].
  destruct (filename ≫= _) as [f|]; [done|].
  remember (keybuffer_of search_type filename) as kb eqn:Hkb.
  remember (tree_search (search_tree st) kb) as t0 eqn:Ht.
  destruct ((t0 ≫= cache_at st) ≫= c_handle) as [h|] eqn:Hcached.
  { intros [= -> <-]. split; [done|]. simpl in Hcached.
    destruct (cache_at st t) as [c|] eqn:Hc; [|done]. exists c. split; [done|].
    simpl in Hcached. by rewrite Hcached. }
  assert (unopened st t0 kb) as Hun.
  { destruct t0 as [i|]; [|done]. symmetry in Ht.
    apply tree_search_Some in Ht as (n & Hn & Hname). exists n.
    split; [done|]. split; [done|]. simpl in Hcached. unfold cache_at in Hcached.
    by rewrite Hn in Hcached. }
  set (st1 := if (lk_type lk =? lookup_absfile) && (open_filecount st >=? lookup_open_max)
              then evict_lru st else st).
  assert (slot_names st1 = slot_names st ∧ unopened st1 t0 kb) as [Hnames Hun1].
  { unfold st1. destruct (_ && _); [|done]. split; [apply evict_lru_names|].
    unfold evict_lru. destruct (open_bot st) as [b|]; [|done].
    destruct (cache_at st b) as [c|]; [|done]. cbn zeta.
    change (unopened (set_open_filecount ?v ?s) t0 kb) with (unopened s t0 kb).
    apply unopened_update; [done|].
    eapply unopened_links; [symmetry; apply call_close_links|].
    destruct (c_up c); [by apply unopened_update|done]. }
  clearbody st1.
  assert (∀ st3 handle, search_tree st3 = search_tree st1 →
            enter_open st3 lk t0 kb search_type handle = (Some t, st') →
            tree_search (search_tree st') kb = Some t ∧ live st' t) as Henter.
  { intros st3 handle Htree Hres.
    destruct (enter_open_search st3 lk t0 kb search_type handle)
      as (t' & c & Hfst & Hsearch & Hc & Hh & _).
    - destruct t0 as [i|]; [|done]. unfold unopened in *. by rewrite Htree.
    - rewrite Ht. symmetry. apply tree_search_names.
      rewrite Htree. exact (eq_sym Hnames).
    - rewrite Hres in Hfst, Hsearch, Hc. simpl in *. injection Hfst as <-.
      split; [done|]. exists c. by rewrite Hh. }
  destruct (lk_open lk filename _ _) as [[handle msg] w].
  destruct handle as [handle|]; [|done].
  destruct (lk_check lk) as [check|]; [|by apply Henter].
  destruct (check _ _ _ _ _ _ _) as [[ok msg'] w'].
  destruct ok; [by apply Henter|done].
Qed.

(** X7: opening again. After a successful search_open, another search_open
    of the same file for the same search type returns the same handle and
    changes nothing: no driver function is called, not even the check
    function, whatever mode mask and owners are given this time. *)
Theorem search_open_reopen st filename search_type modemask owners owngroups t st'
    modemask' owners' owngroups' :
  search_open st filename search_type modemask owners owngroups = (Some t, st') →
  search_open st' filename search_type modemask' owners' owngroups' = (Some t, st').
Proof.
  intros Hopen. destruct (search_open_found _ _ _ _ _ _ _ _ Hopen) as [Hfound Hlive].
  revert Hopen. unfold search_open.
  destruct (lookup_list_at search_type) as [lk|]; [|done].
  destruct (filename ≫= _) as [f|]; [done|]. intros _.
  rewrite Hfound. destruct Hlive as (c & Hc & [h Hh]). simpl. rewrite Hc. simpl.
  by rewrite Hh.
Qed.

(** ** search_open: what it leaves alone *)

Lemma kept_refl X st : slots_kept_but X st st.
Proof. intros i n Hn. by exists n. Qed.

Lemma kept_trans X st1 st2 st3 :
  slots_kept_but X st1 st2 → slots_kept_but X st2 st3 → slots_kept_but X st1 st3.
Proof.
  intros H12 H23 i n Hn. destruct (H12 i n Hn) as (n2 & Hn2 & Hname2 & Hc2 & Hh2).
  destruct (H23 i n2 Hn2) as (n3 & Hn3 & Hname3 & Hc3 & Hh3).
  exists n3. split; [done|]. split; [congruence|]. split; [congruence|].
  intros Hi. rewrite Hh3, Hh2; done.
Qed.

Lemma kept_mono X Y st st' :
  (∀ i, i ∈ X → i ∈ Y) → slots_kept_but X st st' → slots_kept_but Y st st'.
Proof.
  intros Hsub Hk i n Hn. destruct (Hk i n Hn) as (n' & Hn' & Hname & Hc & Hh).
  exists n'. split; [done|]. split; [done|]. split; [done|].
  intros Hi. apply Hh. intros Hin. by apply Hi, Hsub.
Qed.

Lemma kept_tree X st st' : search_tree st' = search_tree st → slots_kept_but X st st'.
Proof. intros Ht i n Hn. exists n. by rewrite Ht. Qed.

Lemma kept_update X t f st :
  (∀ c, c_item_cache (f c) = c_item_cache c) →
  (t ∉ X → ∀ c, c_handle (f c) = c_handle c) →
  slots_kept_but X st (update_cache t f st).
Proof.
  intros Hcache Hhandle i n Hn. rewrite node_update, Hn.
  destruct (decide (i = t)) as [->|Hne]; simpl.
  - eexists. split; [done|]. simpl. split; [done|]. split; [apply Hcache|].
    intros Hi. by apply Hhandle.
  - by exists n.
Qed.

Lemma kept_update_step X t f st st1 :
  slots_kept_but X st st1 →
  (∀ c, c_item_cache (f c) = c_item_cache c) →
  (t ∉ X → ∀ c, c_handle (f c) = c_handle c) →
  slots_kept_but X st (update_cache t f st1).
Proof. intros Hprev Hc Hh. apply (kept_trans _ _ st1); [done|]. by apply kept_update. Qed.

Lemma call_close_tree search_type handle st :
  search_tree (call_close search_type handle st) = search_tree st.
Proof. unfold call_close. by repeat case_match. Qed.

Lemma evict_lru_kept st : slots_kept_but (slot_of (open_bot st)) st (evict_lru st).
Proof.
  unfold evict_lru. destruct (open_bot st) as [b|]; [|by apply kept_tree].
  destruct (cache_at st b) as [c|]; [|by apply kept_refl]. cbn zeta.
  set (st2 := match c_up c with
              | Some u => update_cache u (with_down None) (set_open_bot (c_up c) st)
              | None => set_open_top None (set_open_bot (c_up c) st)
              end).
  assert (slots_kept_but (slot_of (Some b)) st st2) as H2.
  { unfold st2. destruct (c_up c) as [u|]; [|by apply kept_tree].
    apply (kept_trans _ _ (set_open_bot (Some u) st)); [by apply kept_tree|].
    by apply kept_update. }
  apply (kept_trans _ _ st2); [done|].
  apply (kept_trans _ _ (call_close (c_search_type c) (c_handle c) st2));
    [apply kept_tree, call_close_tree|].
  apply (kept_trans _ _ (update_cache b (with_handle None)
                           (call_close (c_search_type c) (c_handle c) st2)));
    [|by apply kept_tree].
  apply kept_update; [done|]. intros Hb. destruct Hb. apply list_elem_of_here.
Qed.

Lemma enter_open_kept st lk t keybuffer search_type handle :
  slots_kept_but (slot_of (enter_open st lk t keybuffer search_type handle).1)
    st (enter_open st lk t keybuffer search_type handle).2.
Proof.
  unfold enter_open.
  set (st0 := if lk_type lk =? lookup_absfile
              then set_open_filecount (open_filecount st + 1) st else st).
  assert (search_tree st0 = search_tree st) as Htree.
  { unfold st0. by destruct (lk_type lk =? lookup_absfile). }
  apply (kept_trans _ _ st0); [by apply kept_tree|]. clearbody st0.
  assert (∀ i s, slots_kept_but (slot_of (Some i)) s
            (update_cache i (with_up None)
               (update_cache i (with_down None)
                  (update_cache i (with_search_type search_type)
                     (update_cache i (with_handle (Some handle)) s))))) as Hfour.
  { intros i s. assert (i ∈ slot_of (Some i)) as Hi by apply list_elem_of_here.
    do 3 (apply kept_update_step; [|done|by intros Hni]).
    apply kept_update; [done|by intros Hni]. }
  destruct t as [i|]; cbn [fst snd]; [apply Hfour|].
  eapply kept_trans; [|apply Hfour].
  intros i n Hn. exists n. simpl. split; [|done].
  apply lookup_app_l_Some. done.
Qed.

(** X8: what search_open leaves alone. Whatever search_open does, every slot
    of the tree is still there afterwards under its name, with its cached
    lookup results; and with its handle, except for the slot returned (which
    may have been opened again) and the slot at the bottom of the LRU chain
    (which may have been closed to make room). *)
Theorem search_open_keeps st filename search_type modemask owners owngroups :
  slots_kept_but
    (slot_of (open_bot st)
     ++ slot_of (search_open st filename search_type modemask owners owngroups).1)
    st (search_open st filename search_type modemask owners owngroups).2.
Proof.
  unfold search_open.
  destruct (lookup_list_at search_type) as [lk|]; [|apply kept_refl].
  destruct (filename ≫= _) as [f|]; [by apply kept_tree|].
  destruct (_ ≫= c_handle); [apply kept_refl|].
  set (st1 := if (lk_type lk =? lookup_absfile) && (open_filecount st >=? lookup_open_max)
              then evict_lru st else st).
  assert (slots_kept_but (slot_of (open_bot st)) st st1) as H1.
  { unfold st1. destruct (_ && _); [apply evict_lru_kept|apply kept_refl]. }
  clearbody st1.
  assert (∀ X st3, search_tree st3 = search_tree st1 →
            slots_kept_but (slot_of (open_bot st) ++ X) st st3) as Hframe.
  { intros X st3 Htree. apply (kept_trans _ _ st1); [|by apply kept_tree].
    eapply kept_mono; [|exact H1]. intros i Hi. apply elem_of_app. by left. }
  assert (∀ st3 handle t, search_tree st3 = search_tree st1 →
            slots_kept_but
              (slot_of (open_bot st)
               ++ slot_of (enter_open st3 lk t
                             (keybuffer_of search_type filename) search_type handle).1)
              st (enter_open st3 lk t (keybuffer_of search_type filename)
                    search_type handle).2) as Henter.
  { intros st3 handle t Htree. eapply kept_trans; [by apply Hframe|].
    eapply kept_mono; [|apply enter_open_kept]. intros i Hi. apply elem_of_app. by right. }
  destruct (lk_open lk filename _ _) as [[handle msg] w].
  destruct handle as [handle|]; [|by apply Hframe].
  destruct (lk_check lk) as [check|]; [|by apply Henter].
  destruct (check _ _ _ _ _ _ _) as [[ok msg'] w'].
  destruct ok; [by apply Henter|].
  apply Hframe. cbn [snd]. by rewrite call_close_tree.
Qed.

Lemma live_update_sub t f st i :
  (∀ c, is_Some (c_handle (f c)) → is_Some (c_handle c)) →
  live (update_cache t f st) i → live st i.
Proof.
  intros Hf. rewrite live_update. intros (c & Hc & Hh). exists c. split; [done|].
  destruct (decide (i = t)); [by apply Hf|done].
Qed.

Lemma evict_lru_live st i : live (evict_lru st) i → live st i.
Proof.
  unfold evict_lru. destruct (open_bot st) as [b|]; [|done].
  destruct (cache_at st b) as [c|]; [|done]. cbn zeta.
  change (live (set_open_filecount ?v ?s) i) with (live s i).
  intros Hl. apply live_update_sub in Hl; [|by intros c' [? [=]]].
  destruct (links_views _ _ (call_close_links (c_search_type c) (c_handle c)
    match c_up c with
    | Some u => update_cache u (with_down None) (set_open_bot (c_up c) st)
    | None => set_open_top None (set_open_bot (c_up c) st)
    end)) as (_ & _ & _ & _ & _ & _ & Hlv & _).
  apply Hlv in Hl. destruct (c_up c); [|done].
  by apply live_update_sub in Hl.
Qed.

Lemma evict_lru_count st : open_filecount (evict_lru st) ≤ open_filecount st.
Proof.
  unfold evict_lru. destruct (open_bot st) as [b|]; [|simpl; lia].
  destruct (cache_at st b) as [c|]; [|lia]. cbn zeta.
  cbn [open_filecount set_open_filecount update_cache set_search_tree].
  rewrite call_close_filecount. destruct (c_up c); simpl; lia.
Qed.

(** X9: a failed search_open leaves nothing behind. When search_open
    returns NULL, the tree has the slots it had, no slot holds an open
    handle that was not open before, and the count of open files has not
    gone up. *)
Theorem search_open_null st filename search_type modemask owners owngroups :
  (search_open st filename search_type modemask owners owngroups).1 = None →
  length (search_tree (search_open st filename search_type modemask owners owngroups).2)
  = length (search_tree st) ∧
  (∀ i, live (search_open st filename search_type modemask owners owngroups).2 i →
        live st i) ∧
  open_filecount (search_open st filename search_type modemask owners owngroups).2
  ≤ open_filecount st.
Proof.
  unfold search_open.
  destruct (lookup_list_at search_type) as [lk|]; [|by intros _].
  destruct (filename ≫= _) as [f|]; [by intros _|].
  destruct (_ ≫= c_handle); [intros Hnone; simpl in *; repeat split; try done; lia|].
  set (st1 := if (lk_type lk =? lookup_absfile) && (open_filecount st >=? lookup_open_max)
              then evict_lru st else st).
  assert (length (search_tree st1) = length (search_tree st) ∧
          (∀ i, live st1 i → live st i) ∧ open_filecount st1 ≤ open_filecount st)
    as (Hlen & Hlive & Hcnt).
  { unfold st1. destruct (_ && _); [|repeat split; try done; lia].
    split; [|split; [apply evict_lru_live|apply evict_lru_count]].
    pose proof (evict_lru_names st) as Hn.
    apply (f_equal length) in Hn. unfold slot_names in Hn.
    by rewrite !length_fmap in Hn. }
  clearbody st1.
  destruct (lk_open lk filename _ _) as [[handle msg] w].
  destruct handle as [handle|]; [|by intros _].
  assert (∀ st3 t, (enter_open st3 lk t (keybuffer_of search_type filename)
                      search_type handle).1 ≠ None) as Henter.
  { intros st3 t. unfold enter_open. by destruct t. }
  destruct (lk_check lk) as [check|]; [|intros Hnone; by destruct (Henter _ _ Hnone)].
  destruct (check _ _ _ _ _ _ _) as [[ok msg'] w'].
  destruct ok; [intros Hnone; by destruct (Henter _ _ Hnone)|].
  intros _. cbn [snd]. rewrite call_close_tree, call_close_filecount.
  split; [done|]. split; [|done].
  intros i (c & Hc & Hh). apply Hlive. exists c. split; [|done].
  unfold cache_at in *. by rewrite call_close_tree in Hc.
Qed.

(** ** search_tidyup *)

Lemma tidyup_subtree_calls tree st :
  hook_calls (tidyup_subtree tree st) = hook_calls st ++ close_calls tree.
Proof.
  unfold tidyup_subtree, close_calls. revert st.
  induction tree as [|n tree IH]; intros st; simpl; [by rewrite app_nil_r|].
  rewrite IH. unfold tidyup_node, call_close.
  destruct (c_handle (t_data n)) as [h|]; [|done].
  destruct (lookup_list_at (c_search_type (t_data n))) as [lk|]; [|done]. simpl.
  destruct (lk_close lk); [|done]. simpl. by rewrite <- app_assoc.
Qed.

Lemma tidy_hooks_calls l st :
  hook_calls (foldl call_tidy st l)
  = hook_calls st ++ flat_map (λ il : nat * lookup_info,
                                 match lk_tidy il.2 with
                                 | Some _ => [CallTidy il.1]
                                 | None => []
                                 end) l.
Proof.
  revert st. induction l as [|x l IH]; intros st; simpl; [by rewrite app_nil_r|].
  rewrite IH. unfold call_tidy. destruct (lk_tidy x.2); [|done].
  simpl. by rewrite <- app_assoc.
Qed.


(** ** internal_search_find: further cases *)

(** X11: the cache round trip. When a lookup that called the driver ended
    without a defer and with a non-zero time to live, a later lookup of the
    same key with the same options on that handle is answered from the
    cache, with what the driver had returned and without calling it, as
    long as the handle's slot is as the first lookup left it and the entry
    has not expired (it never does for the default time to live); the file
    name given plays no part. *)
Theorem internal_search_find_again st handle filename keystring cache_rd opts t lk find
    (out : find_out) (w : W) (st2 : search_state) (filename2 : option string) :
  search_tree st !! handle = Some t →
  lookup_list_at (code (peek (t_name t)) - 48) = Some lk →
  lk_find lk = Some find →
  keystring ≠ "" → cstring keystring →
  (¬ ∃ e, item_cache_hit st (t_data t) keystring cache_rd opts e) →
  find (c_handle (t_data t)) filename keystring (Ustrlen keystring) opts (world st)
    = (out, w) →
  fo_rc out ≠ DEFER → fo_do_cache out ≠ 0 →
  search_tree st2 !! handle
  = search_tree (internal_search_find st handle filename keystring cache_rd opts).2
      !! handle →
  (fo_do_cache out = UINT_MAX ∨ time (world st2) < time w + fo_do_cache out) →
  internal_search_find st2 handle filename2 keystring true opts
  = (fo_result out, set_search_find_defer false (set_search_error_message "" st2)).
Proof.
  intros Hnode Hdriver Hfind Hkey Hcstring Hmiss Hout Hrc Httl Hslot Hfresh.
  destruct (internal_search_find_on_miss st handle filename keystring cache_rd opts t lk
              find Hnode Hdriver Hfind Hkey Hcstring out w Hmiss Hout)
    as (st' & Heq & _ & _ & _ & Htree).
  rewrite Heq in Hslot. cbn [snd] in Hslot. rewrite Htree in Hslot.
  rewrite (bool_decide_eq_false_2 _ Hrc), (bool_decide_eq_false_2 _ Httl) in Hslot.
  rewrite list_lookup_insert_eq in Hslot by (by eapply lookup_lt_Some).
  set (e := cache_entry (time w) (fo_do_cache out) opts (fo_result out)) in *.
  set (t' := node_with_cache t (<[keystring := e]> (c_item_cache (t_data t)))) in *.
  assert (item_cache_hit st2 (t_data t') keystring true opts e) as Hhit.
  { split; [apply lookup_insert_eq|]. split; [|done].
    unfold e, cache_entry. simpl.
    destruct (fo_do_cache out =? UINT_MAX) eqn:Hmax; [by left|].
    right. destruct Hfresh as [Hm|Hlt]; [apply Z.eqb_neq in Hmax; done|lia]. }
  exact (internal_search_find_on_hit st2 handle filename2 keystring true opts t' lk
           Hslot Hdriver Hkey Hcstring e Hhit).
Qed.

(** X12: the empty key. With an empty key internal_search_find fails at
    once: it returns NULL, with the error message emptied and the defer flag
    cleared, and neither reads the item cache nor calls the driver. *)
Theorem internal_search_find_empty_key st handle filename cache_rd opts t lk :
  search_tree st !! handle = Some t →
  lookup_list_at (code (peek (t_name t)) - 48) = Some lk →
  internal_search_find st handle filename "" cache_rd opts
  = (None, set_search_find_defer false (set_search_error_message "" st)).
Proof. intros Hnode Hdriver. unfold internal_search_find. by rewrite Hnode, Hdriver. Qed.


(** ** search_find: options, and the first lookup *)

Lemma bool_decide_cons_ne (x y : string) (l : list string) :
  x ≠ y → bool_decide (x ∈ y :: l) = bool_decide (x ∈ l).
Proof.
  intros Hne. apply bool_decide_ext. rewrite elem_of_cons. split; [|by right].
  by intros [?|?].
Qed.

Lemma bool_decide_cons_eq (x : string) (l : list string) : bool_decide (x ∈ x :: l) = true.
Proof. apply bool_decide_eq_true_2, list_elem_of_here. Qed.

Lemma search_find_options_fold (l : list string) ret_key cache_rd g :
  foldl (λ '(ret_key, cache_rd, g) ele,
           if String.eqb ele "ret=key" then (true, cache_rd, g)
           else if String.eqb ele "cache=no_rd" then (ret_key, false, g)
           else (ret_key, cache_rd, Some (string_append_listele g ele)))
        (ret_key, cache_rd, g) l
  = (ret_key || bool_decide ("ret=key" ∈ l),
     cache_rd && negb (bool_decide ("cache=no_rd" ∈ l)),
     foldl (λ g ele, Some (string_append_listele g ele)) g
       (filter (λ ele, ¬ global_option ele) l)).
Proof.
  revert ret_key cache_rd g. induction l as [|ele l IH]; intros ret_key cache_rd g.
  - simpl. by rewrite orb_false_r, andb_true_r.
  - cbn [foldl]. destruct (String.eqb ele "ret=key") eqn:Hrk.
    + apply String.eqb_eq in Hrk as ->. rewrite IH.
      rewrite filter_cons_False by (intros Hn; apply Hn; by left).
      rewrite bool_decide_cons_eq, bool_decide_cons_ne by done.
      by rewrite orb_true_r.
    + apply String.eqb_neq in Hrk. destruct (String.eqb ele "cache=no_rd") eqn:Hnr.
      * apply String.eqb_eq in Hnr as ->. rewrite IH.
        rewrite filter_cons_False by (intros Hn; apply Hn; by right).
        rewrite bool_decide_cons_eq, bool_decide_cons_ne by done.
        simpl. by rewrite andb_false_r.
      * apply String.eqb_neq in Hnr. rewrite IH.
        rewrite filter_cons_True by (by intros [?|?]).
        by rewrite !bool_decide_cons_ne by congruence.
Qed.

(** X14: the options search_find keeps for itself. Of the items of the
    options list, "ret=key" and "cache=no_rd" are taken out, wherever and
    however often they occur: the first asks for the key to be returned, the
    second forbids reading the cache. The items left, in their order, are
    the options handed to the driver and kept with the cache entries; with no
    item left these are NULL. *)
Theorem search_find_options_spec (o : string) :
  search_find_options (Some o)
  = (bool_decide ("ret=key" ∈ string_nextinlist_all o),
     negb (bool_decide ("cache=no_rd" ∈ string_nextinlist_all o)),
     foldl (λ g ele, Some (string_append_listele g ele)) None
       (filter (λ ele, ¬ global_option ele) (string_nextinlist_all o))).
Proof. unfold search_find_options. by rewrite search_find_options_fold. Qed.

Lemma mem_copyn_keystring (keystring : string) ks2 :
  cstring keystring →
  mem_copyn {| m_key := buffer_of keystring; m_ks2 := ks2 |} keystring_ptr
    (Ustrlen keystring) = keystring.
Proof.
  intros Hs. unfold mem_copyn, Ustrlen, buffer_of. simpl.
  change (Z.to_nat 0) with 0%nat. rewrite drop_0.
  rewrite Nat2Z.id, take_app_length' by (by rewrite length_list_ascii_of_string).
  rewrite <- (app_nil_r (list_ascii_of_string keystring)).
  rewrite cstr_of_bytes_app by done. simpl. apply append_empty_r.
Qed.

(** X15: a defer at the first lookup. When the lookup of the key as it
    stands defers, search_find returns NULL at once: no other key is tried,
    neither the partial ones nor the defaults, and no expansion variable is
    set. *)
Theorem search_find_defers_first st handle filename (keystring : string) partial affix
    affixlen starflags expand_setup opts ret_key cache_rd opts' y st1 :
  cstring keystring →
  search_find_options opts = (ret_key, cache_rd, opts') →
  internal_search_find (record_probe Verbatim keystring (lru_promote st handle))
    handle filename keystring cache_rd opts' = (y, st1) →
  search_find_defer st1 = true →
  search_find st handle filename keystring partial affix affixlen starflags
    expand_setup opts
  = Some {| r_yield := None; r_state := st1; r_keystring := buffer_of keystring;
            r_expand_setup := expand_setup |}.
Proof.
  intros Hs Hopts Hfind Hdefer. unfold search_find. rewrite Hopts.
  unfold search_find_first. rewrite (mem_cstr_keystring _ _ Hs), Hfind, Hdefer. done.
Qed.

Lemma search_find_starat_hit handle filename cache_rd opts starflags v st m es snw :
  search_find_starat handle filename cache_rd opts starflags (Some v) st m es snw
  = FallThrough (Some v) st m es snw.
Proof. reflexivity. Qed.

Lemma search_find_star_hit handle filename cache_rd opts starflags v st m es :
  search_find_star handle filename cache_rd opts starflags (Some v) st m es
  = (Some v, st, es).
Proof. reflexivity. Qed.

(** X16: a match of the key as it stands. When the first lookup finds the
    key, search_find looks up nothing else, whatever the flags. It returns
    what was found, or the key itself if "ret=key" was given. If partial
    matching was asked for and expansion variables are wanted, the next two
    are set: an empty wild part, and the whole key as the fixed part. *)
Theorem search_find_verbatim_hit st handle filename (keystring : string) partial affix
    affixlen starflags expand_setup opts ret_key cache_rd opts' v st1 :
  cstring keystring →
  search_find_options opts = (ret_key, cache_rd, opts') →
  internal_search_find (record_probe Verbatim keystring (lru_promote st handle))
    handle filename keystring cache_rd opts' = (Some v, st1) →
  search_find_defer st1 = false →
  ∃ r,
    search_find st handle filename keystring partial affix affixlen starflags
      expand_setup opts = Some r ∧
    r_yield r = Some (if ret_key then keystring else v) ∧
    probes (r_state r) = probes st1 ∧ hook_calls (r_state r) = hook_calls st1 ∧
    search_tree (r_state r) = search_tree st1 ∧
    match expanding expand_setup with
    | Some n =>
        if partial >=? 0 then
          r_expand_setup r = Some (n + 2) ∧
          expand_nstring (r_state r) !! (n + 1) = Some ExpKeystring ∧
          expand_nlength (r_state r) !! (n + 1) = Some 0 ∧
          expand_nstring (r_state r) !! (n + 2) = Some (ExpCopy keystring) ∧
          expand_nlength (r_state r) !! (n + 2) = Some (Ustrlen keystring)
        else r_expand_setup r = expand_setup ∧ r_state r = st1
    | None => r_expand_setup r = expand_setup ∧ r_state r = st1
    end.
Proof.
  intros Hs Hopts Hfind Hdefer. unfold search_find. rewrite Hopts.
  unfold search_find_first. rewrite (mem_cstr_keystring _ _ Hs), Hfind, Hdefer.
  cbn [fmap option_fmap option_map]. eexists. split; [done|].
  unfold search_find_defaults. rewrite search_find_starat_hit, search_find_star_hit.
  cbn iota beta zeta.
  rewrite !(mem_cstr_keystring _ _ Hs), ?(mem_copyn_keystring _ _ Hs).
  destruct (expanding expand_setup) as [n|]; [|by destruct (partial >=? 0), ret_key].
  destruct (partial >=? 0); [|by destruct ret_key].
  unfold expand_pair. cbn [r_yield r_state r_expand_setup probes hook_calls search_tree
                            set_expand expand_nstring expand_nlength].
  rewrite ?(mem_copyn_keystring _ _ Hs).
  split; [by destruct ret_key|]. split; [done|]. split; [done|]. split; [done|].
  split; [done|].
  split; [rewrite lookup_insert_ne by lia; by rewrite lookup_insert_eq|].
  split; [rewrite lookup_insert_ne by lia; by rewrite lookup_insert_eq|].
  split; by rewrite lookup_insert_eq.
Qed.

Lemma land_lor_zero a b c : Z.land a (Z.lor b c) = 0 → Z.land a b = 0 ∧ Z.land a c = 0.
Proof. rewrite Z.land_lor_distr_r. apply Z.lor_eq_0_iff. Qed.

(** X17: a plain lookup. Without partial matching and without the star
    flags, search_find makes the one lookup of the key as it stands and
    nothing more: it returns NULL if that deferred, else what was found (the
    key itself if found and "ret=key" was given), and sets no expansion
    variable. *)
Theorem search_find_plain st handle filename (keystring : string) partial affix
    affixlen starflags expand_setup opts ret_key cache_rd opts' y st1 :
  cstring keystring →
  search_find_options opts = (ret_key, cache_rd, opts') →
  internal_search_find (record_probe Verbatim keystring (lru_promote st handle))
    handle filename keystring cache_rd opts' = (y, st1) →
  partial < 0 → Z.land starflags (Z.lor SEARCH_STAR SEARCH_STARAT) = 0 →
  search_find st handle filename keystring partial affix affixlen starflags
    expand_setup opts
  = Some {| r_yield := if search_find_defer st1 then None
                       else if ret_key then (λ _, keystring) <$> y else y;
            r_state := st1; r_keystring := buffer_of keystring;
            r_expand_setup := expand_setup |}.
Proof.
  intros Hs Hopts Hfind Hpartial Hflags.
  destruct (land_lor_zero _ _ _ Hflags) as [_ Hat].
  unfold search_find. rewrite Hopts.
  unfold search_find_first. rewrite (mem_cstr_keystring _ _ Hs), Hfind.
  destruct (search_find_defer st1); [done|].
  replace (partial >=? 0) with false by (symmetry; lia).
  destruct y as [v|]; cbn [fmap option_fmap option_map].
  - unfold search_find_defaults. rewrite search_find_starat_hit, search_find_star_hit.
    cbn iota beta zeta. rewrite (mem_cstr_keystring _ _ Hs).
    by destruct (expanding expand_setup), ret_key.
  - unfold search_find_defaults, search_find_starat, search_find_star.
    rewrite Hat, Hflags. cbn [Z.eqb negb andb]. rewrite !andb_false_r.
    cbn iota beta zeta. by destruct (expanding expand_setup), ret_key.
Qed.

Lemma search_find_starat_snw handle filename cache_rd opts starflags yield st m es snw
    y2 st2 m2 es2 snw2 :
  search_find_starat handle filename cache_rd opts starflags yield st m es snw
  = FallThrough y2 st2 m2 es2 snw2 → snw2 = snw.
Proof.
  unfold search_find_starat, expand_pair. repeat case_match; by intros [= ? ? ? ? ?].
Qed.

(** X18: the default "*". When the lookups before it (the key as it stands,
    the partial ones, "*@") have found nothing and have not deferred, and
    one of the two star flags is set, search_find looks up "*", as the last
    key. On a match it returns what was found (or the key, for "ret=key"),
    and if expansion variables are wanted the wild part is the whole key and
    the fixed part is empty. A defer of this last lookup is not treated
    apart: the defer flag is left set and the result is whatever the lookup
    returned. *)
Theorem search_find_star_default st handle filename (keystring : string) partial
    affix affixlen starflags expand_setup opts ret_key cache_rd opts'
    st1 m1 es1 snw st2 m2 es2 snw2 y st3 :
  cstring keystring →
  search_find_options opts = (ret_key, cache_rd, opts') →
  search_find_first handle filename cache_rd opts' partial affix affixlen
    (lru_promote st handle) {| m_key := buffer_of keystring; m_ks2 := [] |}
    expand_setup = Some (FallThrough None st1 m1 es1 snw) →
  search_find_starat handle filename cache_rd opts' starflags None st1 m1 es1 snw
  = FallThrough None st2 m2 es2 snw2 →
  Z.land starflags (Z.lor SEARCH_STAR SEARCH_STARAT) ≠ 0 →
  internal_search_find (record_probe Star "*" st2) handle filename "*" cache_rd opts'
  = (y, st3) →
  ∃ r,
    search_find st handle filename keystring partial affix affixlen starflags
      expand_setup opts = Some r ∧
    probes (r_state r) = probes st2 ++ [(Star, "*")] ∧
    search_find_defer (r_state r) = search_find_defer st3 ∧
    r_yield r = (if ret_key then (λ _, keystring) <$> y else y) ∧
    match y, expanding es2 with
    | Some _, Some n =>
        r_expand_setup r = Some (n + 2) ∧
        expand_nstring (r_state r) !! (n + 1) = Some ExpKeystring ∧
        expand_nlength (r_state r) !! (n + 1) = Some (Ustrlen keystring) ∧
        expand_nstring (r_state r) !! (n + 2) = Some ExpKeystring ∧
        expand_nlength (r_state r) !! (n + 2) = Some 0
    | _, _ => r_expand_setup r = es2 ∧ r_state r = st3
    end.
Proof.
  intros Hs Hopts Hfirst Hstarat Hflags Hfind.
  pose proof (search_find_first_none _ _ _ _ _ _ _ _ _ _ _ _ _ _ Hfirst) as ->.
  pose proof (search_find_starat_snw _ _ _ _ _ _ _ _ _ _ _ _ _ _ _ Hstarat) as ->.
  pose proof (search_find_first_key _ _ _ _ _ _ _ _ _ _ _ Hfirst) as Hm1.
  pose proof (search_find_starat_key handle filename cache_rd opts' starflags
                None st1 m1 es1 false) as Hm2.
  rewrite Hstarat in Hm2. simpl in Hm1, Hm2. rewrite Hm1 in Hm2.
  pose proof (mem_cstr_key_only m2 keystring Hm2 Hs) as Hkey.
  pose proof (internal_search_find_probes _ _ _ _ _ _ _ _ Hfind) as Hp. simpl in Hp.
  unfold search_find. rewrite Hopts, Hfirst.
  change (?f <$> Some ?x) with (Some (f x)).
  unfold search_find_defaults. rewrite Hstarat. unfold search_find_star.
  apply Z.eqb_neq in Hflags. rewrite Hflags. cbn [negb andb bool_decide decide_rel].
  replace (negb (bool_decide (is_Some (@None string)))) with true
    by (symmetry; apply negb_true_iff, bool_decide_eq_false_2; by intros [? ?]).
  cbn [andb]. rewrite Hfind. rewrite Hkey.
  destruct y as [v|]; [destruct (expanding es2) as [n|] eqn:Hes|].
  - unfold expand_pair. cbn beta iota zeta. eexists. split; [done|].
    cbn [r_yield r_state r_expand_setup probes search_find_defer set_expand
         expand_nstring expand_nlength fmap option_fmap option_map].
    split; [done|]. split; [done|]. split; [by destruct ret_key|]. split; [done|].
    split; [rewrite lookup_insert_ne by lia; by rewrite lookup_insert_eq|].
    split; [rewrite lookup_insert_ne by lia; by rewrite lookup_insert_eq|].
    split; by rewrite lookup_insert_eq.
  - cbn beta iota zeta. eexists. split; [done|].
    cbn [r_yield r_state r_expand_setup fmap option_fmap option_map].
    split; [done|]. split; [done|]. split; [by destruct ret_key|]. done.
  - cbn beta iota zeta. eexists. split; [done|].
    cbn [r_yield r_state r_expand_setup fmap option_fmap option_map].
    split; [done|]. split; [done|]. split; [by destruct ret_key|].
    by destruct (expanding es2).
Qed.

(** ** The LRU chain: order *)

Lemma filter_ne_notin (t : nat) (L : list nat) :
  t ∉ L → filter (λ i, i ≠ t) L = L.
Proof.
  induction L as [|x L IH]; [done|]. intros [Hx HL]%not_elem_of_cons.
  rewrite filter_cons_True by done. by rewrite IH.
Qed.

Lemma filter_ne_middle (t : nat) (A B : list nat) :
  NoDup (A ++ t :: B) → filter (λ i, i ≠ t) (A ++ t :: B) = A ++ B.
Proof.
  intros Hnd. apply NoDup_app in Hnd as (_ & HA & [HtB _]%NoDup_cons).
  rewrite filter_app, filter_cons_False by (by intros Hn; apply Hn).
  rewrite !filter_ne_notin; [done|done|].
  intros Hin. apply (HA t Hin). apply list_elem_of_here.
Qed.

(** The block of search_find that moves the handle to the top, with the
    chain it leaves. *)
Lemma lru_promote_chain st L F t :
  chain_inv st L F → counting st t →
  chain_inv (lru_promote st t) (t :: filter (λ i, i ≠ t) L) F.
Proof.
  intros Hinv Hcount. pose proof Hcount as (n & Hn & Hh & Habs).
  assert (NoDup L) as Hnd by (by destruct Hinv as [_ _ _ [? _ _] _]).
  assert (t ∈ F) as HtF by (destruct Hinv as [Hcg _ _ _ _]; by apply Hcg).
  unfold lru_promote. rewrite Hn, Habs.
  destruct (bool_decide (open_top st = Some t)) eqn:Htop; simpl.
  { apply bool_decide_eq_true in Htop.
    destruct Hinv as [Hcg Hsz Hs Hch Hf].
    pose proof (chain_top _ _ _ _ _ Hch) as Hhead. rewrite Htop in Hhead.
    symmetry in Hhead. apply head_Some in Hhead as [L0 ->].
    apply NoDup_cons in Hnd as [HtL0 _].
    rewrite filter_cons_False by (by intros Hne; apply Hne).
    rewrite filter_ne_notin by done. by split. }
  apply bool_decide_eq_false in Htop.
  assert (up_of st t = c_up (t_data n)) as Hupt.
  { unfold up_of, cache_at. by rewrite Hn. }
  assert (down_of st t = c_down (t_data n)) as Hdnt.
  { unfold down_of, cache_at. by rewrite Hn. }
  rewrite <- Hupt, <- Hdnt.
  destruct (decide (t ∈ L)) as [HtL|HtL].
  - apply list_elem_of_split in HtL as (A0 & B & ->).
    rewrite filter_ne_middle by done.
    destruct A0 as [|u A _] using rev_ind.
    { destruct Hinv as [_ _ _ Hch _]. apply chain_top in Hch. simpl in Hch. done. }
    rewrite <- app_assoc in Hinv, Hnd |- *. simpl in Hinv, Hnd |- *.
    destruct (lru_cut_inv _ _ _ _ _ _ Hinv) as [-> Hinv'].
    destruct (lru_push_inv _ _ _ t Hinv' HtF) as [Hinv'' _]; [|done].
    apply NoDup_app in Hnd as (_ & HAB & Hnd').
    apply NoDup_cons in Hnd' as [Hu Hnd']. apply NoDup_cons in Hnd' as [Ht _].
    apply not_elem_of_cons in Hu as [Hut _].
    rewrite elem_of_app, elem_of_cons. intros [HA|[->|HB]]; [|done|done].
    apply (HAB t HA). apply list_elem_of_further, list_elem_of_here.
  - rewrite filter_ne_notin by done.
    assert (up_of st t = None) as ->.
    { destruct Hinv as [_ _ _ _ Hf]. by apply Hf. }
    simpl. destruct (lru_push_inv st L F t) as [Hinv'' _]; [|done|done|done].
    destruct Hinv as [? ? ? ? Hf]. split; try done.
    intros i ? ? _. by apply Hf.
Qed.

(** X19: the count counts the open files. In every run from the initial
    state in which search_find is only called with open handles,
    open_filecount is the number of slots that hold an open handle of a
    driver that uses real files. *)
Theorem open_filecount_counts (w : W) (ops : list op) :
  lookup_list_count ≤ 208 → finds_on_open (initial_state w) ops →
  ∃ F : gset nat,
    (∀ i, i ∈ F ↔ counting (run (initial_state w) ops) i) ∧
    open_filecount (run (initial_state w) ops) = Z.of_nat (size F).
Proof.
  intros Hcount Hops.
  destruct (run_inv _ [] ∅ ops Hcount (initial_inv w) Hops) as (L & F & [Hc Hn _ _ _]).
  by exists F.
Qed.

(** X20: most recently used first. In every such run, a search_find with an
    open handle of a driver that uses real files leaves that handle at the
    top of the LRU chain, followed by the other slots of the chain in the
    order they had. *)
Theorem search_find_moves_to_front (w : W) (ops : list op) (L : list nat)
    handle filename keystring partial affix affixlen starflags expand_setup opts :
  lookup_list_count ≤ 208 → finds_on_open (initial_state w) ops →
  lru_chain (run (initial_state w) ops) L →
  counting (run (initial_state w) ops) handle →
  lru_chain (step (run (initial_state w) ops)
               (OpFind handle filename keystring partial affix affixlen starflags
                  expand_setup opts))
            (handle :: filter (λ i, i ≠ handle) L).
Proof.
  intros Hcount Hops Hchain Hcounting.
  destruct (run_inv _ [] ∅ ops Hcount (initial_inv w) Hops) as (L0 & F & Hinv).
  set (st := run (initial_state w) ops) in *.
  destruct (chain_inv_facts st L0 F Hinv) as ([Hseg0 _] & _).
  destruct Hchain as [Hseg _].
  pose proof (is_seg_unique _ _ _ _ Hseg Hseg0) as ->.
  pose proof (lru_promote_chain st L0 F handle Hinv Hcounting) as Hinv'.
  simpl.
  destruct (search_find_returns st handle filename keystring partial affix affixlen
              starflags expand_setup opts) as [r Hr].
  rewrite Hr. apply search_find_links in Hr.
  apply (chain_inv_links _ _ (r_state r)) in Hinv'; [|done].
  by destruct (chain_inv_facts _ _ _ Hinv') as (? & _).
Qed.

(** Closing the least recently used file, with the chain it leaves: the
    chain without its last slot. *)
Lemma evict_lru_chain st L F :
  chain_inv st L F →
  ∃ F', chain_inv (evict_lru st) (removelast L) F' ∧
        (∀ i, i ∈ F' → i ∈ F ∧ Some i ≠ last L) ∧
        (∀ t keybuffer, unopened st t keybuffer → unopened (evict_lru st) t keybuffer).
Proof.
  intros Hinv. destruct (open_bot st) as [b|] eqn:Hb.
  2:{ pose proof Hinv as [_ _ _ Hch _].
      pose proof (chain_bot _ _ _ _ _ Hch) as Hlast. rewrite Hb in Hlast.
      symmetry in Hlast. apply last_None in Hlast as ->.
      exists F. unfold evict_lru. rewrite Hb. split; [by apply (chain_inv_links _ st)|].
      split; [|done]. by intros i Hi. }
  pose proof Hinv as [Hc Hn Hs Hch Hf].
  pose proof (chain_bot _ _ _ _ _ Hch) as Hlast. rewrite Hb in Hlast. symmetry in Hlast.
  apply last_Some in Hlast as [A ->]. rewrite removelast_last, last_snoc.
  assert (b ∈ F) as HbF.
  { apply Hs. apply elem_of_app. right. apply list_elem_of_here. }
  destruct (proj1 (Hc b) HbF) as (n & Hnb & Hh & Ha).
  assert (cache_at st b = Some (t_data n)) as Hcb.
  { unfold cache_at. by rewrite Hnb. }
  destruct (chain_drop_last _ _ _ _ _ _ Hch) as [_ Hch'].
  assert (up_of st b = c_up (t_data n)) as Hupb.
  { unfold up_of. by rewrite Hcb. }
  assert (∀ u, c_up (t_data n) = Some u → u ∈ A) as HuA.
  { intros u Hu. rewrite Hupb, Hu in Hch'. destruct Hch' as [_ _ Hup'].
    apply is_seg_head in Hup'. rewrite head_reverse in Hup'. symmetry in Hup'.
    apply last_Some in Hup' as [A' ->]. apply elem_of_app. right. apply list_elem_of_here. }
  destruct (evict_lru_fields st b (t_data n) Hb Hcb)
    as (Htop & Hbot & Hcnt & Hup & Hdn & Hcg & Hun).
  { intros u Hu. eapply chain_inv_node; [done|]. apply Hs, elem_of_app. left. by apply HuA. }
  exists (F ∖ {[b]}). split; [|split; [|done]].
  2:{ intros i [HiF Hib]%elem_of_difference. split; [done|].
      apply not_elem_of_singleton in Hib. congruence. }
  assert (b ∉ A) as HbA.
  { destruct Hch as [Hnd _ _]. apply NoDup_app in Hnd as (_ & Hnd & _).
    intros Hin. apply (Hnd b Hin). apply list_elem_of_here. }
  split.
  - intros i. by rewrite Hcg, <- Hc, elem_of_difference, not_elem_of_singleton.
  - rewrite Hcnt, Hn. rewrite size_difference by (by apply singleton_subseteq_l).
    rewrite size_singleton.
    assert (1 ≤ size F)%nat; [|lia].
    rewrite <- (size_singleton (C:=gset nat) b). apply subseteq_size.
    by apply singleton_subseteq_l.
  - intros i Hi. apply elem_of_difference. split.
    + apply Hs, elem_of_app. by left.
    + apply not_elem_of_singleton. by intros ->.
  - rewrite Htop, Hbot, <- Hupb.
    eapply chain_ext; [intros i _; apply Hup| |exact Hch'].
    intros i _. rewrite Hdn. by rewrite Hupb.
  - intros i HiF HiA _. rewrite Hup. apply elem_of_difference in HiF as [HiF Hib].
    apply not_elem_of_singleton in Hib.
    apply Hf; [done| |done]. rewrite elem_of_app, list_elem_of_singleton. tauto.
Qed.

Lemma search_open_chain st L F filename search_type modemask owners owngroups lk :
  lookup_list_count ≤ 208 → chain_inv st L F →
  lookup_list_at search_type = Some lk →
  filename ≫= (λ f, if is_tainted f then Some f else None) = None →
  (tree_search (search_tree st) (keybuffer_of search_type filename) ≫= cache_at st)
    ≫= c_handle = None →
  ∃ F',
    chain_inv (search_open st filename search_type modemask owners owngroups).2
      (if (lk_type lk =? lookup_absfile) && (open_filecount st >=? lookup_open_max)
       then removelast L else L) F' ∧
    ∀ i, i ∈ F' →
      (i ∈ F ∧ ((lk_type lk =? lookup_absfile) && (open_filecount st >=? lookup_open_max)
                = true → Some i ≠ last L))
      ∨ ¬ live st i.
Proof.
  intros Hcount Hinv Hlk Htaint Hcached. unfold search_open.
  rewrite Hlk, Htaint, Hcached.
  pose proof (absfile_keybuffer search_type filename lk Hcount Hlk) as Habs.
  remember (keybuffer_of search_type filename) as kb eqn:Hkb.
  remember (tree_search (search_tree st) kb) as t eqn:Ht.
  assert (unopened st t kb) as Hun.
  { destruct t as [i|]; [|done]. symmetry in Ht.
    apply tree_search_Some in Ht as (n & Hn & Hname). exists n.
    split; [done|]. split; [done|]. simpl in Hcached. unfold cache_at in Hcached.
    by rewrite Hn in Hcached. }
  clear Ht Hcached.
  set (evicting := (lk_type lk =? lookup_absfile) && (open_filecount st >=? lookup_open_max)).
  set (st1 := if evicting then evict_lru st else st).
  set (L1 := if evicting then removelast L else L).
  assert (∃ F1, chain_inv st1 L1 F1 ∧ unopened st1 t kb ∧
            slot_names st1 = slot_names st ∧
            (∀ i, i ∈ F1 → i ∈ F ∧ (evicting = true → Some i ≠ last L)))
    as (F1 & Hinv1 & Hun1 & Hnames & HF1).
  { unfold st1, L1. destruct evicting.
    - destruct (evict_lru_chain st L F Hinv) as (F1 & Hinv1 & HF1 & Hun1).
      exists F1. split; [done|]. split; [by apply Hun1|].
      split; [apply evict_lru_names|]. intros i Hi. split; [by apply HF1|].
      intros _. by apply HF1.
    - exists F. split; [done|]. split; [done|]. split; [done|]. by intros i Hi. }
  clearbody st1.
  assert (∀ st3 handle, links st1 = links st3 →
            ∃ F',
              chain_inv (enter_open st3 lk t kb search_type handle).2 L1 F' ∧
              ∀ i, i ∈ F' → (i ∈ F ∧ (evicting = true → Some i ≠ last L)) ∨ ¬ live st i)
    as Henter.
  { intros st3 handle Hl.
    assert (unopened st3 t kb) as Hun3 by (by apply (unopened_links st1)).
    assert (chain_inv st3 L1 F1) as Hinv3 by (by apply (chain_inv_links _ st1)).
    destruct (enter_open_fields st3 lk t kb search_type handle Hun3)
      as (t' & Hres & _ & _ & _ & Hother & (n' & Hn' & _) & _).
    assert (¬ live st t') as Hnl.
    { intros (c & Hc & Hh). unfold cache_at in Hc.
      destruct (search_tree st !! t') as [n|] eqn:Hn; [|done].
      simpl in Hc. injection Hc as <-.
      destruct t as [i|].
      - assert (t' = i) as -> by (unfold enter_open in Hres; by injection Hres).
        destruct Hun as (m & Hm & _ & Hnone). rewrite Hn in Hm. injection Hm as <-.
        rewrite Hnone in Hh. by destruct Hh.
      - assert (t' = length (search_tree st3)) as ->.
        { unfold enter_open in Hres. cbn [fst] in Hres. injection Hres as <-.
          by destruct (lk_type lk =? lookup_absfile). }
        apply lookup_lt_Some in Hn.
        pose proof (slot_names_links _ _ Hl) as Hnm. rewrite Hnames in Hnm.
        apply (f_equal length) in Hnm. unfold slot_names in Hnm.
        rewrite !length_fmap in Hnm. lia. }
    destruct (enter_open_inv st3 L1 F1 lk t kb search_type handle Hinv3 Hun3 Habs)
      as (t'' & F' & Hres' & Hinv' & _ & _).
    rewrite Hres in Hres'. injection Hres' as <-.
    exists F'. split; [done|]. intros i Hi.
    destruct (decide (i = t')) as [->|Hne]; [by right|]. left. apply HF1.
    destruct Hinv3 as [Hc3 _ _ _ _]. destruct Hinv' as [Hc' _ _ _ _].
    apply Hc3. apply Hc' in Hi. unfold counting in *. by rewrite <- Hother. }
  assert (∀ st3, links st1 = links st3 →
            ∃ F', chain_inv st3 L1 F' ∧
              ∀ i, i ∈ F' → (i ∈ F ∧ (evicting = true → Some i ≠ last L)) ∨ ¬ live st i)
    as Hfail.
  { intros st3 Hl. exists F1. split; [by apply (chain_inv_links _ st1)|].
    intros i Hi. left. by apply HF1. }
  destruct (lk_open lk filename _ _) as [[handle msg] w].
  destruct handle as [handle|]; [|by apply Hfail].
  destruct (lk_check lk) as [check|]; [|by apply Henter].
  destruct (check _ _ _ _ _ _ _) as [[ok msg'] w'].
  destruct ok; [by apply Henter|].
  cbn [fst snd]. apply Hfail. by rewrite call_close_links.
Qed.

(** X21: the least recently used file goes. In every run from the initial
    state in which search_find is only called with open handles, a
    search_open of a file that is not open, for a driver that uses real
    files, at a moment when the count has reached the maximum, takes the
    last slot off the LRU chain and leaves the rest of the chain as it was;
    that slot no longer holds an open file. *)
Theorem search_open_evicts_lru (w : W) (ops : list op) (L : list nat)
    filename search_type modemask owners owngroups lk :
  lookup_list_count ≤ 208 → finds_on_open (initial_state w) ops →
  lru_chain (run (initial_state w) ops) L →
  lookup_list_at search_type = Some lk → lk_type lk = lookup_absfile →
  filename ≫= (λ f, if is_tainted f then Some f else None) = None →
  (tree_search (search_tree (run (initial_state w) ops))
     (keybuffer_of search_type filename) ≫= cache_at (run (initial_state w) ops))
    ≫= c_handle = None →
  lookup_open_max ≤ open_filecount (run (initial_state w) ops) →
  lru_chain (search_open (run (initial_state w) ops) filename search_type modemask
               owners owngroups).2 (removelast L) ∧
  ∀ b, last L = Some b →
    counting (run (initial_state w) ops) b ∧
    ¬ counting (search_open (run (initial_state w) ops) filename search_type modemask
                  owners owngroups).2 b.
Proof.
  intros Hcount Hops Hchain Hlk Hty Htaint Hcached Hcap.
  destruct (run_inv _ [] ∅ ops Hcount (initial_inv w) Hops) as (L0 & F & Hinv).
  set (st := run (initial_state w) ops) in *.
  destruct (chain_inv_facts st L0 F Hinv) as ([Hseg0 _] & _ & Hcg & _).
  destruct Hchain as [Hseg _].
  pose proof (is_seg_unique _ _ _ _ Hseg Hseg0) as ->.
  destruct (search_open_chain st L0 F filename search_type modemask owners owngroups lk
              Hcount Hinv Hlk Htaint Hcached) as (F' & Hinv' & HF').
  rewrite Hty, Z.eqb_refl in Hinv', HF'.
  replace (open_filecount st >=? lookup_open_max) with true in Hinv', HF'
    by (symmetry; lia).
  cbn [andb] in Hinv', HF'.
  split; [by destruct (chain_inv_facts _ _ _ Hinv') as (? & _)|].
  intros b Hb.
  assert (counting st b) as Hcb.
  { apply Hcg. apply last_Some in Hb as [A ->]. apply elem_of_app. right.
    apply list_elem_of_here. }
  split; [done|]. intros Hcb'.
  destruct Hinv' as [Hc' _ _ _ _]. apply Hc' in Hcb'.
  destruct (HF' b Hcb') as [[_ Hne]|Hnl].
  - by destruct (Hne eq_refl).
  - by apply Hnl, counting_live.
Qed.

(** ** search_find: the keys of the partial lookups *)

Lemma dot_split s :
  cstring s →
  (span_to_dot s = String.length s ∧ after_dots s = [] ∧ count_dots s = 0) ∨
  ∃ a s', s = (a ++ String "." s')%string ∧ span_to_dot s = String.length a ∧
          after_dots s = s' :: after_dots s' ∧ count_dots s = 1 + count_dots s' ∧
          cstring s'.
Proof.
  induction s as [|c r IH]; intros Hs; [by left|]. destruct Hs as [Hc Hr]. simpl.
  destruct (Ascii.eqb c ".") eqn:E.
  - apply Ascii.eqb_eq in E. subst c. right. by exists "", r.
  - destruct (IH Hr) as [(Hsp & Had & Hcd)|(a & s' & Hs & Hsp & Had & Hcd & Hcs)].
    + left. by rewrite Hsp, Had, Hcd.
    + right. exists (String c a), s'. simpl. rewrite Hsp, Hcd.
      split; [by rewrite append_cons, <- Hs|]. done.
Qed.

Lemma count_dots_nonneg s : 0 ≤ count_dots s.
Proof. induction s as [|c r IH]; simpl; [done|]. destruct (Ascii.eqb c "."); lia. Qed.

Lemma buffer_of_app a b : buffer_of (a ++ b) = list_ascii_of_string a ++ buffer_of b.
Proof. unfold buffer_of. by rewrite list_ascii_of_string_app, app_assoc. Qed.

Lemma mem_cstr_at m b pre s :
  block_of m b = pre ++ buffer_of s → cstring s →
  mem_cstr m (b, Z.of_nat (length pre)) = s.
Proof.
  intros Hb Hs. unfold mem_cstr. simpl.
  destruct (Z.ltb_spec (Z.of_nat (length pre)) 0); [lia|].
  rewrite Nat2Z.id, Hb, drop_app_length. by apply cstr_of_buffer.
Qed.

Lemma mem_byte_at m b pre c post :
  block_of m b = pre ++ c :: post →
  mem_byte m (b, Z.of_nat (length pre)) = c.
Proof.
  intros Hb. unfold mem_byte. simpl.
  destruct (Z.ltb_spec (Z.of_nat (length pre)) 0); [lia|].
  by rewrite Nat2Z.id, Hb, list_lookup_middle.
Qed.

Lemma list_inserts_middle {A} (l1 l2 l3 bs : list A) :
  length bs = length l2 →
  list_inserts (length l1) bs (l1 ++ l2 ++ l3) = l1 ++ bs ++ l3.
Proof.
  intros Hl. rewrite <- (Nat.add_0_r (length l1)), list_inserts_app_r. f_equal.
  by apply list_inserts_0_r.
Qed.

Lemma block_of_set_block m b v : block_of (set_block m b v) b = v.
Proof. by destruct b. Qed.

Lemma mem_write_at m b l1 l2 l3 bs :
  block_of m b = l1 ++ l2 ++ l3 → length bs = length l2 →
  block_of (mem_write m (b, Z.of_nat (length l1)) bs) b = l1 ++ bs ++ l3.
Proof.
  intros Hb Hl. unfold mem_write. simpl.
  destruct (Z.ltb_spec (Z.of_nat (length l1)) 0); [lia|].
  by rewrite Nat2Z.id, Hb, list_inserts_middle, block_of_set_block.
Qed.

Lemma cstring_take n s : cstring s → cstring (string_take n s).
Proof.
  revert s. induction n as [|n IH]; intros [|c r] Hs; simpl; try done.
  destruct Hs. split; [done|]. by apply IH.
Qed.

Lemma peek_drop_app k a r :
  (k < String.length a)%nat → peek (string_drop k (a ++ r)) = peek (string_drop k a).
Proof.
  revert a. induction k as [|k IH]; intros [|c a] Hk; simpl in *; try lia; [done|].
  apply IH. lia.
Qed.

Lemma strncpy_bytes_take aff rest n :
  (n ≤ String.length aff)%nat →
  strncpy_bytes (aff ++ rest) (Z.of_nat n) = list_ascii_of_string (string_take n aff).
Proof.
  intros Hn. rewrite <- (string_take_drop n aff) at 1. rewrite append_assoc_s.
  replace (Z.of_nat n) with (Ustrlen (string_take n aff))
    by (unfold Ustrlen; by rewrite string_take_length).
  apply strncpy_bytes_prefix.
Qed.

(** The affix on its own, written at the start of the block. *)
Lemma affix_alone m b pre s aff rest n :
  block_of m b = pre ++ buffer_of s → (String.length aff ≤ length pre)%nat →
  cstring aff → (n ≤ String.length aff)%nat →
  mem_cstr (mem_write (mem_write m (b, 0) (strncpy_bytes (aff ++ rest) (Z.of_nat n)))
              (ptr_add (b, 0) (Z.of_nat n)) [NUL]) (b, 0)
  = string_take n aff.
Proof.
  intros Hb Hpre Haff Hn. rewrite strncpy_bytes_take by done.
  set (bs := list_ascii_of_string (string_take n aff)).
  assert (length bs = n) as Hbs
    by (unfold bs; by rewrite length_list_ascii_of_string, string_take_length).
  set (l := block_of m b) in *.
  assert (n < length l)%nat as Hl.
  { rewrite Hb, length_app. unfold buffer_of. rewrite length_app. simpl. lia. }
  destruct (drop n l) as [|x tl] eqn:Hdrop.
  { apply (f_equal length) in Hdrop. rewrite length_drop in Hdrop. simpl in Hdrop. lia. }
  assert (l = take n l ++ [x] ++ tl) as Hsplit
    by (rewrite <- (take_drop n l) at 1; by rewrite Hdrop).
  assert (length (take n l) = n) as Htake by (rewrite length_take; lia).
  assert (block_of (mem_write m (b, 0) bs) b = bs ++ [x] ++ tl) as Hb1.
  { pose proof (mem_write_at m b [] (take n l) ([x] ++ tl) bs) as Hw.
    simpl in Hw. apply Hw; [|lia]. fold l. by rewrite Hsplit at 1. }
  assert (block_of (mem_write (mem_write m (b, 0) bs) (ptr_add (b, 0) (Z.of_nat n)) [NUL]) b
          = bs ++ [NUL] ++ tl) as Hb2.
  { unfold ptr_add. cbn [fst snd]. rewrite Z.add_0_l, <- Hbs.
    apply (mem_write_at _ b bs [x] tl [NUL]); [exact Hb1|done]. }
  unfold mem_cstr. cbn [fst snd]. replace (0 <? 0) with false by done.
  change (Z.to_nat 0) with 0%nat. rewrite drop_0, Hb2. unfold bs.
  rewrite cstr_of_bytes_app by (by apply cstring_take). simpl.
  apply append_empty_r.
Qed.

(** The affix written so that it ends on the dot that [keystring3] has
    reached. *)
Lemma affix_on_dot m b pre a s' aff rest :
  block_of m b = pre ++ buffer_of (a ++ String "." s') →
  (String.length aff ≤ length pre)%nat → cstring aff → cstring s' →
  (b = BlkKey → aff = "") →
  let p := ptr_add (ptr_add (b, Z.of_nat (length pre)) (Z.of_nat (String.length a)))
             (- (Ustrlen aff - 1)) in
  let m' := if Ustrlen aff >? 0
            then mem_write m p (strncpy_bytes (aff ++ rest) (Ustrlen aff)) else m in
  mem_cstr m' p = (aff ++ s')%string ∧ m_key m' = m_key m ∧
  ∃ pre', block_of m' b = pre' ++ buffer_of s' ∧
          ptr_add p (Ustrlen aff) = (b, Z.of_nat (length pre')) ∧
          (String.length aff ≤ length pre')%nat.
Proof.
  intros Hb Hpre Haff Hs' Hblk. rewrite buffer_of_app in Hb.
  change (buffer_of (String "." s')) with ("."%char :: buffer_of s') in Hb.
  set (X := pre ++ list_ascii_of_string a ++ ["."%char]).
  assert (block_of m b = X ++ buffer_of s') as HbX.
  { rewrite Hb. unfold X. by rewrite <- !app_assoc. }
  assert (length X = (length pre + String.length a + 1)%nat) as HX.
  { unfold X. rewrite !length_app, length_list_ascii_of_string. simpl. lia. }
  set (w := (length X - String.length aff)%nat).
  assert (length (take w X) = w) as Htake by (rewrite length_take; lia).
  assert (length (drop w X) = String.length aff) as Hdrop by (rewrite length_drop; lia).
  intros p m'.
  assert (p = (b, Z.of_nat (length (take w X)))) as Hp.
  { unfold p, ptr_add, Ustrlen. cbn [fst snd]. f_equal. lia. }
  rewrite Hp. destruct (Ustrlen aff >? 0) eqn:Hpos.
  - assert (block_of m' b
            = take w X ++ list_ascii_of_string aff ++ buffer_of s') as Hb'.
    { unfold m'. rewrite Hp, strncpy_bytes_prefix.
      apply (mem_write_at m b (take w X) (drop w X) (buffer_of s')).
      - by rewrite app_assoc, take_drop.
      - by rewrite length_list_ascii_of_string. }
    split; [|split].
    + unfold mem_cstr. cbn [fst snd].
      destruct (Z.ltb_spec (Z.of_nat (length (take w X))) 0); [lia|].
      rewrite Nat2Z.id, Hb', drop_app_length.
      rewrite cstr_of_bytes_app by done. f_equal. by apply cstr_of_buffer.
    + unfold m'. destruct b; [|by apply mem_write_other].
      rewrite Hblk in Hpos by done. done.
    + exists (take w X ++ list_ascii_of_string aff). split; [by rewrite <- app_assoc|].
      rewrite length_app, length_list_ascii_of_string.
      split; [|lia]. unfold ptr_add, Ustrlen. cbn [fst snd]. f_equal. lia.
  - assert (aff = "") as ->.
    { destruct aff; [done|]. rewrite Z.gtb_ltb in Hpos. apply Z.ltb_ge in Hpos.
      unfold Ustrlen in Hpos. simpl String.length in Hpos. lia. }
    assert (w = length X) as Hw by (unfold w; simpl; lia).
    rewrite Hw, take_ge by lia. split; [|split].
    + by apply mem_cstr_at.
    + done.
    + exists X. split; [done|]. split; [|simpl; lia].
      unfold ptr_add, Ustrlen. cbn [fst snd]. simpl. f_equal. lia.
Qed.

Lemma expand_trimmed_probes st m es keystring3 affixlen :
  probes (expand_trimmed st m es keystring3 affixlen).1 = probes st.
Proof. unfold expand_trimmed, expand_pair. by destruct (expanding es). Qed.

Lemma trimmed_keys_stop partial aff s :
  count_dots s < partial → trimmed_keys partial aff s = [].
Proof.
  intros Hlt. unfold trimmed_keys.
  replace (Z.to_nat (count_dots s - partial + 1)) with 0%nat by lia. done.
Qed.

Lemma trimmed_keys_dot partial aff a s' :
  partial ≤ count_dots (a ++ String "." s') →
  after_dots (a ++ String "." s') = s' :: after_dots s' →
  count_dots (a ++ String "." s') = 1 + count_dots s' →
  trimmed_keys partial aff (a ++ String "." s')
  = (aff ++ s')%string :: trimmed_keys partial aff s'.
Proof.
  intros Hge Had Hcd. unfold trimmed_keys. rewrite Had, Hcd in *.
  replace (Z.to_nat (1 + count_dots s' - partial + 1))
    with (S (Z.to_nat (count_dots s' - partial + 1))) by lia.
  done.
Qed.

Lemma string_drop_ge n s : (String.length s ≤ n)%nat → string_drop n s = "".
Proof.
  revert s. induction n as [|n IH]; intros [|c r] Hn; simpl in *; try done; try lia.
  apply IH. lia.
Qed.

Lemma cstr_of_string s : cstring s → cstr_of_bytes (list_ascii_of_string s) = s.
Proof.
  intros Hs. rewrite <- (app_nil_r (list_ascii_of_string s)).
  rewrite cstr_of_bytes_app by done. apply append_empty_r.
Qed.

(** Copying the end of the caller's key. *)
Lemma mem_copyn_end m (x s : string) :
  m_key m = buffer_of (x ++ s) → cstring s →
  mem_copyn m (ptr_add keystring_ptr (Ustrlen (x ++ s) - Ustrlen s - 1 + 1)) (Ustrlen s) = s.
Proof.
  intros Hm Hs. unfold mem_copyn, ptr_add, keystring_ptr, Ustrlen. cbn [fst snd block_of].
  rewrite string_length_app.
  replace (0 + (Z.of_nat (String.length x + String.length s) - Z.of_nat (String.length s)
                - 1 + 1)) with (Z.of_nat (String.length x)) by lia.
  destruct (Z.ltb_spec (Z.of_nat (String.length x)) 0); [lia|].
  rewrite !Nat2Z.id, Hm, buffer_of_app.
  rewrite <- (length_list_ascii_of_string x), drop_app_length. unfold buffer_of.
  rewrite take_app_length' by (by rewrite length_list_ascii_of_string).
  by apply cstr_of_string.
Qed.

Lemma expand_trimmed_vars st m es p affixlen (x fixed : string) :
  m_key m = buffer_of (x ++ fixed) → cstring (x ++ fixed) → cstring fixed →
  Ustrlen (mem_cstr m p) - affixlen = Ustrlen fixed →
  trimmed_vars (x ++ fixed) fixed es (expand_trimmed st m es p affixlen).1
    (expand_trimmed st m es p affixlen).2.
Proof.
  intros Hm Hk Hf Hlen. unfold trimmed_vars, expand_trimmed.
  destruct (expanding es) as [n|]; [|done].
  rewrite Hlen, (mem_cstr_key_only m (x ++ fixed)) by done.
  assert ((Ustrlen fixed <? 0) = false) as -> by (apply Z.ltb_ge; unfold Ustrlen; lia).
  rewrite mem_copyn_end by done.
  unfold expand_pair. cbn [fst snd set_expand expand_nstring expand_nlength].
  split; [done|].
  split; [rewrite lookup_insert_ne by lia; by rewrite lookup_insert_eq|].
  split; [rewrite lookup_insert_ne by lia; by rewrite lookup_insert_eq|].
  split; by rewrite lookup_insert_eq.
Qed.

Lemma partial_loop_keys (b : block) (aff rest key : string) handle filename cache_rd opts
    partial fuel :
  cstring aff → 0 ≤ partial → (b = BlkKey → aff = "") → cstring key →
  ∀ st m es (x : string) pre (s : string) be,
    m_key m = buffer_of key → key = (x ++ s)%string →
    block_of m b = pre ++ buffer_of s → (String.length aff ≤ length pre)%nat →
    cstring s →
    partial_loop fuel handle filename cache_rd opts partial (aff ++ rest) (b, 0)
      st m es (count_dots s) (b, Z.of_nat (length pre)) (Ustrlen aff) = Some be →
    ∃ P, probes (end_state be) = probes st ++ ((λ k, (AffixTrimmed, k)) <$> P) ∧
         P `prefix_of` trimmed_keys partial aff s ∧
         match be with
         | ReturnNull st' _ _ => search_find_defer st' = true
         | FallThrough None _ _ _ _ => P = trimmed_keys partial aff s
         | FallThrough (Some _) st' _ es' _ =>
             ∃ P' k, P = P' ++ [k] ∧
                     trimmed_vars key (string_drop (String.length aff) k) es st' es'
         end.
Proof.
  intros Haff Hpartial Hblk Hkey.
  induction fuel as [|fuel IH]; intros st m es x pre s be Hm Hx Hb Hpre Hs;
    cbn [partial_loop].
  - destruct (count_dots s >=? partial) eqn:E; [done|]. intros [= <-].
    exists []. simpl. rewrite app_nil_r, trimmed_keys_stop by lia. done.
  - destruct (count_dots s >=? partial) eqn:E.
    2:{ intros [= <-]. exists []. simpl.
        rewrite app_nil_r, trimmed_keys_stop by lia. done. }
    rewrite (mem_cstr_at m b pre s) by done.
    destruct (dot_split s Hs) as [(Hsp & Had & Hcd)|(a & s' & Hss & Hsp & Had & Hcd & Hs')].
    + (* the end of the key *)
      assert (partial = 0) as -> by lia.
      rewrite Hsp.
      assert (mem_byte m (ptr_add (b, Z.of_nat (length pre)) (Z.of_nat (String.length s)))
              = NUL) as ->.
      { replace (ptr_add (b, Z.of_nat (length pre)) (Z.of_nat (String.length s)))
          with (b, Z.of_nat (length (pre ++ list_ascii_of_string s))).
        - apply (mem_byte_at m b _ NUL []). rewrite Hb. unfold buffer_of.
          by rewrite app_assoc.
        - unfold ptr_add. cbn [fst snd]. f_equal.
          rewrite length_app, length_list_ascii_of_string. lia. }
      rewrite Ascii.eqb_refl.
      destruct (Z.ltb_spec (Ustrlen aff) 1) as [Hlen|Hlen].
      { intros [= <-]. exists []. simpl. rewrite app_nil_r.
        assert (aff = "") as ->
          by (destruct aff; [done|]; unfold Ustrlen in Hlen; simpl String.length in Hlen; lia).
        unfold trimmed_keys. rewrite Had. simpl. by rewrite take_nil. }
      assert (aff ≠ "") as Hne by (intros ->; unfold Ustrlen in Hlen; simpl in Hlen; lia).
      assert (b = BlkKs2) as Hb2 by (destruct b; [by destruct Hne; apply Hblk|done]).
      set (n' := if (Ustrlen aff >? 1) && _ then Ustrlen aff - 1 else Ustrlen aff).
      assert (∃ k : nat, n' = Z.of_nat k ∧ (k ≤ String.length aff)%nat ∧
                         string_take k aff = chop_dot aff) as (k & Hn' & Hk & Hchop).
      { subst n'. unfold chop_dot. rewrite peek_drop_app by (unfold Ustrlen in *; lia).
        destruct (_ && _).
        - exists (Z.to_nat (Ustrlen aff - 1)). unfold Ustrlen in *. split; [lia|].
          split; [lia|done].
        - exists (String.length aff). split; [done|]. split; [done|].
          rewrite <- (append_empty_r aff) at 2. apply string_take_app. }
      clearbody n'. subst n'.
      rewrite (affix_alone m b pre s aff rest k Hb Hpre Haff Hk), Hchop.
      set (m2 := mem_write (mem_write m (b, 0) _) _ _).
      assert (m_key m2 = buffer_of key) as Hm2.
      { unfold m2. rewrite mem_write_other by (by rewrite Hb2).
        by rewrite mem_write_other by (by rewrite Hb2). }
      assert (trimmed_keys 0 aff s = [chop_dot aff]) as Htk.
      { unfold trimmed_keys. rewrite Had, Hcd. simpl.
        by rewrite bool_decide_eq_false_2. }
      destruct (internal_search_find _ _ _ _ _ _) as [yield st1] eqn:Hf.
      apply internal_search_find_probes in Hf. simpl in Hf.
      destruct (search_find_defer st1) eqn:Hdefer.
      { intros [= <-]. exists [chop_dot aff]. rewrite Htk. by simpl. }
      destruct yield as [v|].
      { destruct (expand_trimmed _ _ _ _ _) as [st2 es2] eqn:Het. intros [= <-].
        exists [chop_dot aff]. rewrite Htk. simpl. split.
        - pose proof (expand_trimmed_probes st1 m2 es (b, 0) (Z.of_nat k)) as Hp.
          rewrite Het in Hp. simpl in Hp. by rewrite Hp, Hf.
        - split; [done|]. exists [], (chop_dot aff). split; [done|].
          rewrite string_drop_ge
            by (rewrite <- Hchop, string_take_length by done; done).
          pose proof (expand_trimmed_vars st1 m2 es (b, 0) (Z.of_nat k) key "") as Hv.
          rewrite append_empty_r, Het in Hv. apply Hv; try done.
          unfold m2. rewrite (affix_alone m b pre s aff rest k Hb Hpre Haff Hk).
          unfold Ustrlen. rewrite string_take_length by done. simpl. lia. }
      rewrite partial_loop_exit by lia. intros [= <-].
      exists [chop_dot aff]. rewrite Htk. by simpl.
    + (* a dot *)
      subst s. rewrite Hsp.
      assert (mem_byte m (ptr_add (b, Z.of_nat (length pre)) (Z.of_nat (String.length a)))
              = "."%char) as ->.
      { replace (ptr_add (b, Z.of_nat (length pre)) (Z.of_nat (String.length a)))
          with (b, Z.of_nat (length (pre ++ list_ascii_of_string a))).
        - apply (mem_byte_at m b _ "."%char (buffer_of s')). rewrite Hb, buffer_of_app.
          by rewrite <- app_assoc.
        - unfold ptr_add. cbn [fst snd]. f_equal.
          rewrite length_app, length_list_ascii_of_string. lia. }
      replace (Ascii.eqb "." NUL) with false by done.
      pose proof (affix_on_dot m b pre a s' aff rest Hb Hpre Haff Hs' Hblk) as Hd.
      cbv zeta in Hd. destruct Hd as (Hk3 & Hmk & pre' & Hb' & Hptr & Hpre').
      set (p := ptr_add (ptr_add _ _) _) in *.
      set (m' := if Ustrlen aff >? 0 then _ else m) in *.
      rewrite Hk3.
      rewrite (trimmed_keys_dot partial aff a s') by (done || lia).
      destruct (internal_search_find _ _ _ _ _ _) as [yield st1] eqn:Hf.
      apply internal_search_find_probes in Hf. simpl in Hf.
      destruct (search_find_defer st1) eqn:Hdefer.
      { intros [= <-]. exists [(aff ++ s')%string]. simpl.
        split; [done|]. split; [|done]. by apply prefix_cons, prefix_nil. }
      destruct yield as [v|].
      { destruct (expand_trimmed _ _ _ _ _) as [st2 es2] eqn:Het. intros [= <-].
        exists [(aff ++ s')%string]. simpl. split.
        - pose proof (expand_trimmed_probes st1 m' es p (Ustrlen aff)) as Hp.
          rewrite Het in Hp. simpl in Hp. by rewrite Hp, Hf.
        - split; [by apply prefix_cons, prefix_nil|].
          exists [], (aff ++ s')%string. split; [done|].
          rewrite string_drop_app.
          pose proof (expand_trimmed_vars st1 m' es p (Ustrlen aff)
                        (x ++ a ++ String "." "") s') as Hv.
          assert (((x ++ a ++ String "." "") ++ s')%string = key) as Hkeq.
          { rewrite Hx, !append_assoc_s. done. }
          rewrite Hkeq, Het in Hv. apply Hv; try done; [congruence|].
          rewrite Hk3. unfold Ustrlen. rewrite string_length_app. lia. }
      rewrite Hptr. replace (count_dots (a ++ String "." s') - 1) with (count_dots s') by lia.
      intros Hloop.
      destruct (IH st1 m' es (x ++ a ++ String "." "")%string pre' s' be) as (P & Hp & Hpre2 & Hend);
        try done.
      { congruence. }
      { rewrite Hx, !append_assoc_s. done. }
      exists ((aff ++ s')%string :: P). split; [|split].
      * rewrite Hp, Hf. simpl. by rewrite <- app_assoc.
      * by apply prefix_cons.
      * destruct be as [st2 m2 es2|[v|] st2 m2 es2 snw]; [done| |by rewrite Hend].
        destruct Hend as (P' & k & -> & Hv). by exists ((aff ++ s')%string :: P'), k.
Qed.

Lemma last_probe_differs {A} (P P' : list A) (a b : A) :
  P ++ [a] = P' ++ [b] → a = b.
Proof. intros Heq. by apply app_inj_tail in Heq as [_ ?]. Qed.

Lemma prefix_of_fmap {A B} (f : A → B) (l1 l2 : list A) :
  l1 `prefix_of` l2 → (f <$> l1) `prefix_of` (f <$> l2).
Proof. intros [k ->]. exists (f <$> k). by rewrite fmap_app. Qed.

(** The lookups of the first half of search_find. *)
Lemma search_find_first_keys handle filename cache_rd opts partial (aff rest key : string)
    st es be :
  cstring aff → cstring key →
  search_find_first handle filename cache_rd opts partial (aff ++ rest) (Ustrlen aff)
    st {| m_key := buffer_of key; m_ks2 := [] |} es = Some be →
  ∃ P, probes (end_state be) = probes st ++ P ∧
       P `prefix_of` first_keys partial aff key ∧
       match be with
       | ReturnNull st' _ _ => search_find_defer st' = true
       | FallThrough None _ _ _ _ => P = first_keys partial aff key
       | FallThrough (Some _) st' _ es' snw =>
           ∀ P' k, P = P' ++ [(AffixTrimmed, k)] →
             snw = false ∧
             trimmed_vars key (string_drop (String.length aff) k) es st' es'
       end.
Proof.
  intros Haff Hkey. unfold search_find_first, first_keys.
  rewrite mem_cstr_keystring by done.
  destruct (internal_search_find _ _ _ _ _ _) as [y st1] eqn:Hverb.
  apply internal_search_find_probes in Hverb. simpl in Hverb.
  destruct (search_find_defer st1) eqn:Hdefer.
  { intros [= <-]. exists [(Verbatim, key)]. simpl.
    split; [done|]. split; [|done]. by apply prefix_cons, prefix_nil. }
  destruct y as [v|].
  { intros [= <-]. exists [(Verbatim, key)]. simpl.
    split; [done|]. split; [by apply prefix_cons, prefix_nil|].
    intros P' k HP. by apply (last_probe_differs []) in HP. }
  unfold partial_keys.
  destruct (Z.ltb_spec partial 0) as [Hneg|Hpos].
  { assert ((partial >=? 0) = false) as -> by lia. intros [= <-].
    exists [(Verbatim, key)]. by simpl. }
  assert ((partial >=? 0) = true) as -> by lia.
  unfold search_find_partial.
  destruct (Z.eqb_spec (Ustrlen aff) 0) as [Hz|Hz].
  - assert (aff = "") as ->
      by (destruct aff; [done|]; unfold Ustrlen in Hz; simpl String.length in Hz; lia).
    rewrite bool_decide_eq_true_2 by done.
    change (ptr_add keystring_ptr (Ustrlen "")) with (BlkKey, Z.of_nat (length (@nil ascii))).
    rewrite (mem_cstr_at _ BlkKey [] key) by done.
    intros Hloop.
    destruct (partial_loop_keys BlkKey "" rest key _ _ _ _ _ _ Haff Hpos (λ _, eq_refl) Hkey
                st1 {| m_key := buffer_of key; m_ks2 := [] |} es "" [] key be
                eq_refl eq_refl eq_refl (Nat.le_refl _) Hkey Hloop)
      as (P & Hp & Hpre & Hend).
    exists ((Verbatim, key) :: ((λ k, (AffixTrimmed, k)) <$> P)). split; [|split].
    + rewrite Hp, Hverb. by rewrite <- app_assoc.
    + apply prefix_cons. simpl. by apply prefix_of_fmap.
    + destruct be as [st2 m2 es2|[v|] st2 m2 es2 snw]; [done| |by rewrite Hend].
      destruct Hend as (P' & k & -> & Hv). intros P'' k' HP.
      split; [by apply partial_loop_none in Hloop|].
      rewrite fmap_app in HP. simpl in HP.
      apply (last_probe_differs (_ :: _)) in HP. by injection HP as <-.
  - assert (aff ≠ "") as Hne by (intros ->; by apply Hz).
    rewrite bool_decide_eq_false_2 by done.
    rewrite build_keystring2_spec by done.
    set (m2 := {| m_key := buffer_of key;
                  m_ks2 := list_ascii_of_string aff ++ buffer_of key |}).
    assert (mem_cstr m2 (BlkKs2, 0) = (aff ++ key)%string) as ->.
    { change (mem_cstr _ (BlkKs2, 0))
        with (cstr_of_bytes (list_ascii_of_string aff ++ buffer_of key)).
      rewrite cstr_of_bytes_app by done. by rewrite cstr_of_buffer. }
    destruct (internal_search_find (record_probe AffixWhole _ _) _ _ _ _ _)
      as [y st2] eqn:Hwild.
    apply internal_search_find_probes in Hwild. simpl in Hwild.
    destruct (search_find_defer st2) eqn:Hdefer2.
    { intros [= <-]. exists [(Verbatim, key); (AffixWhole, (aff ++ key)%string)]. simpl.
      split; [by rewrite Hwild, Hverb, <- app_assoc|]. split; [|done].
      by apply prefix_cons, prefix_cons, prefix_nil. }
    destruct y as [v|].
    { intros [= <-]. exists [(Verbatim, key); (AffixWhole, (aff ++ key)%string)]. simpl.
      split; [by rewrite Hwild, Hverb, <- app_assoc|].
      split; [by apply prefix_cons, prefix_cons, prefix_nil|].
      intros P' k HP. by apply (last_probe_differs [_]) in HP. }
    assert (ptr_add (BlkKs2, 0) (Ustrlen aff)
            = (BlkKs2, Z.of_nat (length (list_ascii_of_string aff)))) as ->.
    { unfold ptr_add, Ustrlen. cbn [fst snd]. by rewrite length_list_ascii_of_string. }
    rewrite (mem_cstr_at m2 BlkKs2 (list_ascii_of_string aff) key) by done.
    intros Hloop.
    destruct (partial_loop_keys BlkKs2 aff rest key _ _ _ _ _ _ Haff Hpos
                ltac:(discriminate) Hkey
                st2 m2 es "" (list_ascii_of_string aff) key be eq_refl eq_refl eq_refl
                ltac:(by rewrite length_list_ascii_of_string) Hkey Hloop)
      as (P & Hp & Hpre & Hend).
    exists ((Verbatim, key) :: (AffixWhole, (aff ++ key)%string)
            :: ((λ k, (AffixTrimmed, k)) <$> P)).
    split; [|split].
    + rewrite Hp, Hwild, Hverb. by rewrite <- !app_assoc.
    + apply prefix_cons. simpl. apply prefix_cons. by apply prefix_of_fmap.
    + destruct be as [st3 m3 es3|[v|] st3 m3 es3 snw]; [done| |by rewrite Hend].
      destruct Hend as (P' & k & -> & Hv). intros P'' k' HP.
      split; [by apply partial_loop_none in Hloop|].
      rewrite fmap_app in HP. simpl in HP.
      apply (last_probe_differs (_ :: _ :: _)) in HP. by injection HP as <-.
Qed.

Lemma search_find_starat_quiet handle filename cache_rd opts starflags st m es snw :
  search_find_starat handle filename cache_rd opts starflags None st m es snw
  = FallThrough None st m es snw ∨
  ∃ p, probes (end_state (search_find_starat handle filename cache_rd opts starflags
                            None st m es snw)) = probes st ++ [p].
Proof.
  unfold search_find_starat.
  destruct (_ && _); [|by left].
  destruct (Ustrrchr _ _) as [atat|]; [|by left].
  destruct (0 <? atat)%nat; [|by left].
  right. destruct (internal_search_find _ _ _ _ _ _) as [y st'] eqn:Hf.
  apply internal_search_find_probes in Hf. simpl in Hf. eexists.
  unfold expand_pair. repeat case_match; simplify_eq; simpl; exact Hf.
Qed.

Lemma search_find_star_quiet handle filename cache_rd opts starflags st m es :
  search_find_star handle filename cache_rd opts starflags None st m es = (None, st, es) ∨
  probes (search_find_star handle filename cache_rd opts starflags None st m es).1.2
  = probes st ++ [(Star, "*")].
Proof.
  unfold search_find_star.
  destruct (_ && _); [|by left].
  right. destruct (internal_search_find _ _ _ _ _ _) as [y st'] eqn:Hf.
  apply internal_search_find_probes in Hf. simpl in Hf.
  unfold expand_pair. repeat case_match; simplify_eq; simpl; exact Hf.
Qed.

Lemma search_find_star_probes handle filename cache_rd opts starflags y st m es :
  ∃ l, probes (search_find_star handle filename cache_rd opts starflags y st m es).1.2
       = probes st ++ l.
Proof.
  destruct y as [v|]; [exists []; by rewrite search_find_star_hit, app_nil_r|].
  destruct (search_find_star_quiet handle filename cache_rd opts starflags st m es)
    as [Hq|Hq]; rewrite Hq; [exists []; by rewrite app_nil_r|by eexists].
Qed.

(** When the first half has found nothing and no default is looked up,
    search_find returns NULL. *)
Lemma search_find_defaults_quiet handle filename cache_rd opts starflags ret_key
    st m es snw :
  probes (r_state (search_find_defaults handle filename cache_rd opts starflags ret_key
                     (FallThrough None st m es snw))) = probes st →
  r_yield (search_find_defaults handle filename cache_rd opts starflags ret_key
             (FallThrough None st m es snw)) = None.
Proof.
  unfold search_find_defaults.
  destruct (search_find_starat_quiet handle filename cache_rd opts starflags st m es snw)
    as [->|[p Hp]].
  - destruct (search_find_star_quiet handle filename cache_rd opts starflags st m es)
      as [->|Hq].
    + intros _. by repeat case_match.
    + destruct (search_find_star _ _ _ _ _ _ _ _ _) as [[y2 st2] es2]. simpl in Hq.
      intros Hprobes. exfalso.
      assert (probes st2 = probes st) as Heq.
      { rewrite <- Hprobes. unfold expand_pair. by repeat case_match. }
      rewrite Heq in Hq. apply (f_equal length) in Hq. rewrite length_app in Hq.
      simpl in Hq. lia.
  - destruct (search_find_starat _ _ _ _ _ _ _ _ _ _) as [st1 m1 es1|y1 st1 m1 es1 snw1];
      [done|]. simpl in Hp.
    destruct (search_find_star_probes handle filename cache_rd opts starflags y1 st1 m1 es1)
      as [l Hl].
    destruct (search_find_star _ _ _ _ _ _ _ _ _) as [[y2 st2] es2]. simpl in Hl.
    intros Hprobes. exfalso.
    assert (probes st2 = probes st) as Heq.
    { rewrite <- Hprobes. unfold expand_pair. by repeat case_match. }
    rewrite Heq, Hp in Hl. apply (f_equal length) in Hl. rewrite !length_app in Hl.
    simpl in Hl. lia.
Qed.

Lemma search_find_defaults_hit handle filename cache_rd opts starflags ret_key
    v st m es :
  search_find_defaults handle filename cache_rd opts starflags ret_key
    (FallThrough (Some v) st m es false)
  = {| r_yield := if ret_key then Some (mem_cstr m keystring_ptr) else Some v;
       r_state := st; r_keystring := m_key m; r_expand_setup := es |}.
Proof.
  unfold search_find_defaults. by rewrite search_find_starat_hit, search_find_star_hit.
Qed.


(** X23: the variables after a match with components cut off. When
    search_find returns a match and the last key it looked up was one with
    leading components cut off, the two variables it sets (if any are
    wanted) are: the wild part, the caller's key up to the dot before the
    fixed part, and the fixed part, a copy of the key looked up without the
    affix. When the key looked up was the affix on its own the fixed part is
    empty, and the wild part is the caller's key without its last
    character. *)
Theorem search_find_trimmed_match st handle filename (keystring : string) partial
    (aff rest_aff : string) starflags expand_setup opts r P k :
  cstring aff → cstring keystring →
  search_find st handle filename keystring partial (aff ++ rest_aff) (Ustrlen aff)
    starflags expand_setup opts = Some r →
  probes (r_state r) = probes st ++ P ++ [(AffixTrimmed, k)] →
  is_Some (r_yield r) →
  trimmed_vars keystring (string_drop (String.length aff) k) expand_setup
    (r_state r) (r_expand_setup r).
Proof.
  intros Haff Hkey. unfold search_find.
  destruct (search_find_options opts) as [[ret_key cache_rd] opts'].
  destruct (search_find_first_total handle filename cache_rd opts' partial (aff ++ rest_aff)
              (Ustrlen aff) (lru_promote st handle)
              {| m_key := buffer_of keystring; m_ks2 := [] |} expand_setup) as [be Hbe].
  rewrite Hbe. change (?f <$> Some ?x) with (Some (f x)). intros [= <-] Hprobes Hy.
  destruct (search_find_first_keys _ _ _ _ _ _ _ _ _ _ _ Haff Hkey Hbe)
    as (P0 & Hp & _ & Hend).
  rewrite lru_promote_probes in Hp.
  destruct (search_find_defaults_probes handle filename cache_rd opts' starflags ret_key be)
    as (rest & Hr & Hd).
  rewrite Hr, Hp, <- app_assoc in Hprobes. apply app_inv_head in Hprobes.
  destruct rest as [|p rest _] using rev_ind.
  2:{ exfalso. rewrite app_assoc in Hprobes. apply last_probe_differs in Hprobes.
      apply Forall_app in Hd as [_ Hd]. apply Forall_inv in Hd.
      subst p. destruct Hd as [Hd|Hd]; simpl in Hd; discriminate Hd. }
  rewrite app_nil_r in Hprobes, Hr.
  destruct be as [st1 m1 es1|[v|] st1 m1 es1 snw].
  - exfalso. simpl in Hy. by destruct Hy.
  - destruct (Hend P k Hprobes) as [-> Hv].
    by rewrite search_find_defaults_hit.
  - exfalso. simpl in Hr. apply search_find_defaults_quiet in Hr.
    rewrite Hr in Hy. by destruct Hy.
Qed.

End Search.

(** * A concrete driver table

    Six drivers in [strcmp] order, with made-up back ends: an open hook that
    hands out the length of the file name as handle, and find hooks that
    answer from a fixed table. The world is the clock. *)

Definition ex_fail : find_out :=
  {| fo_rc := 2; fo_result := None; fo_errmsg := ""; fo_do_cache := UINT_MAX |}.

Definition ex_ok (v : string) (ttl : Z) : find_out :=
  {| fo_rc := 0; fo_result := Some v; fo_errmsg := ""; fo_do_cache := ttl |}.

Definition ex_open (filename : option string) (msg : string) (w : Z)
  : option nat * string * Z :=
  (Some (String.length (default "" filename)), msg, w).

(** The rows of the file every lsearch lookup reads. *)
Definition ex_lsearch_find (h : option nat) (filename : option string)
    (key : string) (len : Z) (opts : option string) (w : Z) : find_out * Z :=
  (if String.eqb key "foo" then ex_ok "bar" UINT_MAX
   else if String.eqb key "*.example.com" then ex_ok "wild" UINT_MAX
   else if String.eqb key "*@example.com" then ex_ok "anyone" UINT_MAX
   else if String.eqb key "busy" then
     {| fo_rc := 1; fo_result := None; fo_errmsg := "try later"; fo_do_cache := UINT_MAX |}
   else if String.eqb key "update" then ex_ok "done" 0
   else if String.eqb key "locked" then
     {| fo_rc := 1; fo_result := None; fo_errmsg := "locked"; fo_do_cache := 0 |}
   else if String.eqb key "gone" then
     {| fo_rc := 2; fo_result := None; fo_errmsg := ""; fo_do_cache := 0 |}
   else ex_fail, w).

Definition ex_dnsdb_find (h : option nat) (filename : option string)
    (key : string) (len : Z) (opts : option string) (w : Z) : find_out * Z :=
  (ex_ok "192.0.2.1" 60, w + 1).

Definition ex_driver (name : string) (type : Z)
    (find : option (option nat → option string → string → Z → option string →
                    Z → find_out * Z)) : lookup_info :=
  {| lk_name := name; lk_type := type; lk_open := ex_open; lk_check := None;
     lk_find := find; lk_close := Some (λ _ w, w); lk_tidy := None;
     lk_quote := false |}.

Definition ex_lookup_list : list (@lookup_info nat Z) :=
  [ ex_driver "dbm" 2 (Some (λ _ _ _ _ _ w, (ex_fail, w)));
    ex_driver "dnsdb" 1 (Some ex_dnsdb_find);
    ex_driver "lsearch" 2 (Some ex_lsearch_find);
    ex_driver "nis" 0 (Some (λ _ _ _ _ _ w, (ex_fail, w)));
    ex_driver "nisplus" 1 None;
    ex_driver "sqlite" 4 (Some (λ _ _ _ _ _ w, (ex_fail, w))) ].

(** [string_nextinlist] and [string_append_listele] for lists without
    doubled separators or white space. *)
Fixpoint ex_split (cur : string) (s : string) : list string :=
  match s with
  | EmptyString => [cur]
  | String c r =>
      if Ascii.eqb c ","%char then cur :: ex_split EmptyString r
      else ex_split (cur ++ String c EmptyString) r
  end.

Definition ex_nextinlist_all (s : string) : list string :=
  match s with
  | EmptyString => []
  | _ => ex_split EmptyString s
  end.

Definition ex_append_listele (g : option string) (ele : string) : string :=
  match g with
  | None => ele
  | Some g => g ++ "," ++ ele
  end.

(** The functions of search.c over this table, with exim's values for the
    constants: SEARCH_STAR 1, SEARCH_STARAT 2, lookup_querystyle 1,
    lookup_absfile 2, DEFER 1, at most two files open, nothing tainted. *)
Definition ex_time (w : Z) : Z := w.
Definition ex_untainted (s : string) : bool := false.
Definition ex_quoted (s : string) (t : Z) : bool := true.

Abbreviation ex_search_open :=
  (λ st filename search_type,
     search_open (H:=nat) (W:=Z) ex_lookup_list 2 2 ex_untainted st filename search_type
       0 None None) (only parsing).

Abbreviation ex_internal_search_find :=
  (internal_search_find (H:=nat) (W:=Z) ex_lookup_list 1 ex_time ex_untainted ex_quoted "")
  (only parsing).

Abbreviation ex_search_find :=
  (search_find (H:=nat) (W:=Z) ex_lookup_list 1 2 2 1 ex_time ex_untainted ex_quoted ""
     ex_nextinlist_all ex_append_listele) (only parsing).

Definition ex_file : option string := Some "/etc/aliases".

(** One lsearch file open, nothing looked up yet; and the same after a
    lookup of "foo", which is then in the item cache. *)
Definition ex_opened : @search_state nat Z :=
  (ex_search_open (initial_state 0) ex_file 2).2.

Definition ex_cached : @search_state nat Z :=
  (ex_internal_search_find ex_opened 0 ex_file "foo" true None).2.

Definition ex_node (st : @search_state nat Z) : tree_node :=
  default {| t_name := ""; t_data := {| c_handle := None; c_search_type := 0;
                                        c_up := None; c_down := None;
                                        c_item_cache := ∅ |} |}
          (search_tree st !! 0%nat).

Definition ex_lsearch : @lookup_info nat Z := ex_driver "lsearch" 2 (Some ex_lsearch_find).

(** The item of key [k] in the item cache of handle 0. *)
Definition ex_item (st : @search_state nat Z) (k : string) : option expiring_data :=
  cache_at st 0 ≫= λ c, c_item_cache c !! k.

Lemma ex_registry_sorted : registry_sorted ex_lookup_list.
Proof.
  intros i j a b Hij Hi Hj.
  assert (j < 6)%nat by (apply lookup_lt_Some in Hj; simpl in Hj; lia).
  destruct j as [|[|[|[|[|[|]]]]]]; try lia;
    destruct i as [|[|[|[|[|]]]]]; try lia;
    simpl in Hi, Hj; injection Hi as <-; injection Hj as <-; reflexivity.
Qed.

Lemma ex_registry_cstrings : registry_cstrings ex_lookup_list.
Proof.
  intros i a Hi.
  assert (i < 6)%nat by (apply lookup_lt_Some in Hi; simpl in Hi; lia).
  destruct i as [|[|[|[|[|[|]]]]]]; try lia;
    simpl in Hi; injection Hi as <-; simpl; repeat split; discriminate.
Qed.

(** C4 at the slice ["nis"] of ["nis*@"]: position 3, not "nisplus". *)
Lemma search_findtype_exact_witness :
  (registry_sorted ex_lookup_list ∧ registry_cstrings ex_lookup_list ∧
   0 ≤ 3 ≤ Ustrlen "nis*@") ∧
  ∃ r msg, search_findtype ex_lookup_list "nis*@" 3 = Some (r, msg) ∧
    (∀ i : nat, r = Z.of_nat i ↔ registry_match ex_lookup_list i (string_take 3 "nis*@")) ∧
    (0 ≤ r ∨ r = -1).
Proof.
  assert (0 ≤ 3 ≤ Ustrlen "nis*@") as Hlen by (vm_compute; split; discriminate).
  split; [split; [apply ex_registry_sorted|split; [apply ex_registry_cstrings|done]]|].
  exact (search_findtype_exact ex_lookup_list "nis*@" 3
           ex_registry_sorted ex_registry_cstrings Hlen).
Defined.

(** C8 (amended) at ["partial3(*.)lsearch*@,ret=key"]. *)
Lemma search_findtype_partial_forms_witness :
  ∃ r, search_findtype_partial ex_lookup_list 1 2 1 "partial3(*.)lsearch*@,ret=key" = Some r ∧
    fp_ptypeaff r = Some "*.)lsearch*@,ret=key" ∧ fp_afflen r = Some 2 ∧
    stores_partial ex_lookup_list 1 2 1 r 3 "lsearch*@,ret=key".
Proof.
  destruct (search_findtype_partial_forms ex_lookup_list 1 2 1
              "partial3(*.)lsearch*@,ret=key") as (r & Hr & _ & Hparen & _).
  exists r. split; [exact Hr|].
  apply (Hparen "3" "*." "lsearch*@,ret=key"); [reflexivity|reflexivity| |reflexivity].
  vm_compute. discriminate.
Defined.

(** C8 as stated fails in two places. The count is an [int]: the digits of
    "partial4294967298-lsearch" denote 2^32 + 2, and the count that reaches
    the caller is 2. And for a query-style type no count reaches the caller:
    "partial-dnsdb" has the form that the claim parses to the count 2, and
    it is refused, -1 being returned with nothing stored for the count. *)
Lemma search_findtype_partial_forms_counterexample :
  (∃ r, search_findtype_partial ex_lookup_list 1 2 1 "partial4294967298-lsearch" = Some r ∧
        digits_value 0 "4294967298" = 4294967298 ∧
        fp_ptype r = Some 2 ∧ fp_ptype r ≠ Some 4294967298) ∧
  (∃ r, search_findtype_partial ex_lookup_list 1 2 1 "partial-dnsdb" = Some r ∧
        fp_return r = -1 ∧ fp_ptype r = None ∧
        fp_error r = Some (partial_not_permitted_msg "dnsdb")).
Proof.
  split; eexists; (split; [vm_compute; reflexivity|]); repeat split;
    try (vm_compute; reflexivity).
  simpl. discriminate.
Qed.

(** C1 at a second lookup of "foo": the item is in the cache, for ever and
    with the same (absent) options. *)
Lemma internal_search_find_hit_iff_witness :
  (search_tree ex_cached !! 0%nat = Some (ex_node ex_cached) ∧
   lookup_list_at ex_lookup_list (code (peek (t_name (ex_node ex_cached))) - 48)
     = Some ex_lsearch ∧
   lk_find ex_lsearch = Some ex_lsearch_find ∧
   "foo" ≠ "" ∧ cstring "foo") ∧
  let '(data, st') := ex_internal_search_find ex_cached 0 ex_file "foo" true None in
  let out := ex_lsearch_find (c_handle (t_data (ex_node ex_cached))) ex_file "foo"
               (Ustrlen "foo") None (world ex_cached) in
  ((∃ e, item_cache_hit ex_time ex_cached (t_data (ex_node ex_cached)) "foo" true None e)
     ↔ hook_calls st' = hook_calls ex_cached) ∧
  (∀ e, item_cache_hit ex_time ex_cached (t_data (ex_node ex_cached)) "foo" true None e →
        data = e_data e ∧
        st' = set_search_find_defer false (set_search_error_message "" ex_cached)) ∧
  ((¬ ∃ e, item_cache_hit ex_time ex_cached (t_data (ex_node ex_cached)) "foo" true None e) →
     hook_calls st' = (hook_calls ex_cached
                       ++ [the_find_call ex_file "foo" None (ex_node ex_cached)])%list ∧
     data = fo_result out.1 ∧ world st' = out.2).
Proof.
  assert (search_tree ex_cached !! 0%nat = Some (ex_node ex_cached)) as Hnode
    by reflexivity.
  assert (lookup_list_at ex_lookup_list (code (peek (t_name (ex_node ex_cached))) - 48)
          = Some ex_lsearch) as Hdriver by reflexivity.
  assert (lk_find ex_lsearch = Some ex_lsearch_find) as Hfind by reflexivity.
  assert ("foo" ≠ "") as Hkey by discriminate.
  assert (cstring "foo") as Hcs by (simpl; repeat split; discriminate).
  split; [done|].
  exact (internal_search_find_hit_iff ex_lookup_list 1 ex_time ex_untainted ex_quoted ""
           ex_cached 0%nat ex_file "foo" true None (ex_node ex_cached) ex_lsearch
           ex_lsearch_find Hnode Hdriver Hfind Hkey Hcs).
Defined.

(** C3 at the first lookup of "foo": the hook answers OK, to be cached for
    ever. *)
Lemma internal_search_find_cache_write_witness :
  let t := ex_node ex_opened in
  let out := ex_ok "bar" UINT_MAX in
  let st' := (ex_internal_search_find ex_opened 0 ex_file "foo" true None).2 in
  (fo_do_cache out ≠ 0 →
     ∃ e, search_tree st' =
            <[0%nat := node_with_cache t (<["foo" := e]> (c_item_cache (t_data t)))]>
              (search_tree ex_opened) ∧
          e_data e = fo_result out ∧ e_opts e = None ∧
          (fo_do_cache out = UINT_MAX → e_expiry e = 0) ∧
          (fo_do_cache out ≠ UINT_MAX → e_expiry e = ex_time 0 + fo_do_cache out)) ∧
  (fo_do_cache out = 0 →
     search_tree st' = <[0%nat := node_with_cache t ∅]> (search_tree ex_opened) ∧
     c_handle <$> cache_at st' 0 = Some (c_handle (t_data t))).
Proof.
  assert (search_tree ex_opened !! 0%nat = Some (ex_node ex_opened)) as Hnode
    by reflexivity.
  assert (lookup_list_at ex_lookup_list (code (peek (t_name (ex_node ex_opened))) - 48)
          = Some ex_lsearch) as Hdriver by reflexivity.
  assert (lk_find ex_lsearch = Some ex_lsearch_find) as Hfind by reflexivity.
  assert ("foo" ≠ "") as Hkey by discriminate.
  assert (cstring "foo") as Hcs by (simpl; repeat split; discriminate).
  assert (¬ ∃ e, item_cache_hit ex_time ex_opened (t_data (ex_node ex_opened))
                   "foo" true None e) as Hmiss.
  { intros (e & Hl & _). vm_compute in Hl. discriminate. }
  assert (ex_lsearch_find (c_handle (t_data (ex_node ex_opened))) ex_file "foo"
            (Ustrlen "foo") None (world ex_opened) = (ex_ok "bar" UINT_MAX, 0)) as Hout
    by reflexivity.
  assert (fo_rc (ex_ok "bar" UINT_MAX) ≠ 1) as Hrc by discriminate.
  exact (internal_search_find_cache_write ex_lookup_list 1 ex_time ex_untainted ex_quoted ""
           ex_opened 0%nat ex_file "foo" true None (ex_node ex_opened) ex_lsearch
           ex_lsearch_find Hnode Hdriver Hfind Hkey Hcs (ex_ok "bar" UINT_MAX) 0
           Hmiss Hout Hrc).
Defined.

Definition ex_busy : find_out :=
  {| fo_rc := 1; fo_result := None; fo_errmsg := "try later"; fo_do_cache := UINT_MAX |}.



(** The state after the verbatim lookup of [k] on the open file, and the
    memory of search_find for that key. *)
Definition ex_after_verbatim (k : string) : @search_state nat Z :=
  (ex_internal_search_find (record_probe Verbatim k (lru_promote ex_lookup_list 2 ex_opened 0))
     0 ex_file k true None).2.

Definition ex_memory (k : string) : key_memory :=
  {| m_key := buffer_of k; m_ks2 := [] |}.

(** What search_find looked up, in order. *)
Definition ex_probes (r : option (@find_result nat Z)) : option (list (attempt * string)) :=
  (λ r, probes (r_state r)) <$> r.



(** C6 (amended) at the key "alice@example.com", the @ at offset 5. *)
Lemma search_find_starat_lookup_witness :
  let k := "alice@example.com" in
  ∃ r rest,
    ex_search_find ex_opened 0 ex_file k (-1) "" 0 2 (Some 0) None = Some r ∧
    probes (r_state r)
    = (probes (ex_after_verbatim k) ++ (StarAt, ("*" ++ string_drop 5 k)%string) :: rest)%list ∧
    (∀ v n, Some "anyone" = Some v →
       search_find_defer
         (ex_internal_search_find
            (record_probe StarAt ("*" ++ string_drop 5 k) (ex_after_verbatim k))
            0 ex_file ("*" ++ string_drop 5 k) true None).2 = false →
       expanding (Some 0) = Some n →
       r_yield r = (if false then Some k else Some v) ∧
       r_expand_setup r = Some (n + 2) ∧
       expand_nstring (r_state r) !! (n + 1) = Some ExpKeystring ∧
       expand_nlength (r_state r) !! (n + 1) = Some (Z.of_nat 5) ∧
       expand_nstring (r_state r) !! (n + 2) = Some ExpKeystring ∧
       expand_nlength (r_state r) !! (n + 2) = Some 0).
Proof.
  intros k.
  assert (cstring k) as Hk by (simpl; repeat split; discriminate).
  assert (search_find_options ex_nextinlist_all ex_append_listele None = (false, true, None))
    as Hopts by reflexivity.
  assert (search_find_first ex_lookup_list 1 ex_time ex_untainted ex_quoted ""
            0 ex_file true None (-1) "" 0 (lru_promote ex_lookup_list 2 ex_opened 0)
            (ex_memory k) (Some 0)
          = Some (FallThrough None (ex_after_verbatim k) (ex_memory k) (Some 0) false))
    as Hfirst by (vm_compute; reflexivity).
  assert (Z.land 2 2 ≠ 0) as Hflag by discriminate.
  assert (Ustrrchr k "@" = Some 5%nat) as Hat by reflexivity.
  assert (0 < 5)%nat as Hi by lia.
  assert (ex_internal_search_find
            (record_probe StarAt ("*" ++ string_drop 5 k) (ex_after_verbatim k))
            0 ex_file ("*" ++ string_drop 5 k) true None
          = (Some "anyone",
             (ex_internal_search_find
                (record_probe StarAt ("*" ++ string_drop 5 k) (ex_after_verbatim k))
                0 ex_file ("*" ++ string_drop 5 k) true None).2)) as Hfind
    by (vm_compute; reflexivity).
  exact (search_find_starat_lookup ex_lookup_list 1 2 2 1 ex_time ex_untainted ex_quoted ""
           ex_nextinlist_all ex_append_listele ex_opened 0%nat ex_file k (-1) "" 0 2
           (Some 0) None false true None (ex_after_verbatim k) (ex_memory k) (Some 0)
           false 5%nat (Some "anyone") _ Hk Hopts Hfirst Hflag Hat Hi Hfind).
Defined.

(** C6 as stated fails. For "alice@example.com" the key looked up is
    "*@example.com", not "alic*@example.com", and the first variable has
    length 5, "alice", not 6, "alice@". *)
Lemma search_find_starat_lookup_counterexample :
  let r := ex_search_find ex_opened 0 ex_file "alice@example.com" (-1) "" 0 2 (Some 0) None in
  ex_probes r = Some [(Verbatim, "alice@example.com"); (StarAt, "*@example.com")] ∧
  "*@example.com" ≠ "alic*@example.com" ∧
  (λ r, expand_nlength (r_state r) !! 1) <$> r = Some (Some 5) ∧
  5 ≠ Ustrlen "alice@".
Proof. repeat split; vm_compute; (reflexivity || discriminate). Qed.

(** ** Runs over the table *)

Abbreviation ex_run :=
  (run (H:=nat) (W:=Z) ex_lookup_list 1 2 2 1 2 ex_time ex_untainted ex_quoted ""
     ex_nextinlist_all ex_append_listele) (only parsing).

Abbreviation ex_evictable :=
  (evictable (H:=nat) (W:=Z) ex_lookup_list 1 2 2 1 2 ex_time ex_untainted ex_quoted ""
     ex_nextinlist_all ex_append_listele) (only parsing).

Definition ex_open_op (f : string) : op := OpOpen (Some f) 2 0 None None.

Definition ex_find_op (h : nat) (f : string) : op :=
  OpFind h (Some f) "foo" (-1) "" 0 0 None None.

(** Three lsearch files, each looked up once before the next is opened. *)
Definition ex_ops_used : list op :=
  [ex_open_op "/a"; ex_find_op 0 "/a"; ex_open_op "/b"; ex_find_op 1 "/b"; ex_open_op "/c"].

(** Three lsearch files opened in a row, nothing looked up. *)
Definition ex_ops_unused : list op :=
  [ex_open_op "/a"; ex_open_op "/b"; ex_open_op "/c"].



(** C7 (amended) at the run that opens two files and looks each one up
    before the next open. *)
Lemma lru_chain_within_count_witness :
  (lookup_list_count ex_lookup_list ≤ 208 ∧
   finds_on_open (H:=nat) (W:=Z) ex_lookup_list 1 2 2 1 2 ex_time ex_untainted ex_quoted ""
     ex_nextinlist_all ex_append_listele (initial_state 0) (take 4 ex_ops_used)) ∧
  ∃ L, lru_chain (ex_run (initial_state 0) (take 4 ex_ops_used)) L ∧ NoDup L ∧
       Z.of_nat (length L) ≤ open_filecount (ex_run (initial_state 0) (take 4 ex_ops_used)).
Proof.
  assert (lookup_list_count ex_lookup_list ≤ 208) as Hcount by (vm_compute; discriminate).
  assert (finds_on_open (H:=nat) (W:=Z) ex_lookup_list 1 2 2 1 2 ex_time ex_untainted
            ex_quoted "" ex_nextinlist_all ex_append_listele (initial_state 0)
            (take 4 ex_ops_used)) as Hops.
  { unfold ex_ops_used, ex_open_op, ex_find_op. cbn [take finds_on_open].
    split; [done|].
    split; [eexists; split; [vm_compute; reflexivity|by eexists]|].
    split; [done|].
    split; [eexists; split; [vm_compute; reflexivity|by eexists]|].
    done. }
  split; [by split|].
  destruct (lru_chain_within_count ex_lookup_list 1 2 2 1 2 ex_time ex_untainted ex_quoted ""
              ex_nextinlist_all ex_append_listele 0 (take 4 ex_ops_used) Hcount Hops)
    as (L & Hch & _ & Hnd & _ & Hle & _).
  by exists L.
Defined.

(** C7 as stated fails. After one search_open of an lsearch file the count
    is 1 and the chain is empty: search_open has counted the slot and left it
    off the chain. The search_find that follows puts it there. *)
Lemma lru_chain_within_count_counterexample :
  let st := ex_run (initial_state 0) [ex_open_op "/a"] in
  open_filecount st = 1 ∧ open_top st = None ∧ open_bot st = None ∧
  lru_chain st [] ∧ Z.of_nat (length (@nil nat)) < open_filecount st ∧
  let st' := ex_run (initial_state 0) [ex_open_op "/a"; ex_find_op 0 "/a"] in
  open_filecount st' = 1 ∧ lru_chain st' [0%nat].
Proof. repeat split; vm_compute; reflexivity. Qed.

(** * Further runs over the table

    A second table for the cases the first does not have: one lsearch
    driver whose check function refuses a file unless the mode mask is 0, and
    whose file has an entry for the default key and one for the wild key
    "*.example.com". *)

Definition ex_check (h : nat) (filename : option string) (modemask : Z)
    (owners owngroups : option (list Z)) (msg : string) (w : Z) : bool * string * Z :=
  (modemask =? 0, if modemask =? 0 then msg else "bad mode", w).

Definition ex_star_find (h : option nat) (filename : option string)
    (key : string) (len : Z) (opts : option string) (w : Z) : find_out * Z :=
  (if String.eqb key "*" then ex_ok "default" UINT_MAX
   else if String.eqb key "*.example.com" then ex_ok "wild" UINT_MAX
   else ex_fail, w).

Definition ex_checked_list : list (@lookup_info nat Z) :=
  [ {| lk_name := "lsearch"; lk_type := 2; lk_open := ex_open;
       lk_check := Some ex_check; lk_find := Some ex_star_find;
       lk_close := Some (λ _ w, w); lk_tidy := None; lk_quote := false |} ].

(** The state, memory and [*expand_setup] a block of search_find ended
    with. *)
Definition ex_end_state (o : option (@block_end nat Z)) : @search_state nat Z :=
  match o with
  | Some be => end_state be
  | None => initial_state 0
  end.

Definition ex_end_mem (o : option (@block_end nat Z)) : key_memory :=
  match o with
  | Some be => end_mem be
  | None => {| m_key := []; m_ks2 := [] |}
  end.

Definition ex_end_setup (o : option (@block_end nat Z)) : option Z :=
  match o with
  | Some (ReturnNull _ _ es) => es
  | Some (FallThrough _ _ _ es _) => es
  | None => None
  end.

(** The old-style file prefix of an sqlite query. *)
Lemma search_args_file_prefix_witness :
  ∃ f ws k : string,
    search_args (H:=nat) (W:=Z) ex_lookup_list 1 4 ex_nextinlist_all 5 "sqlite"
      "  /var/db  select 1" None = (k, Some f) ∧
    Uskip_whitespace "  /var/db  select 1" = (f ++ ws ++ k)%string ∧
    peek f = "/"%char ∧ no_space f ∧
    all_bytes isspace ws = true ∧ isspace (peek k) = false ∧
    (ws = "" → k = "").
Proof.
  apply search_args_file_prefix;
    [vm_compute; reflexivity|intros o Ho; discriminate Ho|reflexivity].
Defined.

(** The file of an sqlite query given as an option. *)
Lemma search_args_file_option_witness :
  search_args (H:=nat) (W:=Z) ex_lookup_list 1 4 ex_nextinlist_all 5 "sqlite"
    " /not/the/file" (Some "ret=key,file=/var/db")
  = (Uskip_whitespace " /not/the/file", Some "/var/db").
Proof.
  apply (search_args_file_option ex_lookup_list 1 4 ex_nextinlist_all 5 "sqlite"
           " /not/the/file" "ret=key,file=/var/db" ["ret=key"] [] "/var/db");
    [vm_compute; reflexivity|vm_compute; reflexivity|].
  constructor; [|constructor]. intros g Hg. vm_compute in Hg. discriminate Hg.
Defined.

(** "nisplus" is registered without a find function. *)
Lemma search_findtype_messages_witness :
  ∃ r msg, search_findtype ex_lookup_list "nisplus" 7 = Some (r, msg) ∧
    (msg = None ↔ ∃ i, registry_match ex_lookup_list i (string_take 7 "nisplus")) ∧
    (msg = Some (not_available_msg "nisplus" 7) ↔
       ∃ k lk, ex_lookup_list !! k = Some lk ∧
               lk_name lk = string_take 7 "nisplus" ∧ lk_find lk = None) ∧
    (msg = Some (unknown_type_msg "nisplus" 7) ↔
       ∀ k lk, ex_lookup_list !! k = Some lk → lk_name lk ≠ string_take 7 "nisplus").
Proof.
  assert (0 ≤ 7 ≤ Ustrlen "nisplus") as Hlen by (vm_compute; split; discriminate).
  exact (search_findtype_messages ex_lookup_list "nisplus" 7
           ex_registry_sorted ex_registry_cstrings Hlen).
Defined.

(** "partial-lsearch*@,ret=key" *)
Lemma search_findtype_partial_star_witness :
  ∃ out stype err,
    search_findtype_partial ex_lookup_list 1 2 1 "partial-lsearch*@,ret=key" = Some out ∧
    search_findtype ex_lookup_list "lsearch" (Ustrlen "lsearch") = Some (stype, err) ∧
    fp_starflags out = 2 ∧ fp_opts out = Some (Some "ret=key") ∧
    fp_return out = stype ∧ fp_ptype out = Some 2 ∧ fp_error out = err.
Proof.
  destruct (search_findtype_partial_star ex_lookup_list 1 2 1 "partial-lsearch*@,ret=key"
              2 (Some "*.") (Some 2) "lsearch*@,ret=key" "lsearch" "@,ret=key")
    as (out & stype & err & Hout & Hfind & Hflags & Hopts & Hret);
    [reflexivity|reflexivity|reflexivity|lia|lia|].
  exists out, stype, err. split; [exact Hout|]. split; [exact Hfind|].
  split; [exact Hflags|]. split; [exact Hopts|].
  vm_compute in Hfind. injection Hfind as <- <-. exact Hret.
Defined.

(** "dnsdb,retry=2": a query-style type with options and no "partial". *)
Lemma search_findtype_partial_options_witness :
  ∃ out stype err,
    search_findtype_partial ex_lookup_list 1 2 1 "dnsdb,retry=2" = Some out ∧
    search_findtype ex_lookup_list "dnsdb" (Ustrlen "dnsdb") = Some (stype, err) ∧
    fp_starflags out = 0 ∧ fp_opts out = Some (Some "retry=2") ∧
    fp_return out = stype ∧ fp_ptype out = Some (-1) ∧ fp_error out = err.
Proof.
  destruct (search_findtype_partial_options ex_lookup_list 1 2 1 "dnsdb,retry=2"
              (-1) None None "dnsdb,retry=2" "dnsdb" (Some "retry=2"))
    as (out & stype & err & Hout & Hfind & Hflags & Hopts & Hret);
    [reflexivity|reflexivity|reflexivity|reflexivity|].
  exists out, stype, err. split; [exact Hout|]. split; [exact Hfind|].
  split; [exact Hflags|]. split; [exact Hopts|].
  vm_compute in Hfind. injection Hfind as <- <-. exact Hret.
Defined.

(** Opening /etc/aliases twice. *)
Lemma search_open_reopen_witness :
  search_open (H:=nat) (W:=Z) ex_lookup_list 2 2 ex_untainted ex_opened ex_file 2
    7 (Some [0]) None = (Some 0%nat, ex_opened).
Proof.
  apply (search_open_reopen ex_lookup_list 2 2 ex_untainted (initial_state 0) ex_file 2
           0 None None 0%nat ex_opened 7 (Some [0]) None).
  vm_compute. reflexivity.
Defined.

(** A file the check function refuses. *)
Lemma search_open_null_witness :
  let r := search_open (H:=nat) (W:=Z) ex_checked_list 2 2 ex_untainted (initial_state 0)
             (Some "/a") 0 1 None None in
  r.1 = None ∧
  length (search_tree r.2) = length (search_tree (initial_state (H:=nat) 0)) ∧
  (∀ i, live r.2 i → live (initial_state (H:=nat) 0) i) ∧
  open_filecount r.2 ≤ open_filecount (initial_state (H:=nat) 0).
Proof.
  assert ((search_open (H:=nat) (W:=Z) ex_checked_list 2 2 ex_untainted (initial_state 0)
             (Some "/a") 0 1 None None).1 = None) as Hnone by (vm_compute; reflexivity).
  split; [exact Hnone|].
  exact (search_open_null ex_checked_list 2 2 ex_untainted (initial_state 0)
           (Some "/a") 0 1 None None Hnone).
Defined.

(** "foo" looked up twice in /etc/aliases. *)
Lemma internal_search_find_again_witness :
  ex_internal_search_find ex_cached 0 None "foo" true None
  = (Some "bar", set_search_find_defer false (set_search_error_message "" ex_cached)).
Proof.
  assert (search_tree ex_opened !! 0%nat = Some (ex_node ex_opened)) as Hnode
    by reflexivity.
  assert (lookup_list_at ex_lookup_list (code (peek (t_name (ex_node ex_opened))) - 48)
          = Some ex_lsearch) as Hdriver by reflexivity.
  assert (lk_find ex_lsearch = Some ex_lsearch_find) as Hfind by reflexivity.
  assert ("foo" ≠ "") as Hkey by discriminate.
  assert (cstring "foo") as Hcs by (simpl; repeat split; discriminate).
  assert (¬ ∃ e, item_cache_hit ex_time ex_opened (t_data (ex_node ex_opened)) "foo"
                   true None e) as Hmiss.
  { intros (e & Hl & _). vm_compute in Hl. discriminate Hl. }
  assert (ex_lsearch_find (c_handle (t_data (ex_node ex_opened))) ex_file "foo"
            (Ustrlen "foo") None (world ex_opened) = (ex_ok "bar" UINT_MAX, 0)) as Hout
    by reflexivity.
  assert (fo_rc (ex_ok "bar" UINT_MAX) ≠ 1) as Hrc by discriminate.
  assert (fo_do_cache (ex_ok "bar" UINT_MAX) ≠ 0) as Httl by discriminate.
  assert (search_tree ex_cached !! 0%nat
          = search_tree (ex_internal_search_find ex_opened 0 ex_file "foo" true None).2
              !! 0%nat) as Hslot by reflexivity.
  exact (internal_search_find_again ex_lookup_list 1 ex_time ex_untainted ex_quoted ""
           ex_opened 0%nat ex_file "foo" true None (ex_node ex_opened) ex_lsearch
           ex_lsearch_find (ex_ok "bar" UINT_MAX) 0 ex_cached None
           Hnode Hdriver Hfind Hkey Hcs Hmiss Hout Hrc Httl Hslot
           (or_introl eq_refl)).
Defined.

(** The empty key in /etc/aliases. *)
Lemma internal_search_find_empty_key_witness :
  ex_internal_search_find ex_cached 0 ex_file "" true None
  = (None, set_search_find_defer false (set_search_error_message "" ex_cached)).
Proof.
  apply (internal_search_find_empty_key ex_lookup_list 1 ex_time ex_untainted ex_quoted ""
           ex_cached 0%nat ex_file true None (ex_node ex_cached) ex_lsearch);
    reflexivity.
Defined.


(** A lookup that defers: nothing else is tried. *)
Lemma search_find_defers_first_witness :
  ex_search_find ex_opened 0 ex_file "busy" 2 "*." 2 3 (Some 0) None
  = Some {| r_yield := None; r_state := ex_after_verbatim "busy";
            r_keystring := buffer_of "busy"; r_expand_setup := Some 0 |}.
Proof.
  assert (cstring "busy") as Hcs by (simpl; repeat split; discriminate).
  assert (search_find_options ex_nextinlist_all ex_append_listele None = (false, true, None))
    as Hopt by reflexivity.
  assert (ex_internal_search_find
            (record_probe Verbatim "busy" (lru_promote ex_lookup_list 2 ex_opened 0))
            0 ex_file "busy" true None = (None, ex_after_verbatim "busy")) as Hfirst
    by (vm_compute; reflexivity).
  assert (search_find_defer (ex_after_verbatim "busy") = true) as Hdefer
    by (vm_compute; reflexivity).
  exact (search_find_defers_first ex_lookup_list 1 2 2 1 ex_time ex_untainted ex_quoted ""
           ex_nextinlist_all ex_append_listele ex_opened 0%nat ex_file "busy" 2 "*."
           2 3 (Some 0) None false true None None (ex_after_verbatim "busy")
           Hcs Hopt Hfirst Hdefer).
Defined.

(** "foo" is in the file: partial matching and the star flags play no
    part, and the two variables are set. *)
Lemma search_find_verbatim_hit_witness :
  ∃ r,
    ex_search_find ex_opened 0 ex_file "foo" 2 "*." 2 3 (Some 0) None = Some r ∧
    r_yield r = Some "bar" ∧
    probes (r_state r) = probes (ex_after_verbatim "foo") ∧
    hook_calls (r_state r) = hook_calls (ex_after_verbatim "foo") ∧
    search_tree (r_state r) = search_tree (ex_after_verbatim "foo") ∧
    r_expand_setup r = Some 2 ∧
    expand_nstring (r_state r) !! 1 = Some ExpKeystring ∧
    expand_nlength (r_state r) !! 1 = Some 0 ∧
    expand_nstring (r_state r) !! 2 = Some (ExpCopy "foo") ∧
    expand_nlength (r_state r) !! 2 = Some (Ustrlen "foo").
Proof.
  assert (cstring "foo") as Hcs by (simpl; repeat split; discriminate).
  assert (search_find_options ex_nextinlist_all ex_append_listele None = (false, true, None))
    as Hopt by reflexivity.
  assert (ex_internal_search_find
            (record_probe Verbatim "foo" (lru_promote ex_lookup_list 2 ex_opened 0))
            0 ex_file "foo" true None = (Some "bar", ex_after_verbatim "foo")) as Hfirst
    by (vm_compute; reflexivity).
  assert (search_find_defer (ex_after_verbatim "foo") = false) as Hdefer
    by (vm_compute; reflexivity).
  exact (search_find_verbatim_hit ex_lookup_list 1 2 2 1 ex_time ex_untainted ex_quoted ""
           ex_nextinlist_all ex_append_listele ex_opened 0%nat ex_file "foo" 2 "*."
           2 3 (Some 0) None false true None "bar" (ex_after_verbatim "foo")
           Hcs Hopt Hfirst Hdefer).
Defined.

(** "foo" with "ret=key" and neither partial matching nor a star flag. *)
Lemma search_find_plain_witness :
  ex_search_find ex_opened 0 ex_file "foo" (-1) "" 0 0 (Some 0) (Some "ret=key")
  = Some {| r_yield := Some "foo"; r_state := ex_after_verbatim "foo";
            r_keystring := buffer_of "foo"; r_expand_setup := Some 0 |}.
Proof.
  assert (cstring "foo") as Hcs by (simpl; repeat split; discriminate).
  assert (search_find_options ex_nextinlist_all ex_append_listele (Some "ret=key")
          = (true, true, None)) as Hopt by (vm_compute; reflexivity).
  assert (ex_internal_search_find
            (record_probe Verbatim "foo" (lru_promote ex_lookup_list 2 ex_opened 0))
            0 ex_file "foo" true None = (Some "bar", ex_after_verbatim "foo")) as Hfirst
    by (vm_compute; reflexivity).
  assert (-1 < 0) as Hp by lia.
  assert (Z.land 0 (Z.lor 1 2) = 0) as Hflags by reflexivity.
  exact (search_find_plain ex_lookup_list 1 2 2 1 ex_time ex_untainted ex_quoted ""
           ex_nextinlist_all ex_append_listele ex_opened 0%nat ex_file "foo" (-1) ""
           0 0 (Some 0) (Some "ret=key") true true None (Some "bar")
           (ex_after_verbatim "foo") Hcs Hopt Hfirst Hp Hflags).
Defined.

(** The file of the second table, open. *)
Definition ex_checked_opened : @search_state nat Z :=
  (search_open ex_checked_list 2 2 ex_untainted (initial_state 0) (Some "/a") 0
     0 None None).2.

(** What the lookups before "*" leave, for the key "nobody" with the flag
    for "*" alone. *)
Definition ex_before_star : option (@block_end nat Z) :=
  search_find_first ex_checked_list 1 ex_time ex_untainted ex_quoted "" 0 (Some "/a")
    true None (-1) "" 0 (lru_promote ex_checked_list 2 ex_checked_opened 0)
    {| m_key := buffer_of "nobody"; m_ks2 := [] |} (Some 0).

(** "nobody" is not in the file, "*" is. *)
Lemma search_find_star_default_witness :
  ∃ r,
    search_find ex_checked_list 1 2 2 1 ex_time ex_untainted ex_quoted ""
      ex_nextinlist_all ex_append_listele ex_checked_opened 0 (Some "/a") "nobody"
      (-1) "" 0 1 (Some 0) None = Some r ∧
    probes (r_state r) = (probes (ex_end_state ex_before_star) ++ [(Star, "*")])%list ∧
    search_find_defer (r_state r) = false ∧
    r_yield r = Some "default" ∧
    r_expand_setup r = Some 2 ∧
    expand_nstring (r_state r) !! 1 = Some ExpKeystring ∧
    expand_nlength (r_state r) !! 1 = Some (Ustrlen "nobody") ∧
    expand_nstring (r_state r) !! 2 = Some ExpKeystring ∧
    expand_nlength (r_state r) !! 2 = Some 0.
Proof.
  assert (cstring "nobody") as Hcs by (simpl; repeat split; discriminate).
  assert (search_find_options ex_nextinlist_all ex_append_listele None = (false, true, None))
    as Hopt by reflexivity.
  assert (search_find_first ex_checked_list 1 ex_time ex_untainted ex_quoted "" 0
            (Some "/a") true None (-1) "" 0
            (lru_promote ex_checked_list 2 ex_checked_opened 0)
            {| m_key := buffer_of "nobody"; m_ks2 := [] |} (Some 0)
          = Some (FallThrough None (ex_end_state ex_before_star)
                    (ex_end_mem ex_before_star) (ex_end_setup ex_before_star) false))
    as Hfirst by (vm_compute; reflexivity).
  assert (search_find_starat ex_checked_list 2 1 ex_time ex_untainted ex_quoted "" 0
            (Some "/a") true None 1 None (ex_end_state ex_before_star)
            (ex_end_mem ex_before_star) (ex_end_setup ex_before_star) false
          = FallThrough None (ex_end_state ex_before_star) (ex_end_mem ex_before_star)
              (ex_end_setup ex_before_star) false) as Hat by (vm_compute; reflexivity).
  assert (Z.land 1 (Z.lor 1 2) ≠ 0) as Hflags by discriminate.
  assert (internal_search_find ex_checked_list 1 ex_time ex_untainted ex_quoted ""
            (record_probe Star "*" (ex_end_state ex_before_star)) 0 (Some "/a") "*" true None
          = (Some "default",
             (internal_search_find ex_checked_list 1 ex_time ex_untainted ex_quoted ""
                (record_probe Star "*" (ex_end_state ex_before_star)) 0 (Some "/a") "*"
                true None).2)) as Hstar by (vm_compute; reflexivity).
  destruct (search_find_star_default ex_checked_list 1 2 2 1 ex_time ex_untainted ex_quoted
              "" ex_nextinlist_all ex_append_listele ex_checked_opened 0%nat (Some "/a")
              "nobody" (-1) "" 0 1 (Some 0) None false true None
              _ _ _ _ _ _ _ _ _ _ Hcs Hopt Hfirst Hat Hflags Hstar)
    as (r & Hr & Hp & Hd & Hy & He).
  exists r. split; [exact Hr|]. split; [exact Hp|].
  split; [rewrite Hd; vm_compute; reflexivity|]. split; [exact Hy|]. exact He.
Defined.

(** The count after two files were opened and looked up. *)
Lemma open_filecount_counts_witness :
  ∃ F : gset nat,
    (∀ i, i ∈ F ↔ counting ex_lookup_list 2 (ex_run (initial_state 0) (take 4 ex_ops_used)) i) ∧
    open_filecount (ex_run (initial_state 0) (take 4 ex_ops_used)) = Z.of_nat (size F).
Proof.
  assert (lookup_list_count ex_lookup_list ≤ 208) as Hcount by (vm_compute; discriminate).
  assert (finds_on_open (H:=nat) (W:=Z) ex_lookup_list 1 2 2 1 2 ex_time ex_untainted
            ex_quoted "" ex_nextinlist_all ex_append_listele (initial_state 0)
            (take 4 ex_ops_used)) as Hops.
  { unfold ex_ops_used, ex_open_op, ex_find_op. cbn [take finds_on_open].
    split; [done|].
    split; [eexists; split; [vm_compute; reflexivity|by eexists]|].
    split; [done|].
    split; [eexists; split; [vm_compute; reflexivity|by eexists]|].
    done. }
  exact (open_filecount_counts ex_lookup_list 1 2 2 1 2 ex_time ex_untainted ex_quoted ""
           ex_nextinlist_all ex_append_listele 0 (take 4 ex_ops_used) Hcount Hops).
Defined.

(** /a, then /b, then /a again: /a is back on top. *)
Lemma search_find_moves_to_front_witness :
  lru_chain (ex_run (initial_state 0) (take 4 ex_ops_used)) [1; 0]%nat ∧
  lru_chain
    (step ex_lookup_list 1 2 2 1 2 ex_time ex_untainted ex_quoted "" ex_nextinlist_all
       ex_append_listele (ex_run (initial_state 0) (take 4 ex_ops_used))
       (OpFind 0 (Some "/a") "foo" (-1) "" 0 0 None None))
    [0; 1]%nat.
Proof.
  assert (lookup_list_count ex_lookup_list ≤ 208) as Hcount by (vm_compute; discriminate).
  assert (finds_on_open (H:=nat) (W:=Z) ex_lookup_list 1 2 2 1 2 ex_time ex_untainted
            ex_quoted "" ex_nextinlist_all ex_append_listele (initial_state 0)
            (take 4 ex_ops_used)) as Hops.
  { unfold ex_ops_used, ex_open_op, ex_find_op. cbn [take finds_on_open].
    split; [done|].
    split; [eexists; split; [vm_compute; reflexivity|by eexists]|].
    split; [done|].
    split; [eexists; split; [vm_compute; reflexivity|by eexists]|].
    done. }
  assert (lru_chain (ex_run (initial_state 0) (take 4 ex_ops_used)) [1; 0]%nat) as Hch
    by (repeat split; vm_compute; reflexivity).
  assert (counting ex_lookup_list 2 (ex_run (initial_state 0) (take 4 ex_ops_used)) 0) as Hc.
  { eexists. split; [vm_compute; reflexivity|].
    split; [by eexists|vm_compute; reflexivity]. }
  split; [exact Hch|].
  change [0; 1]%nat with (0 :: filter (λ i, i ≠ 0) [1; 0])%nat.
  exact (search_find_moves_to_front ex_lookup_list 1 2 2 1 2 ex_time ex_untainted ex_quoted
           "" ex_nextinlist_all ex_append_listele 0 (take 4 ex_ops_used) [1; 0]%nat
           0%nat (Some "/a") "foo" (-1) "" 0 0 None None Hcount Hops Hch Hc).
Defined.

(** With two files open and a maximum of two, opening /c closes /a, the
    file looked up longest ago. *)
Lemma search_open_evicts_lru_witness :
  let st := ex_run (initial_state 0) (take 4 ex_ops_used) in
  lru_chain st [1; 0]%nat ∧
  lru_chain (ex_search_open st (Some "/c") 2).2 [1]%nat ∧
  counting ex_lookup_list 2 st 0 ∧ ¬ counting ex_lookup_list 2 (ex_search_open st (Some "/c") 2).2 0.
Proof.
  assert (lookup_list_count ex_lookup_list ≤ 208) as Hcount by (vm_compute; discriminate).
  assert (finds_on_open (H:=nat) (W:=Z) ex_lookup_list 1 2 2 1 2 ex_time ex_untainted
            ex_quoted "" ex_nextinlist_all ex_append_listele (initial_state 0)
            (take 4 ex_ops_used)) as Hops.
  { unfold ex_ops_used, ex_open_op, ex_find_op. cbn [take finds_on_open].
    split; [done|].
    split; [eexists; split; [vm_compute; reflexivity|by eexists]|].
    split; [done|].
    split; [eexists; split; [vm_compute; reflexivity|by eexists]|].
    done. }
  assert (lru_chain (ex_run (initial_state 0) (take 4 ex_ops_used)) [1; 0]%nat) as Hch
    by (repeat split; vm_compute; reflexivity).
  destruct (search_open_evicts_lru ex_lookup_list 1 2 2 1 2 ex_time ex_untainted ex_quoted
              "" ex_nextinlist_all ex_append_listele 0 (take 4 ex_ops_used) [1; 0]%nat
              (Some "/c") 2 0 None None ex_lsearch Hcount Hops Hch)
    as [Hrest Hlast];
    [reflexivity|reflexivity|reflexivity|vm_compute; reflexivity
    |vm_compute; discriminate|].
  split; [exact Hch|]. split; [exact Hrest|]. exact (Hlast 0%nat eq_refl).
Defined.

(** A single-key lookup: the key is the type string, the file is the query. *)
Lemma search_args_kinds_witness :
  search_args (H:=nat) (W:=Z) ex_lookup_list 1 4 ex_nextinlist_all 2 "lsearch"
    "  /etc/aliases" None = ("lsearch", Some "/etc/aliases").
Proof.
  apply (proj1 (search_args_kinds ex_lookup_list 1 4 ex_nextinlist_all 2 "lsearch"
                  "  /etc/aliases" None));
    reflexivity.
Defined.


(** "mail.example.com" matches the entry "*.example.com". *)
Lemma search_find_trimmed_match_witness :
  ∃ r,
    search_find ex_checked_list 1 2 2 1 ex_time ex_untainted ex_quoted ""
      ex_nextinlist_all ex_append_listele ex_checked_opened 0 (Some "/a")
      "mail.example.com" 2 "*." 2 0 (Some 0) None = Some r ∧
    probes (r_state r)
    = (probes ex_checked_opened
       ++ [(Verbatim, "mail.example.com"); (AffixWhole, "*.mail.example.com")]
       ++ [(AffixTrimmed, "*.example.com")])%list ∧
    r_yield r = Some "wild" ∧
    trimmed_vars "mail.example.com" "example.com" (Some 0) (r_state r) (r_expand_setup r).
Proof.
  assert (cstring "*.") as Haff by (simpl; repeat split; discriminate).
  assert (cstring "mail.example.com") as Hkey by (simpl; repeat split; discriminate).
  destruct (search_find ex_checked_list 1 2 2 1 ex_time ex_untainted ex_quoted ""
              ex_nextinlist_all ex_append_listele ex_checked_opened 0 (Some "/a")
              "mail.example.com" 2 "*." 2 0 (Some 0) None) as [r|] eqn:Hr;
    [|vm_compute in Hr; discriminate Hr].
  pose proof Hr as Hv. vm_compute in Hv. injection Hv as Hv.
  assert (probes (r_state r)
          = (probes ex_checked_opened
             ++ [(Verbatim, "mail.example.com"); (AffixWhole, "*.mail.example.com")]
             ++ [(AffixTrimmed, "*.example.com")])%list) as Hp
    by (rewrite <- Hv; vm_compute; reflexivity).
  assert (r_yield r = Some "wild") as Hy by (rewrite <- Hv; reflexivity).
  exists r. split; [reflexivity|]. split; [exact Hp|]. split; [exact Hy|].
  exact (search_find_trimmed_match ex_checked_list 1 2 2 1 ex_time ex_untainted ex_quoted ""
           ex_nextinlist_all ex_append_listele ex_checked_opened 0%nat (Some "/a")
           "mail.example.com" 2 "*." "" 0 (Some 0) None r
           [(Verbatim, "mail.example.com"); (AffixWhole, "*.mail.example.com")]
           "*.example.com" Haff Hkey Hr Hp ltac:(rewrite Hy; by eexists)).
Defined.
